(** * mp4snoop: the ISO Base Media File Format scanner of [mp4snoop.py]

    A shallow embedding of the [ISOBMFF] class and of the indented-print
    helpers, and the properties of the box scanner proved over it.

    The scanner is Python 2 code over one opened file object.  It is
    embedded as a state-and-exception monad over a record holding the
    file's bytes, the file position, the global [indent] counter and the
    lines printed so far.  Loops that the source writes as [while] take a
    fuel argument; running out of fuel is the separate outcome [Diverge]. *)

From Stdlib Require Import ZArith String Bool Lia QArith.
From Stdlib Require Import Strings.Byte.
From Stdlib Require Import List.
Import ListNotations.
Open Scope Z_scope.

(** ** Printed lines

    [print] renders text; the model keeps each line as the format string
    of the source together with the values substituted into it, and, for
    [iprint], the indentation level it was printed at.  The one line built
    by concatenation, ['version = ' + str(version)], is kept as the format
    [version = %s] with the integer as its argument. *)

Inductive arg : Type :=
| AStr (bs : list byte)        (* a Python 2 [str]: raw bytes   *)
| AInt (z : Z)                 (* an integer argument           *)
| AChr (z : Z)                 (* [chr(z)] passed to [%c]       *)
| AFloat (q : Q)               (* a float argument, exact value *)
| ATuple (zs : list Z).        (* [str] of a tuple of integers  *)

Inductive line : Type :=
| ILine (lvl : Z) (fmt : string) (args : list arg)   (* iprint *)
| PLine (fmt : string) (args : list arg).            (* print  *)

(** ** Exceptions the code can meet *)

Inductive exn : Type :=
| struct_error      (* struct.unpack on a string of the wrong length *)
| IOError           (* no open file; seek to an invalid position     *)
| IndexError        (* [read(1)[0]] at end of file                   *)
| OverflowError     (* seek offset beyond a C long long              *)
| EOFError.         (* the exception the walkers catch               *)

(** ** State of one scan *)

Record state : Type := mkState {
  data   : list byte;   (* contents of the opened file          *)
  opened : bool;        (* [self.file] is not None              *)
  pos    : Z;           (* [self.file.tell()]                   *)
  indent : Z;           (* the global [indent]                  *)
  out    : list line    (* lines printed so far, oldest first   *)
}.

(** [self.filesize]: [open] records the length of the file. *)
Definition filesize (s : state) : Z := Z.of_nat (length (data s)).

Definition set_pos (s : state) (p : Z) : state :=
  mkState (data s) (opened s) p (indent s) (out s).

Definition set_indent (s : state) (i : Z) : state :=
  mkState (data s) (opened s) (pos s) i (out s).

Definition emit (s : state) (l : line) : state :=
  mkState (data s) (opened s) (pos s) (indent s) (out s ++ [l]).

(** [ISOBMFF.open] on a file holding [bs], with [indent] at its initial 0. *)
Definition open_file (bs : list byte) : state := mkState bs true 0 0 [].

(** ** The monad *)

Inductive res (A : Type) : Type :=
| Ok (a : A) (s : state)
| Raise (e : exn) (s : state)
| Diverge.

Arguments Ok {A} a s.
Arguments Raise {A} e s.
Arguments Diverge {A}.

Definition M (A : Type) : Type := state -> res A.

Definition ret {A} (a : A) : M A := fun s => Ok a s.

Definition bind {A B} (m : M A) (f : A -> M B) : M B :=
  fun s => match m s with
           | Ok a s' => f a s'
           | Raise e s' => Raise e s'
           | Diverge => Diverge
           end.

Definition raise {A} (e : exn) : M A := fun s => Raise e s.

Notation "x <- c1 ;; c2" := (bind c1 (fun x => c2))
  (at level 61, c1 at next level, right associativity).
Notation "' pat <- c1 ;; c2" := (bind c1 (fun x => match x with pat => c2 end))
  (at level 61, pat pattern, c1 at next level, right associativity).
Notation "c1 ;; c2" := (bind c1 (fun _ => c2))
  (at level 61, right associativity).

(** [try: m except EOFError: ...]: only [EOFError] is intercepted. *)
Definition catch_EOFError {A} (m : M A) : M (option A) :=
  fun s => match m s with
           | Ok a s' => Ok (Some a) s'
           | Raise EOFError s' => Ok None s'
           | Raise e s' => Raise e s'
           | Diverge => Diverge
           end.

(** Loops.  [while_ fuel cond body a] runs [while cond: body] on the loop
    variables [a]; the body says whether it fell through or hit [break]. *)
Inductive ctl (A : Type) : Type :=
| Continue (a : A)
| Break (a : A).

Arguments Continue {A} a.
Arguments Break {A} a.

Fixpoint while_ {A} (fuel : nat) (cond : A -> M bool) (body : A -> M (ctl A))
         (a : A) : M A :=
  match fuel with
  | O => fun _ => Diverge
  | S n =>
      c <- cond a ;;
      if c then
        r <- body a ;;
        match r with
        | Continue a' => while_ n cond body a'
        | Break a' => ret a'
        end
      else ret a
  end.

(** [for i in range(n): body i], with [i] counted from [i0]; building
    the list [range(n)] is taken to succeed. *)
Fixpoint for_range (n : nat) (i0 : Z) (body : Z -> M unit) : M unit :=
  match n with
  | O => ret tt
  | S k => body i0 ;; for_range k (i0 + 1) body
  end.

(** ** Indented printing: [ipush], [ipop], [iprint] and [print] *)

Definition ipush : M unit := fun s => Ok tt (set_indent s (indent s + 1)).

Definition ipop : M unit :=
  fun s => Ok tt (set_indent s (if 0 <? indent s then indent s - 1 else indent s)).

Definition iprint (fmt : string) (args : list arg) : M unit :=
  fun s => Ok tt (emit s (ILine (indent s) fmt args)).

Definition print (fmt : string) (args : list arg) : M unit :=
  fun s => Ok tt (emit s (PLine fmt args)).

(** ** The file object *)

Definition tell : M Z := fun s => Ok (pos s) s.

Definition get_filesize : M Z := fun s => Ok (filesize s) s.

Definition is_open : M bool := fun s => Ok (opened s) s.

(** [file.read(n)]: at most [n] bytes, fewer at end of file, none beyond
    it; a negative [n] reads up to the end of the file. *)
Definition file_read (n : Z) : M (list byte) :=
  fun s =>
    let rest := skipn (Z.to_nat (pos s)) (data s) in
    let bs := if n <? 0 then rest else firstn (Z.to_nat n) rest in
    Ok bs (set_pos s (pos s + Z.of_nat (length bs))).

Definition max_off : Z := 2 ^ 63 - 1.

(** [file.seek(off, os.SEEK_CUR)]: an offset that does not fit a C long
    long raises [OverflowError]; a target below 0 or above the largest
    [off_t] raises [IOError].  Seeking beyond the end of the file is
    allowed.  A file system may refuse a target far below the largest
    [off_t] as well; that bound depends on the platform and is not part of
    the model, so every statement that asserts that a seek succeeds takes
    its target within the file. *)
Definition seek_cur (off : Z) : M unit :=
  fun s =>
    if (off <? - 2 ^ 63) || (max_off <? off) then Raise OverflowError s
    else
      let p := pos s + off in
      if (p <? 0) || (max_off <? p) then Raise IOError s
      else Ok tt (set_pos s p).

(** [file.seek(p, os.SEEK_SET)] *)
Definition seek_set (p : Z) : M unit :=
  fun s =>
    if (p <? - 2 ^ 63) || (max_off <? p) then Raise OverflowError s
    else if p <? 0 then Raise IOError s
    else Ok tt (set_pos s p).

(** ** [struct.unpack] *)

Definition byte_val (b : byte) : Z := Z.of_N (Byte.to_N b).

(** Big-endian value of a byte string. *)
Definition be_uint (bs : list byte) : Z :=
  fold_left (fun acc b => acc * 256 + byte_val b) bs 0.

(** Two's complement reading of a [w]-byte unsigned value. *)
Definition to_signed (w : nat) (u : Z) : Z :=
  if u <? 2 ^ (8 * Z.of_nat w - 1) then u else u - 2 ^ (8 * Z.of_nat w).

(** One big-endian integer of [w] bytes: formats [>H >h >I >i >Q >q]. *)
Definition unpack_int (signed : bool) (w : nat) (bs : list byte) : M Z :=
  if Nat.eqb (length bs) w
  then ret (if signed then to_signed w (be_uint bs) else be_uint bs)
  else raise struct_error.

Fixpoint chunks (w : nat) (count : nat) (bs : list byte) : list (list byte) :=
  match count with
  | O => []
  | S c => firstn w bs :: chunks w c (skipn w bs)
  end.

(** [count] big-endian integers of [w] bytes each: formats [>3H] and [>9l]. *)
Definition unpack_ints (signed : bool) (w count : nat) (bs : list byte)
  : M (list Z) :=
  if Nat.eqb (length bs) (count * w)
  then ret (map (fun c => if signed then to_signed w (be_uint c) else be_uint c)
                (chunks w count bs))
  else raise struct_error.

(** Format [4s]: the four bytes themselves. *)
Definition unpack_4s (bs : list byte) : M (list byte) :=
  if Nat.eqb (length bs) 4 then ret bs else raise struct_error.

(** ** Four-character tags *)

Definition tag (s : string) : list byte := list_byte_of_string s.

Fixpoint bytes_eqb (a b : list byte) : bool :=
  match a, b with
  | [], [] => true
  | x :: a', y :: b' => Byte.eqb x y && bytes_eqb a' b'
  | _, _ => false
  end.

(** ** Fixed-width readers of [ISOBMFF] *)

Definition scan_uint16 : M Z := bs <- file_read 2 ;; unpack_int false 2 bs.
Definition scan_int16 : M Z := bs <- file_read 2 ;; unpack_int true 2 bs.
Definition scan_uint16_3 : M (list Z) := bs <- file_read 6 ;; unpack_ints false 2 3 bs.
Definition scan_uint32 : M Z := bs <- file_read 4 ;; unpack_int false 4 bs.
Definition scan_int32 : M Z := bs <- file_read 4 ;; unpack_int true 4 bs.
Definition scan_uint64 : M Z := bs <- file_read 8 ;; unpack_int false 8 bs.
Definition scan_int64 : M Z := bs <- file_read 8 ;; unpack_int true 8 bs.
Definition scan_fourcc : M (list byte) := bs <- file_read 4 ;; unpack_4s bs.

(** [struct.unpack('>9l', self.file.read(9*4))] *)
Definition scan_matrix : M (list Z) := bs <- file_read (9 * 4) ;; unpack_ints true 4 9 bs.

(** [self.file.read(1)[0]] *)
Definition read1 : M byte :=
  bs <- file_read 1 ;;
  match bs with
  | [] => raise IndexError
  | b :: _ => ret b
  end.

(** [scan_string]: characters up to a 0x0, which is consumed.  The loop
    variables are [(c, s)]. *)
Definition scan_string (fuel : nat) : M (list byte) :=
  cs <- while_ fuel
       (fun cs : Z * list byte => ret (negb (fst cs =? 0)))
       (fun cs : Z * list byte =>
          b <- read1 ;;
          let c := byte_val b in
          if c =? 0 then ret (Break (c, snd cs))
          else ret (Continue (c, snd cs ++ [b])))
       (1, []) ;;
  ret (snd cs).

(** [scan_string_len]: a length byte, then that many bytes. *)
Definition scan_string_len : M (list byte) :=
  b <- read1 ;;
  file_read (byte_val b).

(** ** Box header and full-box prefix *)

(** [scan_box]: returns [(boxsize, boxtype, skip)]. *)
Definition scan_box : M (Z * list byte * Z) :=
  boxsize <- scan_uint32 ;;
  boxtype <- scan_fourcc ;;
  if boxsize =? 1 then
    boxsize <- scan_uint64 ;;
    ret (boxsize, boxtype, boxsize - 16)
  else if boxsize =? 0 then
    curpos <- tell ;;
    fsz <- get_filesize ;;
    let boxsize := (fsz - curpos) + 8 in
    ret (boxsize, boxtype, boxsize - 8)
  else
    ret (boxsize, boxtype, boxsize - 8).

(** [scan_fullbox]: returns [(version, flags, remaining - 4)]. *)
Definition scan_fullbox (remaining : Z) : M (Z * Z * Z) :=
  verflags <- scan_uint32 ;;
  let version := Z.land (Z.shiftr verflags 24) 255 in
  let flags := Z.land verflags 16777215 in
  ret (version, flags, remaining - 4).

(** ** Container walkers

    Every container method runs the same loop,
    [while self.file.tell() < chunkend], whose body resolves one header
    under [try ... except EOFError: break], prints the [Box Found] line and
    hands the payload length to the method chosen by [boxtype], or seeks
    past it.  [dispatch] is the [if]/[elif]/[else] chain of the method. *)

Definition walk_cond (chunkend : Z) (_ : unit) : M bool :=
  p <- tell ;; ret (p <? chunkend).

Definition walk_iter (dispatch : list byte -> Z -> M unit) (_ : unit)
  : M (ctl unit) :=
  r <- catch_EOFError scan_box ;;
  match r with
  | None => ret (Break tt)
  | Some (boxsize, boxtype, skip) =>
      iprint "Box Found: '%s' of length %u" [AStr boxtype; AInt boxsize] ;;
      dispatch boxtype skip ;;
      ret (Continue tt)
  end.

Definition walk (fuel : nat) (chunkend : Z)
           (dispatch : list byte -> Z -> M unit) : M unit :=
  while_ fuel (walk_cond chunkend) (walk_iter dispatch) tt.

(** ** Typed box decoders, leaves of the call graph first *)

Definition udta_dispatch (boxtype : list byte) (skip : Z) : M unit :=
  seek_cur skip.

Definition scan_udta (fuel : nat) (remaining : Z) : M unit :=
  ipush ;;
  p <- tell ;;
  let chunkend := p + remaining in
  walk fuel chunkend udta_dispatch ;;
  ipop.

Definition stbl_dispatch (boxtype : list byte) (skip : Z) : M unit :=
  seek_cur skip.

Definition scan_stbl (fuel : nat) (remaining : Z) : M unit :=
  ipush ;;
  p <- tell ;;
  let chunkend := p + remaining in
  walk fuel chunkend stbl_dispatch ;;
  ipop.

Definition scan_elst (remaining : Z) : M unit :=
  ipush ;;
  ' (version, flags, skip) <- scan_fullbox remaining ;;
  iprint "version = %s" [AInt version] ;;
  iprint "flags = 0x%x" [AInt flags] ;;
  entryCount <- scan_uint32 ;;
  iprint "entryCount = %d" [AInt entryCount] ;;
  for_range (Z.to_nat entryCount) 0 (fun i =>
    ipush ;;
    ' (segmentDuration, mediaTime) <-
        (if version =? 1 then
           d <- scan_uint64 ;; t <- scan_int64 ;; ret (d, t)
         else
           d <- scan_uint32 ;; t <- scan_int32 ;; ret (d, t)) ;;
    mediaRateInt <- scan_int16 ;;
    mediaRateFraction <- scan_int16 ;;
    iprint "entry: %d" [AInt i] ;;
    iprint "segmentDuration = %u" [AInt segmentDuration] ;;
    iprint "mediaTime = %d" [AInt mediaTime] ;;
    iprint "mediaRateInt = %d" [AInt mediaRateInt] ;;
    iprint "mediaRateFrac = %d" [AInt mediaRateFraction] ;;
    ipop) ;;
  ipop.

Definition edts_dispatch (boxtype : list byte) (skip : Z) : M unit :=
  if bytes_eqb boxtype (tag "elst") then scan_elst skip
  else seek_cur skip.

Definition scan_edts (fuel : nat) (remaining : Z) : M unit :=
  ipush ;;
  p <- tell ;;
  let chunkend := p + remaining in
  walk fuel chunkend edts_dispatch ;;
  ipop.

Definition scan_url_ (fuel : nat) (remaining : Z) : M unit :=
  ipush ;;
  ' (version, flags, skip) <- scan_fullbox remaining ;;
  iprint "version = %s" [AInt version] ;;
  iprint "flags = 0x%x" [AInt flags] ;;
  (if negb (Z.land flags 1 =? 0) then
     iprint "location = no location in URL" []
   else
     location <- scan_string fuel ;;
     iprint "location = '%s'" [AStr location]) ;;
  ipop.

Definition scan_urn_ (fuel : nat) (remaining : Z) : M unit :=
  ipush ;;
  ' (version, flags, skip) <- scan_fullbox remaining ;;
  iprint "version = %s" [AInt version] ;;
  iprint "flags = 0x%x" [AInt flags] ;;
  name <- scan_string fuel ;;
  iprint "name = '%s'" [AStr name] ;;
  location <- scan_string fuel ;;
  iprint "location = '%s'" [AStr location] ;;
  ipop.

Definition dref_dispatch (fuel : nat) (boxtype : list byte) (skip : Z) : M unit :=
  if bytes_eqb boxtype (tag "url ") then scan_url_ fuel skip
  else if bytes_eqb boxtype (tag "urn ") then scan_urn_ fuel skip
  else seek_cur skip.

Definition scan_dref (fuel : nat) (remaining : Z) : M unit :=
  ipush ;;
  p <- tell ;;
  let chunkend := p + remaining in
  ' (version, flags, skip) <- scan_fullbox remaining ;;
  iprint "version = %s" [AInt version] ;;
  iprint "flags = 0x%x" [AInt flags] ;;
  entryCount <- scan_uint32 ;;
  iprint "entryCount = %d" [AInt entryCount] ;;
  walk fuel chunkend (dref_dispatch fuel) ;;
  ipop.

Definition dinf_dispatch (fuel : nat) (boxtype : list byte) (skip : Z) : M unit :=
  if bytes_eqb boxtype (tag "dref") then scan_dref fuel skip
  else seek_cur skip.

Definition scan_dinf (fuel : nat) (remaining : Z) : M unit :=
  ipush ;;
  p <- tell ;;
  let chunkend := p + remaining in
  walk fuel chunkend (dinf_dispatch fuel) ;;
  ipop.

Definition scan_nmhd (remaining : Z) : M unit :=
  ipush ;;
  ' (version, flags, skip) <- scan_fullbox remaining ;;
  iprint "version = %s" [AInt version] ;;
  iprint "flags = 0x%x" [AInt flags] ;;
  ipop.

Definition scan_hmhd (remaining : Z) : M unit :=
  ipush ;;
  ' (version, flags, skip) <- scan_fullbox remaining ;;
  iprint "version = %s" [AInt version] ;;
  iprint "flags = 0x%x" [AInt flags] ;;
  maxPDUSize <- scan_uint16 ;;
  avgPDUSize <- scan_uint16 ;;
  maxbitrate <- scan_uint32 ;;
  avgbitrate <- scan_uint32 ;;
  reserved <- scan_uint32 ;;
  iprint "maxPDUSize = %d" [AInt maxPDUSize] ;;
  iprint "avgPDUSize = %d" [AInt avgPDUSize] ;;
  iprint "maxbitrate = %d" [AInt maxbitrate] ;;
  iprint "avgbitrate = %d" [AInt avgbitrate] ;;
  ipop.

(** [balance/16.0] is a float division; dividing a 16-bit integer by 16
    is exact in binary floating point, so the rational is the value. *)
Definition scan_smhd (remaining : Z) : M unit :=
  ipush ;;
  ' (version, flags, skip) <- scan_fullbox remaining ;;
  iprint "version = %s" [AInt version] ;;
  iprint "flags = 0x%x" [AInt flags] ;;
  balance <- scan_int16 ;;
  iprint "balance = %d / %.3f" [AInt balance; AFloat (inject_Z balance / inject_Z 16)%Q] ;;
  reserved <- scan_uint16 ;;
  ipop.

Definition scan_vmhd (remaining : Z) : M unit :=
  ipush ;;
  ' (version, flags, skip) <- scan_fullbox remaining ;;
  iprint "version = %s" [AInt version] ;;
  iprint "flags = 0x%x" [AInt flags] ;;
  graphicsMode <- scan_uint16 ;;
  iprint "graphicsMode = %d" [AInt graphicsMode] ;;
  opcolor <- scan_uint16_3 ;;
  iprint "opcolor = RGB%s" [ATuple opcolor] ;;
  ipop.

Definition minf_dispatch (fuel : nat) (boxtype : list byte) (skip : Z) : M unit :=
  if bytes_eqb boxtype (tag "dinf") then scan_dinf fuel skip
  else if bytes_eqb boxtype (tag "stbl") then scan_stbl fuel skip
  else if bytes_eqb boxtype (tag "vmhd") then scan_vmhd skip
  else if bytes_eqb boxtype (tag "smhd") then scan_smhd skip
  else if bytes_eqb boxtype (tag "hmhd") then scan_hmhd skip
  else if bytes_eqb boxtype (tag "nmhd") then scan_nmhd skip
  else seek_cur skip.

Definition scan_minf (fuel : nat) (remaining : Z) : M unit :=
  ipush ;;
  p <- tell ;;
  let chunkend := p + remaining in
  walk fuel chunkend (minf_dispatch fuel) ;;
  ipop.

Definition scan_hdlr (remaining : Z) : M unit :=
  ipush ;;
  p <- tell ;;
  let endpos := p + remaining in
  ' (version, flags, skip) <- scan_fullbox remaining ;;
  iprint "version = %s" [AInt version] ;;
  iprint "flags = 0x%x" [AInt flags] ;;
  pre_defined <- scan_uint32 ;;
  handlerType <- scan_fourcc ;;
  iprint "handlerType = '%s'" [AStr handlerType] ;;
  seek_cur (4 * 3) ;;
  curpos <- tell ;;
  name <- file_read (endpos - curpos) ;;
  iprint "name = '%s'" [AStr name] ;;
  ipop.

Definition scan_mdhd (remaining : Z) : M unit :=
  ipush ;;
  ' (version, flags, skip) <- scan_fullbox remaining ;;
  iprint "version = %s" [AInt version] ;;
  iprint "flags = 0x%x" [AInt flags] ;;
  ' (creationTime, modificationTime, timescale, duration) <-
      (if version =? 1 then
         creationTime <- scan_uint64 ;;
         modificationTime <- scan_uint64 ;;
         timescale <- scan_uint32 ;;
         duration <- scan_uint64 ;;
         ret (creationTime, modificationTime, timescale, duration)
       else
         creationTime <- scan_uint32 ;;
         modificationTime <- scan_uint32 ;;
         timescale <- scan_uint32 ;;
         duration <- scan_uint32 ;;
         ret (creationTime, modificationTime, timescale, duration)) ;;
  iprint "creation = %u" [AInt creationTime] ;;
  iprint "modification = %u" [AInt modificationTime] ;;
  iprint "timescale = %u" [AInt timescale] ;;
  iprint "duration = %u" [AInt duration] ;;
  language <- scan_uint16 ;;
  iprint "language = %c%c%c"
    [AChr (Z.land (Z.shiftr language 10) 31 + 96);
     AChr (Z.land (Z.shiftr language 5) 31 + 96);
     AChr (Z.land language 31 + 96)] ;;
  pre_defined <- scan_uint16 ;;
  ipop.

Definition mdia_dispatch (fuel : nat) (boxtype : list byte) (skip : Z) : M unit :=
  if bytes_eqb boxtype (tag "mdhd") then scan_mdhd skip
  else if bytes_eqb boxtype (tag "hdlr") then scan_hdlr skip
  else if bytes_eqb boxtype (tag "minf") then scan_minf fuel skip
  else seek_cur skip.

Definition scan_mdia (fuel : nat) (remaining : Z) : M unit :=
  ipush ;;
  p <- tell ;;
  let chunkend := p + remaining in
  walk fuel chunkend (mdia_dispatch fuel) ;;
  ipop.

Definition scan_tkhd (remaining : Z) : M unit :=
  ipush ;;
  ' (version, flags, skip) <- scan_fullbox remaining ;;
  iprint "version = %s" [AInt version] ;;
  iprint "flags = 0x%x" [AInt flags] ;;
  ' (creationTime, modificationTime, trackID, duration) <-
      (if version =? 1 then
         creationTime <- scan_uint64 ;;
         modificationTime <- scan_uint64 ;;
         trackID <- scan_uint32 ;;
         reserved <- scan_uint32 ;;
         duration <- scan_uint64 ;;
         ret (creationTime, modificationTime, trackID, duration)
       else
         creationTime <- scan_uint32 ;;
         modificationTime <- scan_uint32 ;;
         trackID <- scan_uint32 ;;
         reserved <- scan_uint32 ;;
         duration <- scan_uint32 ;;
         ret (creationTime, modificationTime, trackID, duration)) ;;
  iprint "creation = %u" [AInt creationTime] ;;
  iprint "modification = %u" [AInt modificationTime] ;;
  iprint "trackID = %u" [AInt trackID] ;;
  iprint "duration = %u" [AInt duration] ;;
  seek_cur (2 * 4) ;;
  layer <- scan_int16 ;;
  alternateGroup <- scan_uint16 ;;
  volume <- scan_int16 ;;
  reserved <- scan_int16 ;;
  iprint "layer = %d" [AInt layer] ;;
  iprint "altGroup = %d" [AInt alternateGroup] ;;
  iprint "volume = 0x%04x" [AInt volume] ;;
  matrix <- scan_matrix ;;
  iprint "matrix = %s" [ATuple matrix] ;;
  width <- scan_int32 ;;
  height <- scan_int32 ;;
  iprint "width = %d" [AInt width] ;;
  iprint "height = %d" [AInt height] ;;
  ipop.

Definition trak_dispatch (fuel : nat) (boxtype : list byte) (skip : Z) : M unit :=
  if bytes_eqb boxtype (tag "tkhd") then scan_tkhd skip
  else if bytes_eqb boxtype (tag "mdia") then scan_mdia fuel skip
  else if bytes_eqb boxtype (tag "edts") then scan_edts fuel skip
  else if bytes_eqb boxtype (tag "udta") then scan_udta fuel skip
  else seek_cur skip.

Definition scan_trak (fuel : nat) (remaining : Z) : M unit :=
  ipush ;;
  p <- tell ;;
  let chunkend := p + remaining in
  walk fuel chunkend (trak_dispatch fuel) ;;
  ipop.

Definition scan_mvhd (remaining : Z) : M unit :=
  ipush ;;
  ' (version, flags, skip) <- scan_fullbox remaining ;;
  iprint "version = %s" [AInt version] ;;
  iprint "flags = 0x%x" [AInt flags] ;;
  ' (creationTime, modificationTime, timescale, duration) <-
      (if version =? 1 then
         creationTime <- scan_uint64 ;;
         modificationTime <- scan_uint64 ;;
         timescale <- scan_uint32 ;;
         duration <- scan_uint64 ;;
         ret (creationTime, modificationTime, timescale, duration)
       else
         creationTime <- scan_uint32 ;;
         modificationTime <- scan_uint32 ;;
         timescale <- scan_uint32 ;;
         duration <- scan_uint32 ;;
         ret (creationTime, modificationTime, timescale, duration)) ;;
  iprint "creation = %u" [AInt creationTime] ;;
  iprint "modification = %u" [AInt modificationTime] ;;
  iprint "timescale = %u" [AInt timescale] ;;
  iprint "duration = %u" [AInt duration] ;;
  rate <- scan_uint32 ;;
  volume <- scan_uint16 ;;
  iprint "rate = 0x%08x" [AInt rate] ;;
  iprint "volume = 0x%04x" [AInt volume] ;;
  seek_cur 10 ;;
  matrix <- scan_matrix ;;
  iprint "matrix = %s" [ATuple matrix] ;;
  seek_cur 24 ;;
  nextTrackID <- scan_uint32 ;;
  iprint "nextTrackID = %d" [AInt nextTrackID] ;;
  ipop.

Definition moov_dispatch (fuel : nat) (boxtype : list byte) (skip : Z) : M unit :=
  if bytes_eqb boxtype (tag "mvhd") then scan_mvhd skip
  else if bytes_eqb boxtype (tag "trak") then scan_trak fuel skip
  else if bytes_eqb boxtype (tag "udta") then scan_udta fuel skip
  else seek_cur skip.

Definition scan_moov (fuel : nat) (remaining : Z) : M unit :=
  ipush ;;
  p <- tell ;;
  let chunkend := p + remaining in
  walk fuel chunkend (moov_dispatch fuel) ;;
  ipop.

(** The brand loop of [scan_ftyp]; it returns the final [remaining]. *)
Definition scan_ftyp_brands (fuel : nat) (remaining : Z) : M Z :=
  while_ fuel
    (fun remaining => ret (0 <? remaining))
    (fun remaining =>
       brand <- scan_fourcc ;;
       iprint "compat brand: '%s'" [AStr brand] ;;
       ret (Continue (remaining - 4)))
    remaining.

Definition scan_ftyp (fuel : nat) (remaining : Z) : M unit :=
  majorBrand <- scan_fourcc ;;
  minorVersion <- scan_uint32 ;;
  let remaining := remaining - 8 in
  ipush ;;
  iprint "major brand: '%s'" [AStr majorBrand] ;;
  iprint "minor version: %u" [AInt minorVersion] ;;
  _ <- scan_ftyp_brands fuel remaining ;;
  ipop.

(** ** The top-level scan *)

Definition scan_dispatch (fuel : nat) (boxtype : list byte) (skip : Z) : M unit :=
  if bytes_eqb boxtype (tag "ftyp") then scan_ftyp fuel skip
  else if bytes_eqb boxtype (tag "moov") then scan_moov fuel skip
  else seek_cur skip.

Definition scan_cond (_ : Z) : M bool :=
  p <- tell ;; fsz <- get_filesize ;; ret (p <? fsz).

(** One turn of the loop of [scan]; the loop variable is [numBoxes]. *)
Definition scan_iter (fuel : nat) (numBoxes : Z) : M (ctl Z) :=
  r <- catch_EOFError scan_box ;;
  match r with
  | None => ret (Break numBoxes)
  | Some (boxsize, boxtype, skip) =>
      let numBoxes := numBoxes + 1 in
      iprint "Box Found: '%s' of length %u" [AStr boxtype; AInt boxsize] ;;
      scan_dispatch fuel boxtype skip ;;
      print EmptyString [] ;;
      ret (Continue numBoxes)
  end.

Definition scan (fuel : nat) : M unit :=
  o <- is_open ;;
  if negb o then raise IOError
  else
    seek_set 0 ;;
    numBoxes <- while_ fuel scan_cond (scan_iter fuel) 0 ;;
    iprint "%d boxes scanned" [AInt numBoxes].

(** * Vocabulary of the statements *)

(** The [n] bytes of [d] from offset [p] on. *)
Definition bytes_at (d : list byte) (p n : Z) : list byte :=
  firstn (Z.to_nat n) (skipn (Z.to_nat p) d).

(** The version byte that [scan_fullbox] finds at the file position. *)
Definition version_at (s : state) : Z :=
  Z.land (Z.shiftr (be_uint (bytes_at (data s) (pos s) 4)) 24) 255.

(** Bytes moved by the cursor over a normal return of [m]. *)
Definition consumed {A} (m : M A) (s : state) : option Z :=
  match m s with
  | Ok _ s' => Some (pos s' - pos s)
  | _ => None
  end.

(** ** Time fields of [mvhd], [mdhd] and [tkhd] *)

(** The two lines every full-box decoder prints first, for a payload that
    starts at offset [a]. *)
Definition prefix_lines (d : list byte) (lvl a : Z) : list line :=
  [ILine lvl "version = %s"
     [AInt (Z.land (Z.shiftr (be_uint (bytes_at d a 4)) 24) 255)];
   ILine lvl "flags = 0x%x" [AInt (Z.land (be_uint (bytes_at d a 4)) 16777215)]].

(** The four lines printed next, when the fields lie in the file as
    follows from offset [a] on: the creation time in [w] bytes, the
    modification time in [w] bytes, a field of 4 bytes (printed with the
    format [third]), [gap] bytes that are not printed, and the duration
    in [w] bytes. *)
Definition time_lines (d : list byte) (lvl a w gap : Z) (third : string)
  : list line :=
  [ILine lvl "creation = %u" [AInt (be_uint (bytes_at d a w))];
   ILine lvl "modification = %u" [AInt (be_uint (bytes_at d (a + w) w))];
   ILine lvl third [AInt (be_uint (bytes_at d (a + w + w) 4))];
   ILine lvl "duration = %u"
     [AInt (be_uint (bytes_at d (a + w + w + 4 + gap) w))]].

(** The tags for which [scan] and [scan_moov] call a decoder. *)
Definition scan_registered (boxtype : list byte) : bool :=
  bytes_eqb boxtype (tag "ftyp") || bytes_eqb boxtype (tag "moov").

Definition moov_registered (boxtype : list byte) : bool :=
  bytes_eqb boxtype (tag "mvhd") || bytes_eqb boxtype (tag "trak")
  || bytes_eqb boxtype (tag "udta").

(** The state after the [Box Found] line of a walker. *)
Definition after_box_found (s1 : state) (boxtype : list byte) (boxsize : Z)
  : state :=
  emit s1 (ILine (indent s1) "Box Found: '%s' of length %u"
             [AStr boxtype; AInt boxsize]).

(** ** Indentation discipline *)

(** A line printed at level [b] or deeper; [print] lines carry no level. *)
Definition deeper (b : Z) (ln : line) : Prop :=
  match ln with
  | ILine lvl _ _ => b <= lvl
  | PLine _ _ => True
  end.

(** [quiet m]: [m] neither prints nor touches [indent]; it only moves the
    cursor. *)
Definition quiet {A} (m : M A) : Prop :=
  forall s,
    match m s with
    | Ok _ s' | Raise _ s' =>
        data s' = data s /\ opened s' = opened s /\
        indent s' = indent s /\ out s' = out s
    | Diverge => True
    end.

(** [levels b i j m]: started at level [i >= 0], [m] returns at level [j],
    has printed only lines at level [b] or deeper and has left the file
    alone; if it raises, [indent] is not negative at that point. *)
Definition levels {A} (b i j : Z) (m : M A) : Prop :=
  0 <= i ->
  forall s, indent s = i ->
    match m s with
    | Ok _ s' =>
        indent s' = j /\ 0 <= j /\ data s' = data s /\ opened s' = opened s /\
        exists l, out s' = out s ++ l /\ Forall (deeper b) l
    | Raise _ s' => 0 <= indent s'
    | Diverge => True
    end.

(** The [scan_*] methods of [ISOBMFF]. *)
Inductive method : Type :=
| m_scan | m_scan_uint16 | m_scan_int16 | m_scan_uint16_3 | m_scan_uint32
| m_scan_int32 | m_scan_uint64 | m_scan_int64 | m_scan_fourcc
| m_scan_string | m_scan_string_len | m_scan_box | m_scan_fullbox
| m_scan_ftyp | m_scan_moov | m_scan_mvhd | m_scan_trak | m_scan_tkhd
| m_scan_mdia | m_scan_mdhd | m_scan_hdlr | m_scan_minf | m_scan_vmhd
| m_scan_smhd | m_scan_hmhd | m_scan_nmhd | m_scan_dinf | m_scan_url_
| m_scan_urn_ | m_scan_dref | m_scan_stbl | m_scan_edts | m_scan_elst
| m_scan_udta.

(** A call whose result is dropped. *)
Definition void {A} (m : M A) : M unit := _ <- m ;; ret tt.

(** A call of the method [f]; [remaining] is the argument of the methods
    that take one. *)
Definition call (f : method) (fuel : nat) (remaining : Z) : M unit :=
  match f with
  | m_scan => scan fuel
  | m_scan_uint16 => void scan_uint16
  | m_scan_int16 => void scan_int16
  | m_scan_uint16_3 => void scan_uint16_3
  | m_scan_uint32 => void scan_uint32
  | m_scan_int32 => void scan_int32
  | m_scan_uint64 => void scan_uint64
  | m_scan_int64 => void scan_int64
  | m_scan_fourcc => void scan_fourcc
  | m_scan_string => void (scan_string fuel)
  | m_scan_string_len => void scan_string_len
  | m_scan_box => void scan_box
  | m_scan_fullbox => void (scan_fullbox remaining)
  | m_scan_ftyp => scan_ftyp fuel remaining
  | m_scan_moov => scan_moov fuel remaining
  | m_scan_mvhd => scan_mvhd remaining
  | m_scan_trak => scan_trak fuel remaining
  | m_scan_tkhd => scan_tkhd remaining
  | m_scan_mdia => scan_mdia fuel remaining
  | m_scan_mdhd => scan_mdhd remaining
  | m_scan_hdlr => scan_hdlr remaining
  | m_scan_minf => scan_minf fuel remaining
  | m_scan_vmhd => scan_vmhd remaining
  | m_scan_smhd => scan_smhd remaining
  | m_scan_hmhd => scan_hmhd remaining
  | m_scan_nmhd => scan_nmhd remaining
  | m_scan_dinf => scan_dinf fuel remaining
  | m_scan_url_ => scan_url_ fuel remaining
  | m_scan_urn_ => scan_urn_ fuel remaining
  | m_scan_dref => scan_dref fuel remaining
  | m_scan_stbl => scan_stbl fuel remaining
  | m_scan_edts => scan_edts fuel remaining
  | m_scan_elst => scan_elst remaining
  | m_scan_udta => scan_udta fuel remaining
  end.

(** ** Fuel *)

(** [res_le r r']: [r'] is [r], unless [r] ran out of fuel. *)
Definition res_le {A} (r r' : res A) : Prop := r = Diverge \/ r = r'.

(** ** Top-level boxes *)

(** The total size announced by a [Box Found] line printed at level 0,
    which is where [scan] prints the top-level boxes. *)
Definition top_size (ln : line) : option Z :=
  match ln with
  | ILine lvl fmt [AStr _; AInt boxsize] =>
      if (lvl =? 0) && String.eqb fmt "Box Found: '%s' of length %u"
      then Some boxsize else None
  | _ => None
  end.

Fixpoint top_sizes (l : list line) : list Z :=
  match l with
  | [] => []
  | ln :: l' =>
      match top_size ln with
      | Some z => z :: top_sizes l'
      | None => top_sizes l'
      end
  end.

Definition sum (l : list Z) : Z := fold_right Z.add 0 l.

(** ** Sample files *)

(** Writing sample files: one byte, a big-endian integer of [w] bytes. *)
Definition byte_of_Z (z : Z) : byte :=
  match Byte.of_N (Z.to_N z) with
  | Some b => b
  | None => x00
  end.

Fixpoint be_bytes (w : nat) (z : Z) : list byte :=
  match w with
  | O => []
  | S k => be_bytes k (z / 256) ++ [byte_of_Z (z mod 256)]
  end.

Definition zeros (n : nat) : list byte := repeat x00 n.

(** The [ftyp] box of the concrete scenario: 20 bytes. *)
Definition ftyp_isom : list byte :=
  be_bytes 4 20 ++ tag "ftyp" ++ tag "isom" ++ be_bytes 4 512 ++ tag "mp41".

(** An [smhd] payload with balance 0x0100, which is 1.0 in 8.8 fixed point. *)
Definition smhd_unit_balance : list byte :=
  be_bytes 4 0 ++ be_bytes 2 256 ++ be_bytes 2 0.

(** A [moov] box declaring 100 bytes in a file that ends after its first
    child: the file is exhausted exactly where the next header would start. *)
Definition moov_cut_at_header : list byte :=
  be_bytes 4 100 ++ tag "moov" ++ be_bytes 4 8 ++ tag "free".

(** A complete [ftyp] box followed by three stray bytes. *)
Definition ftyp_then_3 : list byte := ftyp_isom ++ zeros 3.

(** A [moov] box of 16 bytes whose child [free] declares 24 bytes, of which
    16 lie beyond the end of [moov]. *)
Definition moov_child_overflow : list byte :=
  be_bytes 4 16 ++ tag "moov" ++ be_bytes 4 24 ++ tag "free" ++ zeros 16.


(** An [ftyp] box declaring 18 bytes (payload 10) in a file of 20 bytes. *)
Definition ftyp_declares_18 : list byte :=
  be_bytes 4 18 ++ tag "ftyp" ++ tag "isom" ++ be_bytes 4 512 ++ tag "mp41".

(** A [moov] box whose child [mvhd] declares a payload of 104 bytes, four
    more than the version-0 layout holds. *)
Definition moov_long_mvhd : list byte :=
  be_bytes 4 120 ++ tag "moov" ++ be_bytes 4 112 ++ tag "mvhd" ++ zeros 104.

(** Payloads of a version-0 and of a version-1 [mvhd]. *)
Definition mvhd_v0 : list byte := zeros 100.
Definition mvhd_v1 : list byte := byte_of_Z 1 :: zeros 111.

(** A version-1 [mvhd] payload with creation time 1, modification time 2,
    timescale 3 and duration 4. *)
Definition mvhd_v1_times : list byte :=
  byte_of_Z 1 :: zeros 3
  ++ be_bytes 8 1 ++ be_bytes 8 2 ++ be_bytes 4 3 ++ be_bytes 8 4 ++ zeros 80.



(** A file of three top-level boxes: [ftyp], [free] and a [moov] holding
    a version-0 [mvhd]. *)
Definition three_boxes : list byte :=
  ftyp_isom
  ++ be_bytes 4 8 ++ tag "free"
  ++ be_bytes 4 116 ++ tag "moov" ++ be_bytes 4 108 ++ tag "mvhd" ++ zeros 100.

(** * Further methods and vocabulary *)

(** The container methods: those that walk their payload as boxes. *)
Definition is_container (f : method) : bool :=
  match f with
  | m_scan_moov | m_scan_trak | m_scan_mdia | m_scan_minf | m_scan_dinf
  | m_scan_dref | m_scan_stbl | m_scan_edts | m_scan_udta => true
  | _ => false
  end.

(** A 16-byte box [free] in the extended form whose 64-bit size is 0,
    followed by an ordinary empty [free] box. *)
Definition zero_size64_box : list byte :=
  be_bytes 4 1 ++ tag "free" ++ be_bytes 8 0 ++ be_bytes 4 8 ++ tag "free".

(** A file of two boxes: [free] of 8 bytes, then [mdat] with size field 0
    and five bytes of payload. *)
Definition free_then_open_mdat : list byte :=
  be_bytes 4 8 ++ tag "free" ++ be_bytes 4 0 ++ tag "mdat" ++ zeros 5.

(** The packed language code of [mdhd]: three letters, five bits each,
    stored as the letter minus 0x60. *)
Definition pack_language (c1 c2 c3 : Z) : Z :=
  (c1 - 96) * 1024 + (c2 - 96) * 32 + (c3 - 96).

(** A version-0 [mdhd] payload whose language is [eng]. *)
Definition mdhd_eng : list byte :=
  zeros 20 ++ be_bytes 2 (pack_language 101 110 103) ++ zeros 2.

(** A byte string without a 0x00. *)
Definition no_nul (bs : list byte) : Prop :=
  Forall (fun b => byte_val b <> 0) bs.

(** The payloads of two [url ] boxes: one flagged as holding no location,
    one holding the location [a.mp4] and its terminator. *)
Definition url_self_contained : list byte := be_bytes 4 1.
Definition url_with_location : list byte :=
  be_bytes 4 0 ++ tag "a.mp4" ++ zeros 1 ++ tag "next".

(** The number of turns of the brand loop of [scan_ftyp]: one for every
    four bytes, or part of four bytes, that [remaining] exceeds 8 by. *)
Definition ftyp_brand_count (remaining : Z) : nat :=
  Z.to_nat ((remaining - 8 + 3) / 4).

(** The brand lines printed at level [lvl] for [k] brands read from [p]. *)
Definition brand_lines (d : list byte) (lvl p : Z) (k : nat) : list line :=
  map (fun j => ILine lvl "compat brand: '%s'"
                  [AStr (bytes_at d (p + 4 * Z.of_nat j) 4)])
      (seq 0 k).

(** A version-0 [elst] payload with two entries. *)
Definition elst_two_entries : list byte :=
  be_bytes 4 0 ++ be_bytes 4 2 ++ zeros 24.

(** The decoders of full boxes: each starts by reading a [scan_fullbox]
    prefix. *)
Definition is_full_box (f : method) : bool :=
  match f with
  | m_scan_mvhd | m_scan_tkhd | m_scan_mdhd | m_scan_hdlr | m_scan_vmhd
  | m_scan_smhd | m_scan_hmhd | m_scan_nmhd | m_scan_url_ | m_scan_urn_
  | m_scan_dref | m_scan_elst => true
  | _ => false
  end.

(** [dumpBytes]: print the next [len] bytes in hexadecimal and as
    characters, then seek back.  The two lines are built piece by piece;
    their format is the prefix followed by one ["%02x "] (or ["%c  "]) for
    each byte read, a control character being shown as a dot. *)
Definition dumpBytes (len : Z) (msg : list byte) : M unit :=
  curpos <- tell ;;
  print "*** %s, offset: 0x%x=%u" [AStr msg; AInt curpos; AInt curpos] ;;
  bytes <- file_read len ;;
  print (String.append "dump:  "
           (String.concat EmptyString (map (fun _ => "%02x "%string) bytes)))
        (map (fun b => AInt (byte_val b)) bytes) ;;
  print (String.append "ascii: "
           (String.concat EmptyString (map (fun _ => "%c  "%string) bytes)))
        (map (fun b => if (0 <=? byte_val b) && (byte_val b <? 32)
                       then AChr 46 else AChr (byte_val b)) bytes) ;;
  seek_set curpos.

(** The three lines [dumpBytes] prints for the bytes [bytes] read at
    [curpos]. *)
Definition dump_lines (msg : list byte) (curpos : Z) (bytes : list byte)
  : list line :=
  [PLine "*** %s, offset: 0x%x=%u" [AStr msg; AInt curpos; AInt curpos];
   PLine (String.append "dump:  "
            (String.concat EmptyString (map (fun _ => "%02x "%string) bytes)))
         (map (fun b => AInt (byte_val b)) bytes);
   PLine (String.append "ascii: "
            (String.concat EmptyString (map (fun _ => "%c  "%string) bytes)))
         (map (fun b => if (0 <=? byte_val b) && (byte_val b <? 32)
                        then AChr 46 else AChr (byte_val b)) bytes)].

(** A Pascal-style string: a length byte, then the bytes. *)
Definition pascal (str : list byte) : list byte :=
  byte_of_Z (Z.of_nat (length str)) :: str.

(** [tiles d e p n]: [n] boxes, each of positive total size, follow one
    another in [d] from offset [p] and end exactly at [e]. *)
Inductive tiles (d : list byte) (e : Z) : Z -> nat -> Prop :=
| tiles_done : tiles d e e 0
| tiles_next p boxsize boxtype skip hdr n :
    0 < boxsize ->
    (forall o i l, scan_box (mkState d o p i l)
                   = Ok (boxsize, boxtype, skip) (mkState d o (p + hdr) i l)) ->
    tiles d e (p + boxsize) n ->
    tiles d e p (S n).

(** The payload of a [udta] box: two children, of 12 and 8 bytes. *)
Definition udta_two_children : list byte :=
  be_bytes 4 12 ++ tag "name" ++ zeros 4 ++ be_bytes 4 8 ++ tag "free".

(** * Valid files *)

(** What C7 calls a valid input file is laid down here on the bytes of
    the file alone: where each box starts and ends, which boxes hold
    boxes, and, for the boxes with a layout of their own, how many bytes
    that layout takes.  Nothing in this section refers to the scanner. *)

(** The header of the box that starts at offset [p] of the file [d]:
    total size, type tag and length of the header.  A size field of 1 is
    followed, after the tag, by the 64-bit total size; a size field of 0
    says that the box extends to the end of the file. *)
Definition box_header (d : list byte) (p : Z) : option (Z * list byte * Z) :=
  let n := Z.of_nat (length d) in
  if n <? p + 8 then None
  else
    let size32 := be_uint (bytes_at d p 4) in
    let typ := bytes_at d (p + 4) 4 in
    if size32 =? 1 then
      if n <? p + 16 then None
      else Some (be_uint (bytes_at d (p + 8) 8), typ, 16)
    else if size32 =? 0 then Some (n - p, typ, 8)
    else Some (size32, typ, 8).

(** The ranges of bytes that hold a sequence of boxes: the file itself
    and the payloads of the container boxes. *)
Inductive range : Type :=
| in_file | in_moov | in_trak | in_mdia | in_minf | in_dinf | in_dref
| in_stbl | in_edts | in_udta.

(** What the payload of a box is made of: bytes that are not interpreted,
    a sequence of boxes after [pre] bytes of fields, or one of the
    layouts below. *)
Inductive content : Type :=
| c_opaque
| c_boxes (k : range) (pre : Z)
| c_ftyp | c_mvhd | c_tkhd | c_mdhd | c_hdlr
| c_vmhd | c_smhd | c_hmhd | c_nmhd
| c_url | c_urn | c_elst.

(** The box types with a structure, by the range they are found in.  The
    children of [stbl] and of [udta], and every other box anywhere, are
    left uninterpreted.  [dref] holds its children after the full-box
    prefix and the entry count. *)
Definition content_of (k : range) (typ : list byte) : content :=
  match k with
  | in_file =>
      if bytes_eqb typ (tag "ftyp") then c_ftyp
      else if bytes_eqb typ (tag "moov") then c_boxes in_moov 0
      else c_opaque
  | in_moov =>
      if bytes_eqb typ (tag "mvhd") then c_mvhd
      else if bytes_eqb typ (tag "trak") then c_boxes in_trak 0
      else if bytes_eqb typ (tag "udta") then c_boxes in_udta 0
      else c_opaque
  | in_trak =>
      if bytes_eqb typ (tag "tkhd") then c_tkhd
      else if bytes_eqb typ (tag "mdia") then c_boxes in_mdia 0
      else if bytes_eqb typ (tag "edts") then c_boxes in_edts 0
      else if bytes_eqb typ (tag "udta") then c_boxes in_udta 0
      else c_opaque
  | in_mdia =>
      if bytes_eqb typ (tag "mdhd") then c_mdhd
      else if bytes_eqb typ (tag "hdlr") then c_hdlr
      else if bytes_eqb typ (tag "minf") then c_boxes in_minf 0
      else c_opaque
  | in_minf =>
      if bytes_eqb typ (tag "dinf") then c_boxes in_dinf 0
      else if bytes_eqb typ (tag "stbl") then c_boxes in_stbl 0
      else if bytes_eqb typ (tag "vmhd") then c_vmhd
      else if bytes_eqb typ (tag "smhd") then c_smhd
      else if bytes_eqb typ (tag "hmhd") then c_hmhd
      else if bytes_eqb typ (tag "nmhd") then c_nmhd
      else c_opaque
  | in_dinf =>
      if bytes_eqb typ (tag "dref") then c_boxes in_dref 8 else c_opaque
  | in_dref =>
      if bytes_eqb typ (tag "url ") then c_url
      else if bytes_eqb typ (tag "urn ") then c_urn
      else c_opaque
  | in_edts =>
      if bytes_eqb typ (tag "elst") then c_elst else c_opaque
  | in_stbl | in_udta => c_opaque
  end.

(** The index of the first 0x00 of a byte string. *)
Fixpoint nul_index (bs : list byte) : option nat :=
  match bs with
  | [] => None
  | b :: r => if byte_val b =? 0 then Some O else option_map S (nul_index r)
  end.

(** A null-terminated string that fills [bs]: the first 0x00 is the last
    byte. *)
Definition cstring (bs : list byte) : bool :=
  match nul_index bs with
  | Some n => Nat.eqb (S n) (length bs)
  | None => false
  end.

(** Two null-terminated strings, one after the other, that fill [bs]. *)
Definition two_cstrings (bs : list byte) : bool :=
  match nul_index bs with
  | Some n => cstring (skipn (S n) bs)
  | None => false
  end.

(** A payload of [base] bytes under version 0, of [base + 12] bytes under
    version 1 (three fields of 8 bytes instead of 4). *)
Definition versioned (version len base : Z) : bool :=
  ((version =? 0) && (len =? base)) || ((version =? 1) && (len =? base + 12)).

(** [layout d c a len]: the [len] bytes of payload at offset [a] have the
    size the layout [c] takes.  A full box starts with one byte of version
    and three bytes of flags.
    - [ftyp]: major brand, minor version, then brands of 4 bytes each;
    - [mvhd], [tkhd], [mdhd]: 100, 84 and 24 bytes, 12 more under
      version 1;
    - [hdlr]: 24 bytes of fixed fields, the name in what is left;
    - [vmhd], [smhd], [hmhd], [nmhd]: 12, 8, 20 and 4 bytes;
    - [url ]: the prefix alone when bit 0 of the flags is set, otherwise
      the prefix and the location, null-terminated;
    - [urn ]: the prefix, then name and location, both null-terminated;
    - [elst]: prefix, entry count, then entries of 12 bytes, or of 20
      under version 1. *)
Definition layout (d : list byte) (c : content) (a len : Z) : bool :=
  let version := be_uint (bytes_at d a 1) in
  let flags := be_uint (bytes_at d (a + 1) 3) in
  match c with
  | c_opaque => true
  | c_boxes _ _ => false
  | c_ftyp => (8 <=? len) && ((len - 8) mod 4 =? 0)
  | c_mvhd => versioned version len 100
  | c_tkhd => versioned version len 84
  | c_mdhd => versioned version len 24
  | c_hdlr => 24 <=? len
  | c_vmhd => len =? 12
  | c_smhd => len =? 8
  | c_hmhd => len =? 20
  | c_nmhd => len =? 4
  | c_url =>
      if Z.odd flags then len =? 4
      else (4 <=? len) && cstring (bytes_at d (a + 4) (len - 4))
  | c_urn => (4 <=? len) && two_cstrings (bytes_at d (a + 4) (len - 4))
  | c_elst =>
      let count := be_uint (bytes_at d (a + 4) 4) in
      (8 <=? len) &&
      (((version =? 0) && (len =? 8 + 12 * count))
       || ((version =? 1) && (len =? 8 + 20 * count)))
  end.

(** [valid d k p e]: the bytes of [d] from offset [p] to offset [e] are a
    sequence of well-formed boxes of a range of kind [k].  Each box has a
    header, a declared size that covers at least the header and ends
    within the range, and a content that is consistent with that size:
    the layout of its type fills the payload exactly, or, for a
    container, the payload is in turn a valid sequence of boxes; the next
    box starts where this one ends.  (The entry count of [dref] is not
    compared with the number of its children: the predicate asks less than
    the format does there.) *)
Inductive valid (d : list byte) : range -> Z -> Z -> Prop :=
| valid_end k e : valid d k e e
| valid_leaf k p e size typ hdr :
    box_header d p = Some (size, typ, hdr) ->
    hdr <= size -> p + size <= e ->
    layout d (content_of k typ) (p + hdr) (size - hdr) = true ->
    valid d k (p + size) e ->
    valid d k p e
| valid_node k p e size typ hdr k' pre :
    box_header d p = Some (size, typ, hdr) ->
    content_of k typ = c_boxes k' pre ->
    hdr + pre <= size -> p + size <= e ->
    valid d k' (p + hdr + pre) (p + size) ->
    valid d k (p + size) e ->
    valid d k p e.

(** A valid file: well-formed top-level boxes from the first byte to the
    last. *)
Definition valid_file (d : list byte) : Prop :=
  valid d in_file 0 (Z.of_nat (length d)).

(** ** The scanner on a range *)

(** The [if]/[elif] chain with which the scanner walks a range of kind
    [k], and the method whose loop walks it. *)
Definition dispatch_of (k : range) (fuel : nat) : list byte -> Z -> M unit :=
  match k with
  | in_file => scan_dispatch fuel
  | in_moov => moov_dispatch fuel
  | in_trak => trak_dispatch fuel
  | in_mdia => mdia_dispatch fuel
  | in_minf => minf_dispatch fuel
  | in_dinf => dinf_dispatch fuel
  | in_dref => dref_dispatch fuel
  | in_stbl => stbl_dispatch
  | in_edts => edts_dispatch
  | in_udta => udta_dispatch
  end.

(** [dispatched d k typ len a]: with enough fuel, the call chosen for a
    box [typ] met in a range of kind [k], started on the payload of [len]
    bytes at offset [a], returns with the cursor at the end of the
    payload. *)
Definition dispatched (d : list byte) (k : range) (typ : list byte)
           (len a : Z) : Prop :=
  exists n0, forall fuel, (n0 <= fuel)%nat ->
    forall s, data s = d -> pos s = a -> 0 <= indent s ->
    exists s', dispatch_of k fuel typ len s = Ok tt s' /\ pos s' = a + len.

(** [walked d k p e]: with enough fuel, the loop of a container walks the
    range from [p] to [e] and leaves the cursor at [e]. *)
Definition walked (d : list byte) (k : range) (p e : Z) : Prop :=
  exists n0, forall turns fuel, (n0 <= turns)%nat -> (n0 <= fuel)%nat ->
    forall s, data s = d -> pos s = p -> 0 <= indent s ->
    exists s', walk turns e (dispatch_of k fuel) s = Ok tt s' /\ pos s' = e.

(** [scanned d p]: with enough fuel, the loop of [scan] started at offset
    [p] returns, and the total sizes it announces add up to the number of
    bytes from [p] to the end of the file. *)
Definition scanned (d : list byte) (p : Z) : Prop :=
  exists n0, forall turns fuel, (n0 <= turns)%nat -> (n0 <= fuel)%nat ->
    forall n l, exists n' s',
      while_ turns scan_cond (scan_iter fuel) n (mkState d true p 0 l) = Ok n' s'
      /\ indent s' = 0
      /\ sum (top_sizes (out s')) = sum (top_sizes l) + (Z.of_nat (length d) - p).

(** ** A sample movie *)

(** A box in the plain form: size, tag, payload. *)
Definition box (typ : string) (payload : list byte) : list byte :=
  be_bytes 4 (Z.of_nat (8 + length payload)) ++ tag typ ++ payload.

(** A small movie file: [ftyp]; [moov] with a movie header, one track
    (track header, edit list with one entry, media with its header, its
    handler and the media information down to three data references and
    a sample table) and user data; a box in the extended form; and [mdat]
    with size field 0. *)
Definition data_references : list byte :=
  box "dref"
    (be_bytes 4 0 ++ be_bytes 4 3
     ++ box "url " (be_bytes 4 1)
     ++ box "url " (be_bytes 4 0 ++ tag "f.mp4" ++ zeros 1)
     ++ box "urn " (be_bytes 4 0 ++ tag "a:b" ++ zeros 1 ++ tag "g.mp4" ++ zeros 1)).

Definition media_information : list byte :=
  box "minf"
    (box "vmhd" (be_bytes 4 1 ++ zeros 8)
     ++ box "dinf" data_references
     ++ box "stbl" (box "stsd" (zeros 8))).

Definition track : list byte :=
  box "trak"
    (box "tkhd" (zeros 84)
     ++ box "edts" (box "elst" (be_bytes 4 0 ++ be_bytes 4 1 ++ zeros 12))
     ++ box "mdia"
          (box "mdhd" mdhd_eng
           ++ box "hdlr" (be_bytes 4 0 ++ be_bytes 4 0 ++ tag "vide"
                          ++ zeros 12 ++ tag "Cam1")
           ++ media_information)).

Definition small_movie : list byte :=
  ftyp_isom
  ++ box "moov"
       (box "mvhd" mvhd_v1_times
        ++ track
        ++ box "udta" (box "name" (zeros 4)))
  ++ be_bytes 4 1 ++ tag "skip" ++ be_bytes 8 20 ++ zeros 4
  ++ be_bytes 4 0 ++ tag "mdat" ++ zeros 4.

(** * Properties *)

(** ** Reading within the file *)

Lemma bytes_at_length d p n :
  0 <= p -> 0 <= n -> p + n <= Z.of_nat (length d) ->
  length (bytes_at d p n) = Z.to_nat n.
Proof.
  intros Hp Hn Hb. unfold bytes_at.
  rewrite length_firstn, length_skipn. lia.
Qed.

Lemma file_read_ok s n :
  0 <= pos s -> 0 <= n -> pos s + n <= filesize s ->
  file_read n s = Ok (bytes_at (data s) (pos s) n) (set_pos s (pos s + n)).
Proof.
  intros Hp Hn Hb. unfold file_read, filesize in *.
  destruct (n <? 0) eqn:E; [lia|].
  fold (bytes_at (data s) (pos s) n).
  rewrite bytes_at_length by lia. rewrite Z2Nat.id by lia. reflexivity.
Qed.

Ltac sst :=
  unfold set_pos, set_indent, emit, filesize in *;
  cbn [data pos opened indent out] in *.

Lemma bind_Ok {A B} (m : M A) (f : A -> M B) s a s' r :
  m s = Ok a s' -> f a s' = r -> bind m f s = r.
Proof. intros H1 H2. unfold bind. rewrite H1. exact H2. Qed.

Lemma bind_Raise {A B} (m : M A) (f : A -> M B) s e s' :
  m s = Raise e s' -> bind m f s = Raise e s'.
Proof. intros H. unfold bind. rewrite H. reflexivity. Qed.

Lemma read_int_ok sg (w : nat) s :
  0 <= pos s -> pos s + Z.of_nat w <= filesize s ->
  (bs <- file_read (Z.of_nat w) ;; unpack_int sg w bs) s
  = Ok (if sg then to_signed w (be_uint (bytes_at (data s) (pos s) (Z.of_nat w)))
        else be_uint (bytes_at (data s) (pos s) (Z.of_nat w)))
       (set_pos s (pos s + Z.of_nat w)).
Proof.
  intros Hp Hb. eapply bind_Ok.
  - apply file_read_ok; lia.
  - unfold unpack_int. unfold filesize in Hb.
    rewrite bytes_at_length by lia. rewrite Nat2Z.id, Nat.eqb_refl. reflexivity.
Qed.

Lemma scan_uint32_ok s :
  0 <= pos s -> pos s + 4 <= filesize s ->
  scan_uint32 s = Ok (be_uint (bytes_at (data s) (pos s) 4)) (set_pos s (pos s + 4)).
Proof. intros. apply (read_int_ok false 4); simpl; lia. Qed.

Lemma scan_uint64_ok s :
  0 <= pos s -> pos s + 8 <= filesize s ->
  scan_uint64 s = Ok (be_uint (bytes_at (data s) (pos s) 8)) (set_pos s (pos s + 8)).
Proof. intros. apply (read_int_ok false 8); simpl; lia. Qed.

Lemma scan_uint16_ok s :
  0 <= pos s -> pos s + 2 <= filesize s ->
  scan_uint16 s = Ok (be_uint (bytes_at (data s) (pos s) 2)) (set_pos s (pos s + 2)).
Proof. intros. apply (read_int_ok false 2); simpl; lia. Qed.

Lemma scan_int16_ok s :
  0 <= pos s -> pos s + 2 <= filesize s ->
  scan_int16 s = Ok (to_signed 2 (be_uint (bytes_at (data s) (pos s) 2)))
                    (set_pos s (pos s + 2)).
Proof. intros. apply (read_int_ok true 2); simpl; lia. Qed.

Lemma scan_int32_ok s :
  0 <= pos s -> pos s + 4 <= filesize s ->
  scan_int32 s = Ok (to_signed 4 (be_uint (bytes_at (data s) (pos s) 4)))
                    (set_pos s (pos s + 4)).
Proof. intros. apply (read_int_ok true 4); simpl; lia. Qed.

Lemma scan_fourcc_ok s :
  0 <= pos s -> pos s + 4 <= filesize s ->
  scan_fourcc s = Ok (bytes_at (data s) (pos s) 4) (set_pos s (pos s + 4)).
Proof.
  intros Hp Hb. eapply bind_Ok.
  - apply file_read_ok; lia.
  - unfold unpack_4s. unfold filesize in Hb.
    rewrite bytes_at_length by lia. reflexivity.
Qed.

Lemma scan_matrix_ok s :
  0 <= pos s -> pos s + 36 <= filesize s ->
  scan_matrix s
  = Ok (map (fun c => to_signed 4 (be_uint c))
            (chunks 4 9 (bytes_at (data s) (pos s) 36)))
       (set_pos s (pos s + 36)).
Proof.
  intros Hp Hb. eapply bind_Ok.
  - apply file_read_ok; lia.
  - unfold unpack_ints. unfold filesize in Hb.
    rewrite bytes_at_length by lia. reflexivity.
Qed.

Lemma seek_cur_ok s off :
  - 2 ^ 63 <= off <= max_off -> 0 <= pos s + off <= max_off ->
  seek_cur off s = Ok tt (set_pos s (pos s + off)).
Proof.
  intros Ho Hp. unfold seek_cur.
  destruct (off <? - 2 ^ 63) eqn:E1; [lia|].
  destruct (max_off <? off) eqn:E2; [lia|].
  destruct (pos s + off <? 0) eqn:E3; [lia|].
  destruct (max_off <? pos s + off) eqn:E4; [lia|].
  reflexivity.
Qed.

(** ** The box header *)

(** C3: [scan_box] resolves the three size encodings.  With [size32] the
    big-endian 32-bit size field and [typ] the four bytes after it: if
    [size32 = 1] the total size is the following 64-bit value [S] and the
    payload length is [S - 16]; if [size32 = 0] the total size is
    [filesize - position_before_size_field] and the payload length is that
    minus 8; otherwise the total size is [size32] and the payload length
    is [size32 - 8]. *)
Theorem scan_box_sizes (s : state) :
  0 <= pos s -> pos s + 8 <= filesize s ->
  let size32 := be_uint (bytes_at (data s) (pos s) 4) in
  let typ := bytes_at (data s) (pos s + 4) 4 in
  let size64 := be_uint (bytes_at (data s) (pos s + 8) 8) in
  (size32 = 1 -> pos s + 16 <= filesize s ->
   scan_box s = Ok (size64, typ, size64 - 16) (set_pos s (pos s + 16))) /\
  (size32 = 0 ->
   scan_box s = Ok (filesize s - pos s, typ, (filesize s - pos s) - 8)
                   (set_pos s (pos s + 8))) /\
  (size32 <> 1 -> size32 <> 0 ->
   scan_box s = Ok (size32, typ, size32 - 8) (set_pos s (pos s + 8))).
Proof.
  intros Hp Hb size32 typ size64.
  assert (H1 : scan_uint32 s = Ok size32 (set_pos s (pos s + 4)))
    by (apply scan_uint32_ok; lia).
  assert (H2 : scan_fourcc (set_pos s (pos s + 4))
               = Ok typ (set_pos s (pos s + 8))).
  { rewrite scan_fourcc_ok by (sst; lia).
    sst. subst typ. do 2 f_equal. lia. }
  repeat split.
  - intros E Hb'. unfold scan_box.
    eapply bind_Ok; [exact H1|]. eapply bind_Ok; [exact H2|].
    rewrite E. cbn [Z.eqb Pos.eqb].
    eapply bind_Ok; [apply scan_uint64_ok; sst; lia|].
    unfold ret. sst. subst size64. do 2 f_equal. lia.
  - intros E. unfold scan_box.
    eapply bind_Ok; [exact H1|]. eapply bind_Ok; [exact H2|].
    rewrite E. cbn [Z.eqb].
    unfold bind, tell, get_filesize, ret. sst.
    do 2 f_equal; f_equal; lia.
  - intros N1 N0. unfold scan_box.
    eapply bind_Ok; [exact H1|]. eapply bind_Ok; [exact H2|].
    destruct (size32 =? 1) eqn:E1; [lia|].
    destruct (size32 =? 0) eqn:E0; [lia|].
    reflexivity.
Qed.

Lemma scan_box_sizes_witness :
  scan_box (open_file ftyp_isom)
  = Ok (20, tag "ftyp", 12) (set_pos (open_file ftyp_isom) 8).
Proof.
  apply (proj2 (proj2 (scan_box_sizes (open_file ftyp_isom)
                         ltac:(vm_compute; discriminate)
                         ltac:(vm_compute; discriminate))));
    vm_compute; discriminate.
Defined.

Lemma scan_int_not_EOF sg w s s' :
  (bs <- file_read (Z.of_nat w) ;; unpack_int sg w bs) s <> Raise EOFError s'.
Proof.
  unfold bind, file_read, unpack_int, raise, ret.
  match goal with |- context [Nat.eqb ?a ?b] => destruct (Nat.eqb a b) end;
    discriminate.
Qed.

Lemma scan_fourcc_not_EOF s s' : scan_fourcc s <> Raise EOFError s'.
Proof.
  unfold scan_fourcc, bind, file_read, unpack_4s, raise, ret.
  match goal with |- context [Nat.eqb ?a ?b] => destruct (Nat.eqb a b) end;
    discriminate.
Qed.

Lemma scan_box_not_EOF s s' : scan_box s <> Raise EOFError s'.
Proof.
  unfold scan_box, bind at 1.
  destruct (scan_uint32 s) as [sz s1| e s1|] eqn:E1; [| |discriminate].
  2:{ intros H; inversion H; subst.
      exact (scan_int_not_EOF false 4 s s' E1). }
  unfold bind at 1.
  destruct (scan_fourcc s1) as [ty s2| e s2|] eqn:E2; [| |discriminate].
  2:{ intros H; inversion H; subst. exact (scan_fourcc_not_EOF s1 s' E2). }
  destruct (sz =? 1).
  - unfold bind.
    destruct (scan_uint64 s2) as [sz' s3| e s3|] eqn:E3; try discriminate.
    intros H; inversion H; subst.
    exact (scan_int_not_EOF false 8 s2 s' E3).
  - destruct (sz =? 0); discriminate.
Qed.

(** ** Concrete scenarios *)

(** C8: on the 20-byte [ftyp] box with brand [isom], minor version 512 and
    the one compatible brand [mp41], the header resolves to payload length
    12, [scan_ftyp] prints exactly the major brand, the minor version and
    one compatible brand, its brand loop (entered at offset 16 with
    [remaining = 12 - 8]) ends with [remaining] equal to 0, and the cursor
    stands at 20, the end of the box.  [scan] on the file made of this box
    prints these lines after the [Box Found] line and counts one box. *)
Theorem ftyp_scenario (n : nat) :
  scan (S (S n)) (open_file ftyp_isom)
  = Ok tt (mkState ftyp_isom true 20 0
             [ILine 0 "Box Found: '%s' of length %u" [AStr (tag "ftyp"); AInt 20];
              ILine 1 "major brand: '%s'" [AStr (tag "isom")];
              ILine 1 "minor version: %u" [AInt 512];
              ILine 1 "compat brand: '%s'" [AStr (tag "mp41")];
              PLine EmptyString [];
              ILine 0 "%d boxes scanned" [AInt 1]]) /\
  scan_box (open_file ftyp_isom)
  = Ok (20, tag "ftyp", 12) (mkState ftyp_isom true 8 0 []) /\
  scan_ftyp (S (S n)) 12 (mkState ftyp_isom true 8 0 [])
  = Ok tt (mkState ftyp_isom true 20 0
             [ILine 1 "major brand: '%s'" [AStr (tag "isom")];
              ILine 1 "minor version: %u" [AInt 512];
              ILine 1 "compat brand: '%s'" [AStr (tag "mp41")]]) /\
  scan_ftyp_brands (S (S n)) (12 - 8)
    (mkState ftyp_isom true 16 1
       [ILine 1 "major brand: '%s'" [AStr (tag "isom")];
        ILine 1 "minor version: %u" [AInt 512]])
  = Ok 0 (mkState ftyp_isom true 20 1
            [ILine 1 "major brand: '%s'" [AStr (tag "isom")];
             ILine 1 "minor version: %u" [AInt 512];
             ILine 1 "compat brand: '%s'" [AStr (tag "mp41")]]).
Proof. repeat split; vm_compute; reflexivity. Qed.

(** C9, evaluated: for a balance field of 0x0100 (1.0 in 8.8 fixed point)
    [scan_smhd] prints the raw integer 256 and, as the ratio, 256/16 = 16;
    the quotient by 256 would be 1. *)
Theorem smhd_ratio_divides_by_16 :
  exists s',
    scan_smhd 8 (open_file smhd_unit_balance) = Ok tt s' /\
    out s' = [ILine 1 "version = %s" [AInt 0];
              ILine 1 "flags = 0x%x" [AInt 0];
              ILine 1 "balance = %d / %.3f"
                [AInt 256; AFloat (inject_Z 256 / inject_Z 16)%Q]] /\
    (inject_Z 256 / inject_Z 16 == inject_Z 16)%Q /\
    ~ (inject_Z 256 / inject_Z 16 == inject_Z 256 / inject_Z 256)%Q.
Proof.
  eexists. split; [vm_compute; reflexivity|]. split; [reflexivity|].
  split; [reflexivity|]. intros H. discriminate H.
Qed.

(** C5, evaluated: no exception of [scan_box] is an [EOFError], so the
    [except EOFError: break] of the walkers never fires.  In a [moov] box
    cut exactly at a header boundary, and at top level before three stray
    bytes, the short read raises [struct.error] out of [scan]. *)
Theorem end_of_stream_at_header_raises (n : nat) :
  (forall s s', catch_EOFError scan_box s <> Ok None s') /\
  (exists s', scan (S (S n)) (open_file moov_cut_at_header)
              = Raise struct_error s' /\ pos s' = 16 /\ filesize s' = 16) /\
  (exists s', scan (S (S n)) (open_file ftyp_then_3)
              = Raise struct_error s' /\ pos s' = 23 /\ filesize s' = 23).
Proof.
  assert (G : forall s s', catch_EOFError scan_box s <> Ok None s').
  { intros s s'. unfold catch_EOFError.
    destruct (scan_box s) as [a s1|e s1|] eqn:E; try discriminate.
    destruct e; try discriminate.
    exfalso. exact (scan_box_not_EOF s s1 E). }
  split; [exact G|].
  split; eexists; (split; [vm_compute; reflexivity|split; reflexivity]).
Qed.

(** ** What a successful header read tells *)

Lemma read_int_inv sg (w : nat) s v s' :
  (bs <- file_read (Z.of_nat w) ;; unpack_int sg w bs) s = Ok v s' ->
  s' = set_pos s (pos s + Z.of_nat w).
Proof.
  unfold bind, file_read, unpack_int, raise, ret.
  match goal with |- context [Nat.eqb ?a ?b] => destruct (Nat.eqb a b) eqn:E end;
    [|discriminate].
  apply Nat.eqb_eq in E. rewrite E. intros H; inversion H; reflexivity.
Qed.

Lemma scan_fourcc_inv s v s' :
  scan_fourcc s = Ok v s' -> s' = set_pos s (pos s + 4).
Proof.
  unfold scan_fourcc, bind, file_read, unpack_4s, raise, ret.
  match goal with |- context [Nat.eqb ?a ?b] => destruct (Nat.eqb a b) eqn:E end;
    [|discriminate].
  apply Nat.eqb_eq in E. rewrite E. intros H; inversion H; reflexivity.
Qed.

(** The header is 8 or 16 bytes long, and header plus payload length is
    the total size. *)
Lemma scan_box_inv s boxsize boxtype skip s1 :
  scan_box s = Ok (boxsize, boxtype, skip) s1 ->
  exists hdr, (hdr = 8 \/ hdr = 16) /\ s1 = set_pos s (pos s + hdr)
              /\ boxsize = hdr + skip.
Proof.
  unfold scan_box, bind at 1.
  destruct (scan_uint32 s) as [sz sa| |] eqn:E1; try discriminate.
  apply (read_int_inv false 4) in E1. subst sa.
  unfold bind at 1.
  destruct (scan_fourcc _) as [ty sb| |] eqn:E2; try discriminate.
  apply scan_fourcc_inv in E2. subst sb.
  destruct (sz =? 1).
  - unfold bind.
    destruct (scan_uint64 _) as [sz' sc| |] eqn:E3; try discriminate.
    apply (read_int_inv false 8) in E3. subst sc.
    unfold ret. intros H; inversion H; subst. exists 16. sst.
    repeat split; [now right| f_equal; lia | lia].
  - destruct (sz =? 0).
    + unfold bind, tell, get_filesize, ret. intros H; inversion H; subst.
      exists 8. sst. repeat split; [now left| f_equal; lia | lia].
    + unfold ret. intros H; inversion H; subst.
      exists 8. sst. repeat split; [now left| f_equal; lia | lia].
Qed.

Lemma seek_cur_inv off s s' :
  seek_cur off s = Ok tt s' -> s' = set_pos s (pos s + off).
Proof.
  unfold seek_cur.
  destruct ((off <? - 2 ^ 63) || (max_off <? off)); [discriminate|].
  destruct ((pos s + off <? 0) || (max_off <? pos s + off)); [discriminate|].
  intros H; inversion H; reflexivity.
Qed.

Lemma scan_dispatch_unregistered fuel boxtype skip :
  scan_registered boxtype = false ->
  scan_dispatch fuel boxtype skip = seek_cur skip.
Proof.
  unfold scan_registered, scan_dispatch. intros H.
  apply orb_false_elim in H as [-> ->]. reflexivity.
Qed.

Lemma moov_dispatch_unregistered fuel boxtype skip :
  moov_registered boxtype = false ->
  moov_dispatch fuel boxtype skip = seek_cur skip.
Proof.
  unfold moov_registered, moov_dispatch. intros H.
  apply orb_false_elim in H as [H ->].
  apply orb_false_elim in H as [-> ->]. reflexivity.
Qed.

(** ** The walkers *)

(** C1, as the code has it: a walker does not move the cursor after the
    dispatch.  After one turn of the loop of [scan], and of the loop of a
    container such as [scan_moov], the cursor is where the dispatched call
    left it; when the tag selects no decoder (the box is skipped) that is
    [box_start + header_size + L], which is [box_start + total_size]. *)
Theorem walker_cursor_after_dispatch fuel s boxsize boxtype skip s1 :
  scan_box s = Ok (boxsize, boxtype, skip) s1 ->
  let s2 := after_box_found s1 boxtype boxsize in
  (forall n r s', scan_iter fuel n s = Ok r s' ->
     (exists s3, scan_dispatch fuel boxtype skip s2 = Ok tt s3 /\ pos s' = pos s3) /\
     (scan_registered boxtype = false ->
      pos s' = pos s1 + skip /\ pos s' = pos s + boxsize)) /\
  (forall dispatch r s', walk_iter dispatch tt s = Ok r s' ->
     (exists s3, dispatch boxtype skip s2 = Ok tt s3 /\ pos s' = pos s3) /\
     (dispatch boxtype skip = seek_cur skip ->
      pos s' = pos s1 + skip /\ pos s' = pos s + boxsize)) /\
  (moov_registered boxtype = false ->
   moov_dispatch fuel boxtype skip = seek_cur skip).
Proof.
  intros Hbox s2.
  destruct (scan_box_inv _ _ _ _ _ Hbox) as (hdr & Hhdr & Hs1 & Hsz).
  split; [|split].
  - intros n r s'. unfold scan_iter, bind at 1, catch_EOFError.
    rewrite Hbox. unfold bind at 1, iprint.
    fold (after_box_found s1 boxtype boxsize). fold s2.
    unfold bind at 1.
    destruct (scan_dispatch fuel boxtype skip s2) as [[] s3| |] eqn:E;
      try discriminate.
    unfold bind, print, ret. intros H; inversion H; subst r s'. clear H.
    split; [exists s3; split; [reflexivity|reflexivity]|].
    intros Hu. rewrite scan_dispatch_unregistered in E by exact Hu.
    apply seek_cur_inv in E. subst s3 s2 s1. unfold after_box_found. sst. lia.
  - intros dispatch r s'. unfold walk_iter, bind at 1, catch_EOFError.
    rewrite Hbox. unfold bind at 1, iprint.
    fold (after_box_found s1 boxtype boxsize). fold s2.
    unfold bind at 1.
    destruct (dispatch boxtype skip s2) as [[] s3| |] eqn:E;
      try discriminate.
    unfold ret. intros H; inversion H; subst r s'. clear H.
    split; [exists s3; split; [reflexivity|reflexivity]|].
    intros Hu. rewrite Hu in E.
    apply seek_cur_inv in E. subst s3 s2 s1. unfold after_box_found. sst. lia.
  - apply moov_dispatch_unregistered.
Qed.

Lemma walker_cursor_after_dispatch_witness :
  let s := mkState moov_child_overflow true 8 1 [] in
  scan_box s = Ok (24, tag "free", 16) (set_pos s 16) /\
  exists s', walk_iter (moov_dispatch 3) tt s = Ok (Continue tt) s' /\
             pos s' = 16 + 16 /\ pos s' = 8 + 24.
Proof.
  intros s.
  assert (Hbox : scan_box s = Ok (24, tag "free", 16) (set_pos s 16))
    by reflexivity.
  split; [exact Hbox|].
  destruct (walk_iter (moov_dispatch 3) tt s) as [r s'| |] eqn:E;
    try discriminate E.
  exists s'. split; [vm_compute in E; inversion E; reflexivity|].
  exact (proj2 (proj1 (proj2 (walker_cursor_after_dispatch 3 s _ _ _ _ Hbox))
                  (moov_dispatch 3) r s' E)
           eq_refl).
Defined.

(** C1 fails as stated.  An [ftyp] box declaring 18 bytes is over-read:
    after the dispatch the cursor of [scan] is at 20, not at
    [0 + 8 + 10].  An [mvhd] box declaring a payload of 104 bytes is
    under-read: the cursor of [scan_moov] is at 116, not at [8 + 8 + 104]. *)
Lemma walker_does_not_resynchronize :
  (scan_box (open_file ftyp_declares_18)
   = Ok (18, tag "ftyp", 10) (mkState ftyp_declares_18 true 8 0 []) /\
   exists s', scan_iter 3 0 (open_file ftyp_declares_18) = Ok (Continue 1) s' /\
              pos s' = 20 /\ pos s' <> 0 + 8 + 10) /\
  (scan_box (mkState moov_long_mvhd true 8 1 [])
   = Ok (112, tag "mvhd", 104) (mkState moov_long_mvhd true 16 1 []) /\
   exists s', walk_iter (moov_dispatch 3) tt (mkState moov_long_mvhd true 8 1 [])
              = Ok (Continue tt) s' /\
              pos s' = 116 /\ pos s' <> 8 + 8 + 104).
Proof.
  split; (split; [reflexivity|]); eexists;
    (split; [vm_compute; reflexivity|]); split;
    [reflexivity|discriminate|reflexivity|discriminate].
Qed.




(** ** Straight-line decoders on a file that holds their fields *)

Lemma scan_fullbox_ok remaining s :
  0 <= pos s -> pos s + 4 <= filesize s ->
  scan_fullbox remaining s
  = Ok (version_at s,
        Z.land (be_uint (bytes_at (data s) (pos s) 4)) 16777215,
        remaining - 4)
       (set_pos s (pos s + 4)).
Proof.
  intros Hp Hb. unfold scan_fullbox.
  eapply bind_Ok; [apply scan_uint32_ok; lia|]. reflexivity.
Qed.

(** One step of a [bind] chain whose first call is known to succeed. *)
Ltac run_using lem :=
  eapply bind_Ok; [apply lem; sst; unfold max_off in *; lia|]; sst.

Ltac run_refl := eapply bind_Ok; [reflexivity|]; sst.

Lemma bind_assoc {A B C} (m : M A) (g : A -> M B) (f : B -> M C) s :
  bind (bind m g) f s = bind m (fun x => bind (g x) f) s.
Proof. unfold bind. destruct (m s); reflexivity. Qed.

Ltac run1 :=
  lazymatch goal with
  | |- bind ?m _ _ = _ =>
      lazymatch m with
      | bind _ _ => rewrite bind_assoc
      | ret _ => run_refl
      | ipush => run_refl
      | iprint _ _ => run_refl
      | tell => run_refl
      | scan_fullbox _ => run_using scan_fullbox_ok
      | scan_uint16 => run_using scan_uint16_ok
      | scan_int16 => run_using scan_int16_ok
      | scan_uint32 => run_using scan_uint32_ok
      | scan_int32 => run_using scan_int32_ok
      | scan_uint64 => run_using scan_uint64_ok
      | scan_fourcc => run_using scan_fourcc_ok
      | scan_matrix => run_using scan_matrix_ok
      | seek_cur _ => run_using seek_cur_ok
      | file_read _ => run_using file_read_ok
      end
  end.

Lemma scan_mvhd_consumes remaining s :
  0 <= pos s -> filesize s <= max_off ->
  pos s + 100 + (if version_at s =? 1 then 3 * 4 else 0) <= filesize s ->
  exists s', scan_mvhd remaining s = Ok tt s' /\
             pos s' = pos s + 100 + (if version_at s =? 1 then 3 * 4 else 0).
Proof.
  intros Hp Hm Hb. unfold scan_mvhd. destruct s as [d o p i l].
  unfold version_at in *. sst. set (v := Z.land _ 255) in *.
  destruct (v =? 1) eqn:E.
  - eexists. split.
    + run1. run1. unfold version_at. sst. fold v. rewrite E. run1.
      repeat run1. reflexivity.
    + sst. lia.
  - eexists. split.
    + run1. run1. unfold version_at. sst. fold v. rewrite E. run1.
      repeat run1. reflexivity.
    + sst. lia.
Qed.

Lemma scan_mdhd_consumes remaining s :
  0 <= pos s -> filesize s <= max_off ->
  pos s + 24 + (if version_at s =? 1 then 3 * 4 else 0) <= filesize s ->
  exists s', scan_mdhd remaining s = Ok tt s' /\
             pos s' = pos s + 24 + (if version_at s =? 1 then 3 * 4 else 0).
Proof.
  intros Hp Hm Hb. unfold scan_mdhd. destruct s as [d o p i l].
  unfold version_at in *. sst. set (v := Z.land _ 255) in *.
  destruct (v =? 1) eqn:E.
  - eexists. split.
    + run1. run1. unfold version_at. sst. fold v. rewrite E. run1.
      repeat run1. reflexivity.
    + sst. lia.
  - eexists. split.
    + run1. run1. unfold version_at. sst. fold v. rewrite E. run1.
      repeat run1. reflexivity.
    + sst. lia.
Qed.

Lemma scan_tkhd_consumes remaining s :
  0 <= pos s -> filesize s <= max_off ->
  pos s + 84 + (if version_at s =? 1 then 3 * 4 else 0) <= filesize s ->
  exists s', scan_tkhd remaining s = Ok tt s' /\
             pos s' = pos s + 84 + (if version_at s =? 1 then 3 * 4 else 0).
Proof.
  intros Hp Hm Hb. unfold scan_tkhd. destruct s as [d o p i l].
  unfold version_at in *. sst. set (v := Z.land _ 255) in *.
  destruct (v =? 1) eqn:E.
  - eexists. split.
    + run1. run1. unfold version_at. sst. fold v. rewrite E. run1.
      repeat run1. reflexivity.
    + sst. lia.
  - eexists. split.
    + run1. run1. unfold version_at. sst. fold v. rewrite E. run1.
      repeat run1. reflexivity.
    + sst. lia.
Qed.

Ltac run_versioned v E :=
  run1; run1; unfold version_at; sst; fold v; rewrite E; run1;
  repeat run1; reflexivity.

Lemma scan_mvhd_fields remaining s :
  0 <= pos s -> filesize s <= max_off ->
  let w := if version_at s =? 1 then 8 else 4 in
  pos s + 100 + 3 * (w - 4) <= filesize s ->
  exists s' rest,
    scan_mvhd remaining s = Ok tt s' /\
    pos s' = pos s + 100 + 3 * (w - 4) /\
    out s' = out s ++ prefix_lines (data s) (indent s + 1) (pos s)
                   ++ time_lines (data s) (indent s + 1) (pos s + 4) w 0
                        "timescale = %u"
                   ++ rest.
Proof.
  intros Hp Hm w Hb. unfold scan_mvhd. destruct s as [d o p i l].
  unfold version_at in *. sst. set (v := Z.land _ 255) in *.
  unfold prefix_lines, time_lines. fold v.
  destruct (v =? 1) eqn:E; subst w;
    (eexists; eexists; split; [run_versioned v E|];
     split; [sst; lia|];
     sst; rewrite <- !app_assoc; cbn [app]; rewrite ?Z.add_0_r; reflexivity).
Qed.

Lemma scan_mdhd_fields remaining s :
  0 <= pos s -> filesize s <= max_off ->
  let w := if version_at s =? 1 then 8 else 4 in
  pos s + 24 + 3 * (w - 4) <= filesize s ->
  exists s' rest,
    scan_mdhd remaining s = Ok tt s' /\
    pos s' = pos s + 24 + 3 * (w - 4) /\
    out s' = out s ++ prefix_lines (data s) (indent s + 1) (pos s)
                   ++ time_lines (data s) (indent s + 1) (pos s + 4) w 0
                        "timescale = %u"
                   ++ rest.
Proof.
  intros Hp Hm w Hb. unfold scan_mdhd. destruct s as [d o p i l].
  unfold version_at in *. sst. set (v := Z.land _ 255) in *.
  unfold prefix_lines, time_lines. fold v.
  destruct (v =? 1) eqn:E; subst w;
    (eexists; eexists; split; [run_versioned v E|];
     split; [sst; lia|];
     sst; rewrite <- !app_assoc; cbn [app]; rewrite ?Z.add_0_r; reflexivity).
Qed.

Lemma scan_tkhd_fields remaining s :
  0 <= pos s -> filesize s <= max_off ->
  let w := if version_at s =? 1 then 8 else 4 in
  pos s + 84 + 3 * (w - 4) <= filesize s ->
  exists s' rest,
    scan_tkhd remaining s = Ok tt s' /\
    pos s' = pos s + 84 + 3 * (w - 4) /\
    out s' = out s ++ prefix_lines (data s) (indent s + 1) (pos s)
                   ++ time_lines (data s) (indent s + 1) (pos s + 4) w 4
                        "trackID = %u"
                   ++ rest.
Proof.
  intros Hp Hm w Hb. unfold scan_tkhd. destruct s as [d o p i l].
  unfold version_at in *. sst. set (v := Z.land _ 255) in *.
  unfold prefix_lines, time_lines. fold v.
  destruct (v =? 1) eqn:E; subst w;
    (eexists; eexists; split; [run_versioned v E|];
     split; [sst; lia|];
     sst; rewrite <- !app_assoc; cbn [app]; reflexivity).
Qed.

(** C4, as the code has it: in [mvhd], [mdhd] and [tkhd] the creation
    time, the modification time and the duration are read as 8 bytes each
    under version 1 and as 4 bytes each otherwise, while the field between
    them ([timescale], or [trackID] with the 4 reserved bytes behind it)
    is read as 4 bytes under either version.  With [w] the width of the
    three fields, the values printed are those of the bytes at offsets
    [4], [4 + w], [4 + 2w] (4 bytes wide) and [4 + 2w + 4] (for [tkhd]
    [4 + 2w + 8]) of the payload, and the whole decoder moves the cursor
    by 100 ([mvhd]), 24 ([mdhd]) or 84 ([tkhd]) bytes plus [3 * (w - 4)]:
    a version-1 box takes 4 bytes more for each of the three fields, 12
    in all. *)
Theorem version1_widens_three_fields_by_4 (remaining : Z) (s : state) :
  0 <= pos s -> filesize s <= max_off ->
  let w := if version_at s =? 1 then 8 else 4 in
  let extra := 3 * (w - 4) in
  let fields third gap s' :=
    exists rest,
      out s' = out s ++ prefix_lines (data s) (indent s + 1) (pos s)
                     ++ time_lines (data s) (indent s + 1) (pos s + 4) w gap third
                     ++ rest in
  (pos s + 100 + extra <= filesize s ->
   consumed (scan_mvhd remaining) s = Some (100 + extra) /\
   exists s', scan_mvhd remaining s = Ok tt s' /\ fields "timescale = %u"%string 0 s') /\
  (pos s + 24 + extra <= filesize s ->
   consumed (scan_mdhd remaining) s = Some (24 + extra) /\
   exists s', scan_mdhd remaining s = Ok tt s' /\ fields "timescale = %u"%string 0 s') /\
  (pos s + 84 + extra <= filesize s ->
   consumed (scan_tkhd remaining) s = Some (84 + extra) /\
   exists s', scan_tkhd remaining s = Ok tt s' /\ fields "trackID = %u"%string 4 s').
Proof.
  intros Hp Hm w extra fields. unfold consumed.
  repeat match goal with |- _ /\ _ => split end; intros Hb.
  - destruct (scan_mvhd_fields remaining s Hp Hm Hb) as (s' & rest & E & Hs' & Ho).
    rewrite E. split; [f_equal; subst extra; fold w; lia|].
    exists s'. split; [reflexivity|]. exists rest. exact Ho.
  - destruct (scan_mdhd_fields remaining s Hp Hm Hb) as (s' & rest & E & Hs' & Ho).
    rewrite E. split; [f_equal; subst extra; fold w; lia|].
    exists s'. split; [reflexivity|]. exists rest. exact Ho.
  - destruct (scan_tkhd_fields remaining s Hp Hm Hb) as (s' & rest & E & Hs' & Ho).
    rewrite E. split; [f_equal; subst extra; fold w; lia|].
    exists s'. split; [reflexivity|]. exists rest. exact Ho.
Qed.

Lemma version1_widens_three_fields_by_4_witness :
  version_at (open_file mvhd_v1_times) = 1 /\
  consumed (scan_mvhd 112) (open_file mvhd_v1_times) = Some (100 + 3 * (8 - 4)) /\
  exists s' rest,
    scan_mvhd 112 (open_file mvhd_v1_times) = Ok tt s' /\
    out s' = [ILine 1 "version = %s" [AInt 1];
              ILine 1 "flags = 0x%x" [AInt 0];
              ILine 1 "creation = %u" [AInt 1];
              ILine 1 "modification = %u" [AInt 2];
              ILine 1 "timescale = %u" [AInt 3];
              ILine 1 "duration = %u" [AInt 4]] ++ rest.
Proof.
  split; [reflexivity|].
  destruct (proj1 (version1_widens_three_fields_by_4 112 (open_file mvhd_v1_times)
                     ltac:(vm_compute; discriminate)
                     ltac:(vm_compute; discriminate))
              ltac:(vm_compute; discriminate))
    as (Hc & s' & Hs' & rest & Ho).
  split; [exact Hc|]. exists s', rest. split; [exact Hs'|].
  rewrite Ho. reflexivity.
Defined.

(** C4 fails as stated.  A version-0 [mvhd] moves the cursor by 100 bytes
    and a version-1 [mvhd] by 112: the difference is 12, not 8 for each of
    the three widened fields. *)
Lemma version1_is_not_24_longer :
  consumed (scan_mvhd 100) (open_file mvhd_v0) = Some 100 /\
  consumed (scan_mvhd 112) (open_file mvhd_v1) = Some 112 /\
  ~ (exists c0 c1,
        consumed (scan_mvhd 100) (open_file mvhd_v0) = Some c0 /\
        consumed (scan_mvhd 112) (open_file mvhd_v1) = Some c1 /\
        c1 = c0 + 3 * 8).
Proof.
  assert (H0 : consumed (scan_mvhd 100) (open_file mvhd_v0) = Some 100)
    by (vm_compute; reflexivity).
  assert (H1 : consumed (scan_mvhd 112) (open_file mvhd_v1) = Some 112)
    by (vm_compute; reflexivity).
  split; [exact H0|]. split; [exact H1|].
  intros (c0 & c1 & E0 & E1 & E).
  assert (c0 = 100) by congruence.
  assert (c1 = 112) by congruence. lia.
Qed.

Lemma scan_hdlr_reads_to_endpos (remaining : Z) (s : state) :
  0 <= pos s -> filesize s <= max_off ->
  24 <= remaining -> pos s + remaining <= filesize s ->
  exists s',
    scan_hdlr remaining s = Ok tt s' /\
    pos s' = pos s + remaining /\
    out s' = out s ++
      [ILine (indent s + 1) "version = %s" [AInt (version_at s)];
       ILine (indent s + 1) "flags = 0x%x"
         [AInt (Z.land (be_uint (bytes_at (data s) (pos s) 4)) 16777215)];
       ILine (indent s + 1) "handlerType = '%s'"
         [AStr (bytes_at (data s) (pos s + 8) 4)];
       ILine (indent s + 1) "name = '%s'"
         [AStr (bytes_at (data s) (pos s + 24) (remaining - 24))]].
Proof.
  intros Hp Hm Hr Hb. unfold scan_hdlr. destruct s as [d o p i l].
  unfold version_at in *. sst.
  eexists. split; [|split].
  - do 3 run1. unfold version_at. sst. repeat run1. reflexivity.
  - sst. lia.
  - sst. rewrite <- !app_assoc. cbn [app].
    replace (p + 4 + 4) with (p + 8) by lia.
    replace (p + 8 + 4 + 4 * 3) with (p + 24) by lia.
    replace (p + remaining - (p + 24)) with (remaining - 24) by lia.
    reflexivity.
Qed.




(** ** Calls that only move the cursor *)

Lemma quiet_ret {A} (a : A) : quiet (ret a).
Proof. intros s. cbn. auto. Qed.

Lemma quiet_raise {A} e : quiet (@raise A e).
Proof. intros s. cbn. auto. Qed.

Lemma quiet_bind {A B} (m : M A) (f : A -> M B) :
  quiet m -> (forall a, quiet (f a)) -> quiet (bind m f).
Proof.
  intros Hm Hf s. unfold bind. specialize (Hm s).
  destruct (m s) as [a s1|e s1|]; auto.
  specialize (Hf a s1). destruct Hm as (D & O & I & U).
  destruct (f a s1) as [b s2|e s2|]; auto;
    destruct Hf as (D' & O' & I' & U'); repeat split; congruence.
Qed.

Lemma quiet_catch {A} (m : M A) : quiet m -> quiet (catch_EOFError m).
Proof.
  intros Hm s. unfold catch_EOFError. specialize (Hm s).
  destruct (m s) as [a s1|e s1|]; auto. destruct e; auto.
Qed.

Lemma quiet_while {A} fuel (cond : A -> M bool) (body : A -> M (ctl A)) a :
  (forall a, quiet (cond a)) -> (forall a, quiet (body a)) ->
  quiet (while_ fuel cond body a).
Proof.
  intros Hc Hb. revert a. induction fuel as [|n IH]; intros a.
  - intros s. exact I.
  - cbn [while_]. apply quiet_bind; [apply Hc|]. intros [|].
    + apply quiet_bind; [apply Hb|]. intros [a'|a']; [apply IH|apply quiet_ret].
    + apply quiet_ret.
Qed.

Lemma quiet_tell : quiet tell.
Proof. intros s. cbn. auto. Qed.

Lemma quiet_get_filesize : quiet get_filesize.
Proof. intros s. cbn. auto. Qed.

Lemma quiet_is_open : quiet is_open.
Proof. intros s. cbn. auto. Qed.

Lemma quiet_file_read n : quiet (file_read n).
Proof. intros s. cbn. auto. Qed.

Lemma quiet_seek_cur off : quiet (seek_cur off).
Proof.
  intros s. unfold seek_cur.
  destruct (_ || _); [cbn; auto|]. destruct (_ || _); cbn; auto.
Qed.

Lemma quiet_seek_set p : quiet (seek_set p).
Proof.
  intros s. unfold seek_set.
  destruct (_ || _); [cbn; auto|]. destruct (p <? 0); cbn; auto.
Qed.

Lemma quiet_unpack_int sg w bs : quiet (unpack_int sg w bs).
Proof. intros s. unfold unpack_int. destruct (Nat.eqb _ _); cbn; auto. Qed.

Lemma quiet_unpack_ints sg w c bs : quiet (unpack_ints sg w c bs).
Proof. intros s. unfold unpack_ints. destruct (Nat.eqb _ _); cbn; auto. Qed.

Lemma quiet_unpack_4s bs : quiet (unpack_4s bs).
Proof. intros s. unfold unpack_4s. destruct (Nat.eqb _ _); cbn; auto. Qed.

Create HintDb quiet.
#[local] Hint Resolve quiet_ret quiet_raise quiet_tell quiet_get_filesize
  quiet_is_open quiet_file_read quiet_seek_cur quiet_seek_set
  quiet_unpack_int quiet_unpack_ints quiet_unpack_4s : quiet.

Ltac head_of t :=
  lazymatch t with
  | ?f _ => head_of f
  | _ => t
  end.

(** Decompose a [quiet] goal along the structure of the program. *)
Ltac qt :=
  lazymatch goal with
  | |- quiet (bind _ _) => apply quiet_bind; [qt | intros; qt]
  | |- quiet (match ?x with _ => _ end) => destruct x; qt
  | |- quiet (while_ _ _ _ _) => apply quiet_while; intros; qt
  | |- quiet (catch_EOFError _) => apply quiet_catch; qt
  | |- quiet ?m =>
      first [ solve [auto with quiet]
            | let h := head_of m in unfold h; qt ]
  end.

Lemma quiet_scan_uint16 : quiet scan_uint16. Proof. qt. Qed.
Lemma quiet_scan_int16 : quiet scan_int16. Proof. qt. Qed.
Lemma quiet_scan_uint16_3 : quiet scan_uint16_3. Proof. qt. Qed.
Lemma quiet_scan_uint32 : quiet scan_uint32. Proof. qt. Qed.
Lemma quiet_scan_int32 : quiet scan_int32. Proof. qt. Qed.
Lemma quiet_scan_uint64 : quiet scan_uint64. Proof. qt. Qed.
Lemma quiet_scan_int64 : quiet scan_int64. Proof. qt. Qed.
Lemma quiet_scan_fourcc : quiet scan_fourcc. Proof. qt. Qed.
Lemma quiet_scan_matrix : quiet scan_matrix. Proof. qt. Qed.
Lemma quiet_read1 : quiet read1. Proof. qt. Qed.

#[local] Hint Resolve quiet_scan_uint16 quiet_scan_int16 quiet_scan_uint16_3
  quiet_scan_uint32 quiet_scan_int32 quiet_scan_uint64 quiet_scan_int64
  quiet_scan_fourcc quiet_scan_matrix quiet_read1 : quiet.

Lemma quiet_scan_string fuel : quiet (scan_string fuel). Proof. qt. Qed.
Lemma quiet_scan_string_len : quiet scan_string_len. Proof. qt. Qed.
Lemma quiet_scan_box : quiet scan_box. Proof. qt. Qed.
Lemma quiet_scan_fullbox r : quiet (scan_fullbox r). Proof. qt. Qed.

#[local] Hint Resolve quiet_scan_string quiet_scan_string_len quiet_scan_box
  quiet_scan_fullbox : quiet.

(** ** Indentation levels *)

Lemma levels_intro {A} b i j (m : M A) :
  (0 <= i -> levels b i j m) -> levels b i j m.
Proof. intros H Hi. exact (H Hi Hi). Qed.

Lemma levels_quiet {A} b i j (m : M A) :
  quiet m -> j = i -> levels b i j m.
Proof.
  intros Hq -> Hi s Hs. specialize (Hq s).
  destruct (m s) as [a s1|e s1|]; auto.
  - destruct Hq as (D & O & I & U). repeat split; try congruence.
    exists []. rewrite app_nil_r. auto.
  - destruct Hq as (D & O & I & U). lia.
Qed.

Lemma levels_ret {A} b i j (a : A) : j = i -> levels b i j (ret a).
Proof. intros. apply levels_quiet; auto with quiet. Qed.

Lemma levels_raise {A} b i j e : levels b i j (@raise A e).
Proof. intros Hi s Hs. cbn. lia. Qed.

Lemma levels_bind {A B} b i j k (m : M A) (f : A -> M B) :
  levels b i j m -> (forall a, levels b j k (f a)) -> levels b i k (bind m f).
Proof.
  intros Hm Hf Hi s Hs. unfold bind. specialize (Hm Hi s Hs).
  destruct (m s) as [a s1|e s1|]; auto.
  destruct Hm as (Hj & Hj0 & D & O & l1 & U & F).
  specialize (Hf a Hj0 s1 Hj).
  destruct (f a s1) as [c s2|e s2|]; auto.
  destruct Hf as (Hk & Hk0 & D' & O' & l2 & U' & F').
  repeat split; try congruence.
  exists (l1 ++ l2). split.
  - rewrite U', U, app_assoc. reflexivity.
  - apply Forall_app. auto.
Qed.

Lemma levels_weaken {A} b b' i j (m : M A) :
  levels b i j m -> b' <= b -> levels b' i j m.
Proof.
  intros Hm Hb Hi s Hs. specialize (Hm Hi s Hs).
  destruct (m s) as [a s1|e s1|]; auto.
  destruct Hm as (Hj & Hj0 & D & O & l & U & F).
  repeat split; auto. exists l. split; [exact U|].
  eapply Forall_impl; [|exact F]. intros [lvl f a'|f a']; cbn; [lia|auto].
Qed.

Lemma levels_call {A} b b0 i j (m : M A) :
  levels b0 i i m -> b <= b0 -> j = i -> levels b i j m.
Proof. intros H Hb ->. eapply levels_weaken; eauto. Qed.

Lemma levels_ipush b i j : j = i + 1 -> levels b i j ipush.
Proof.
  intros -> Hi s Hs. cbn. repeat split; try lia.
  exists []. rewrite app_nil_r. auto.
Qed.

Lemma levels_ipop b i j : 0 < i -> j = i - 1 -> levels b i j ipop.
Proof.
  intros Hpos -> Hi s Hs. cbn. rewrite Hs.
  destruct (0 <? i) eqn:E; [|lia]. repeat split; try lia.
  exists []. rewrite app_nil_r. auto.
Qed.

Lemma levels_iprint b i j fmt args :
  b <= i -> j = i -> levels b i j (iprint fmt args).
Proof.
  intros Hb -> Hi s Hs. cbn. repeat split; try lia.
  eexists. split; [reflexivity|]. repeat constructor. cbn. lia.
Qed.

Lemma levels_print b i j fmt args : j = i -> levels b i j (print fmt args).
Proof.
  intros -> Hi s Hs. cbn. repeat split; try lia.
  eexists. split; [reflexivity|]. repeat constructor.
Qed.

Lemma levels_while {A} b i j fuel (cond : A -> M bool) (body : A -> M (ctl A)) a :
  j = i ->
  (forall a, levels b i i (cond a)) -> (forall a, levels b i i (body a)) ->
  levels b i j (while_ fuel cond body a).
Proof.
  intros -> Hc Hb. revert a. induction fuel as [|n IH]; intros a.
  - intros Hi s Hs. exact I.
  - cbn [while_]. eapply levels_bind; [apply Hc|]. intros [|].
    + eapply levels_bind; [apply Hb|].
      intros [a'|a']; [apply IH|apply levels_ret; reflexivity].
    + apply levels_ret; reflexivity.
Qed.

Lemma levels_for_range b i j n i0 (body : Z -> M unit) :
  j = i -> (forall k, levels b i i (body k)) ->
  levels b i j (for_range n i0 body).
Proof.
  intros -> Hb. revert i0. induction n as [|n IH]; intros i0; cbn [for_range].
  - apply levels_ret; reflexivity.
  - eapply levels_bind; [apply Hb|]. intros _. apply IH.
Qed.

Create HintDb lvdb.

Ltac eq_or_lia := first [reflexivity | lia].

(** Decompose a [levels] goal along the structure of the program. *)
Ltac lv :=
  lazymatch goal with
  | |- levels _ _ _ (bind _ _) => eapply levels_bind; [lv | intros; lv]
  | |- levels _ _ _ ipush => apply levels_ipush; eq_or_lia
  | |- levels _ _ _ ipop => apply levels_ipop; [lia | eq_or_lia]
  | |- levels _ _ _ (iprint _ _) => apply levels_iprint; [lia | eq_or_lia]
  | |- levels _ _ _ (print _ _) => apply levels_print; eq_or_lia
  | |- levels _ _ _ (raise _) => apply levels_raise
  | |- levels _ _ _ (while_ _ _ _ _) =>
      apply levels_while; [eq_or_lia | intros; lv | intros; lv]
  | |- levels _ _ _ (for_range _ _ _) =>
      apply levels_for_range; [eq_or_lia | intros; lv]
  | |- levels _ _ _ (match ?x with _ => _ end) => destruct x; lv
  | |- levels _ _ _ ?m =>
      first [ apply levels_quiet; [solve [qt] | eq_or_lia]
            | eapply levels_call; [solve [eauto with lvdb] | lia | eq_or_lia]
            | let h := head_of m in unfold h; lv ]
  end.

Lemma scan_udta_levels fuel r i : levels (i + 1) i i (scan_udta fuel r).
Proof. apply levels_intro; intros Hi. unfold scan_udta. lv. Qed.

Lemma scan_stbl_levels fuel r i : levels (i + 1) i i (scan_stbl fuel r).
Proof. apply levels_intro; intros Hi. unfold scan_stbl. lv. Qed.

Lemma scan_elst_levels r i : levels (i + 1) i i (scan_elst r).
Proof. apply levels_intro; intros Hi. unfold scan_elst. lv. Qed.

#[local] Hint Resolve scan_udta_levels scan_stbl_levels scan_elst_levels : lvdb.

Lemma scan_edts_levels fuel r i : levels (i + 1) i i (scan_edts fuel r).
Proof. apply levels_intro; intros Hi. unfold scan_edts. lv. Qed.

Lemma scan_url__levels fuel r i : levels (i + 1) i i (scan_url_ fuel r).
Proof. apply levels_intro; intros Hi. unfold scan_url_. lv. Qed.

Lemma scan_urn__levels fuel r i : levels (i + 1) i i (scan_urn_ fuel r).
Proof. apply levels_intro; intros Hi. unfold scan_urn_. lv. Qed.

#[local] Hint Resolve scan_edts_levels scan_url__levels scan_urn__levels : lvdb.

Lemma scan_dref_levels fuel r i : levels (i + 1) i i (scan_dref fuel r).
Proof. apply levels_intro; intros Hi. unfold scan_dref. lv. Qed.

#[local] Hint Resolve scan_dref_levels : lvdb.

Lemma scan_dinf_levels fuel r i : levels (i + 1) i i (scan_dinf fuel r).
Proof. apply levels_intro; intros Hi. unfold scan_dinf. lv. Qed.

Lemma scan_nmhd_levels r i : levels (i + 1) i i (scan_nmhd r).
Proof. apply levels_intro; intros Hi. unfold scan_nmhd. lv. Qed.

Lemma scan_hmhd_levels r i : levels (i + 1) i i (scan_hmhd r).
Proof. apply levels_intro; intros Hi. unfold scan_hmhd. lv. Qed.

Lemma scan_smhd_levels r i : levels (i + 1) i i (scan_smhd r).
Proof. apply levels_intro; intros Hi. unfold scan_smhd. lv. Qed.

Lemma scan_vmhd_levels r i : levels (i + 1) i i (scan_vmhd r).
Proof. apply levels_intro; intros Hi. unfold scan_vmhd. lv. Qed.

#[local] Hint Resolve scan_dinf_levels scan_nmhd_levels scan_hmhd_levels
  scan_smhd_levels scan_vmhd_levels : lvdb.

Lemma scan_minf_levels fuel r i : levels (i + 1) i i (scan_minf fuel r).
Proof. apply levels_intro; intros Hi. unfold scan_minf. lv. Qed.

Lemma scan_hdlr_levels r i : levels (i + 1) i i (scan_hdlr r).
Proof. apply levels_intro; intros Hi. unfold scan_hdlr. lv. Qed.

Lemma scan_mdhd_levels r i : levels (i + 1) i i (scan_mdhd r).
Proof. apply levels_intro; intros Hi. unfold scan_mdhd. lv. Qed.

#[local] Hint Resolve scan_minf_levels scan_hdlr_levels scan_mdhd_levels : lvdb.

Lemma scan_mdia_levels fuel r i : levels (i + 1) i i (scan_mdia fuel r).
Proof. apply levels_intro; intros Hi. unfold scan_mdia. lv. Qed.

Lemma scan_tkhd_levels r i : levels (i + 1) i i (scan_tkhd r).
Proof. apply levels_intro; intros Hi. unfold scan_tkhd. lv. Qed.

#[local] Hint Resolve scan_mdia_levels scan_tkhd_levels : lvdb.

Lemma scan_trak_levels fuel r i : levels (i + 1) i i (scan_trak fuel r).
Proof. apply levels_intro; intros Hi. unfold scan_trak. lv. Qed.

Lemma scan_mvhd_levels r i : levels (i + 1) i i (scan_mvhd r).
Proof. apply levels_intro; intros Hi. unfold scan_mvhd. lv. Qed.

#[local] Hint Resolve scan_trak_levels scan_mvhd_levels : lvdb.

Lemma scan_moov_levels fuel r i : levels (i + 1) i i (scan_moov fuel r).
Proof. apply levels_intro; intros Hi. unfold scan_moov. lv. Qed.

Lemma scan_ftyp_levels fuel r i : levels (i + 1) i i (scan_ftyp fuel r).
Proof. apply levels_intro; intros Hi. unfold scan_ftyp. lv. Qed.

#[local] Hint Resolve scan_moov_levels scan_ftyp_levels : lvdb.

Lemma scan_dispatch_levels fuel boxtype skip i :
  levels (i + 1) i i (scan_dispatch fuel boxtype skip).
Proof. apply levels_intro; intros Hi. unfold scan_dispatch. lv. Qed.

Lemma scan_levels fuel i : levels i i i (scan fuel).
Proof. apply levels_intro; intros Hi. unfold scan. lv. Qed.

Lemma void_levels {A} b i j (m : M A) : levels b i j m -> levels b i j (void m).
Proof.
  intros H. unfold void. eapply levels_bind; [exact H|].
  intros _. apply levels_ret. reflexivity.
Qed.

(** C10: [indent] is never negative, and every [scan_*] method that
    returns leaves [indent] as it found it.  From a state with
    [indent >= 0] (it starts at 0), [ipush] and [ipop], the only writers of
    [indent], leave it at 0 or above; a call of any [scan_*] method returns
    with [indent] at its value on entry, and if it raises instead,
    [indent] is still not negative. *)
Theorem indent_discipline (f : method) (fuel : nat) (remaining : Z) (s : state) :
  0 <= indent s ->
  (exists s1, ipush s = Ok tt s1 /\ 0 <= indent s1) /\
  (exists s1, ipop s = Ok tt s1 /\ 0 <= indent s1) /\
  match call f fuel remaining s with
  | Ok _ s' => indent s' = indent s
  | Raise _ s' => 0 <= indent s'
  | Diverge => True
  end.
Proof.
  intros Hs. split; [|split].
  - eexists. split; [reflexivity|]. cbn. lia.
  - eexists. split; [reflexivity|]. cbn. destruct (0 <? indent s) eqn:E; lia.
  - assert (H : exists b, levels b (indent s) (indent s) (call f fuel remaining)).
    { destruct f; cbn [call];
        try (exists (indent s); apply void_levels;
             apply levels_quiet; [solve [qt]|reflexivity]);
        try (exists (indent s + 1); solve [eauto with lvdb]).
      exists (indent s). apply scan_levels. }
    destruct H as [b H]. specialize (H Hs s eq_refl).
    destruct (call f fuel remaining s) as [a s'|e s'|]; auto.
    destruct H as (H & _). exact H.
Qed.

Lemma indent_discipline_witness :
  0 <= 0 /\
  exists s', scan_moov 3 8 (mkState moov_child_overflow true 8 0 []) = Ok tt s'
             /\ indent s' = 0.
Proof.
  split; [lia|].
  pose proof (indent_discipline m_scan_moov 3 8
                (mkState moov_child_overflow true 8 0 [])
                ltac:(vm_compute; discriminate)) as (_ & _ & H).
  cbn [call] in H.
  destruct (scan_moov 3 8 (mkState moov_child_overflow true 8 0 []))
    as [[] s'|e s'|] eqn:E; [|vm_compute in E; discriminate..].
  exists s'. split; [reflexivity|exact H].
Defined.

(** ** More fuel changes nothing once a call has returned *)

Lemma res_le_refl {A} (r : res A) : res_le r r.
Proof. right. reflexivity. Qed.

Lemma res_le_Ok {A} (r' : res A) a s : res_le (Ok a s) r' -> r' = Ok a s.
Proof. intros [H|H]; [discriminate|auto]. Qed.

Lemma bind_le {A B} (m m' : M A) (f f' : A -> M B) s :
  res_le (m s) (m' s) -> (forall a s1, res_le (f a s1) (f' a s1)) ->
  res_le (bind m f s) (bind m' f' s).
Proof.
  intros [H|H] Hf; unfold bind; rewrite H.
  - left. reflexivity.
  - destruct (m' s); [apply Hf|right; reflexivity|right; reflexivity].
Qed.

Lemma while_le {A} n n' (cond : A -> M bool) (body body' : A -> M (ctl A)) :
  (n <= n')%nat ->
  (forall a s, res_le (body a s) (body' a s)) ->
  forall a s, res_le (while_ n cond body a s) (while_ n' cond body' a s).
Proof.
  intros Hn Hb. revert n' Hn. induction n as [|n IH]; intros n' Hn a s.
  - left. reflexivity.
  - destruct n' as [|n']; [lia|]. cbn [while_].
    apply bind_le; [apply res_le_refl|]. intros [|] s1; [|apply res_le_refl].
    apply bind_le; [apply Hb|]. intros [a'|a'] s2; [|apply res_le_refl].
    apply IH. lia.
Qed.

Create HintDb monodb.

(** Decompose a fuel comparison along the structure of the program. *)
Ltac mono :=
  lazymatch goal with
  | |- res_le ?r ?r => apply res_le_refl
  | |- res_le (bind _ _ _) (bind _ _ _) => apply bind_le; [mono | intros; mono]
  | |- res_le (while_ _ _ _ _ _) (while_ _ _ _ _ _) =>
      apply while_le; [lia | intros; mono]
  | |- res_le ((match ?x with _ => _ end) _) _ => destruct x; mono
  | |- res_le ?r _ =>
      first [ solve [auto with monodb]
            | let h := head_of r in unfold h; mono ]
  end.

Lemma scan_string_mono n n' s :
  (n <= n')%nat -> res_le (scan_string n s) (scan_string n' s).
Proof. intros Hn. unfold scan_string. mono. Qed.

Lemma scan_udta_mono n n' r s :
  (n <= n')%nat -> res_le (scan_udta n r s) (scan_udta n' r s).
Proof. intros Hn. unfold scan_udta. mono. Qed.

Lemma scan_stbl_mono n n' r s :
  (n <= n')%nat -> res_le (scan_stbl n r s) (scan_stbl n' r s).
Proof. intros Hn. unfold scan_stbl. mono. Qed.

Lemma scan_edts_mono n n' r s :
  (n <= n')%nat -> res_le (scan_edts n r s) (scan_edts n' r s).
Proof. intros Hn. unfold scan_edts. mono. Qed.

#[local] Hint Resolve scan_string_mono scan_udta_mono scan_stbl_mono
  scan_edts_mono : monodb.

Lemma scan_url__mono n n' r s :
  (n <= n')%nat -> res_le (scan_url_ n r s) (scan_url_ n' r s).
Proof. intros Hn. unfold scan_url_. mono. Qed.

Lemma scan_urn__mono n n' r s :
  (n <= n')%nat -> res_le (scan_urn_ n r s) (scan_urn_ n' r s).
Proof. intros Hn. unfold scan_urn_. mono. Qed.

#[local] Hint Resolve scan_url__mono scan_urn__mono : monodb.

Lemma scan_dref_mono n n' r s :
  (n <= n')%nat -> res_le (scan_dref n r s) (scan_dref n' r s).
Proof. intros Hn. unfold scan_dref. mono. Qed.

#[local] Hint Resolve scan_dref_mono : monodb.

Lemma scan_dinf_mono n n' r s :
  (n <= n')%nat -> res_le (scan_dinf n r s) (scan_dinf n' r s).
Proof. intros Hn. unfold scan_dinf. mono. Qed.

#[local] Hint Resolve scan_dinf_mono : monodb.

Lemma scan_minf_mono n n' r s :
  (n <= n')%nat -> res_le (scan_minf n r s) (scan_minf n' r s).
Proof. intros Hn. unfold scan_minf. mono. Qed.

#[local] Hint Resolve scan_minf_mono : monodb.

Lemma scan_mdia_mono n n' r s :
  (n <= n')%nat -> res_le (scan_mdia n r s) (scan_mdia n' r s).
Proof. intros Hn. unfold scan_mdia. mono. Qed.

#[local] Hint Resolve scan_mdia_mono : monodb.

Lemma scan_trak_mono n n' r s :
  (n <= n')%nat -> res_le (scan_trak n r s) (scan_trak n' r s).
Proof. intros Hn. unfold scan_trak. mono. Qed.

#[local] Hint Resolve scan_trak_mono : monodb.

Lemma scan_moov_mono n n' r s :
  (n <= n')%nat -> res_le (scan_moov n r s) (scan_moov n' r s).
Proof. intros Hn. unfold scan_moov. mono. Qed.

Lemma scan_ftyp_mono n n' r s :
  (n <= n')%nat -> res_le (scan_ftyp n r s) (scan_ftyp n' r s).
Proof. intros Hn. unfold scan_ftyp. mono. Qed.

#[local] Hint Resolve scan_moov_mono scan_ftyp_mono : monodb.

Lemma scan_dispatch_mono n n' boxtype skip s :
  (n <= n')%nat ->
  res_le (scan_dispatch n boxtype skip s) (scan_dispatch n' boxtype skip s).
Proof. intros Hn. unfold scan_dispatch. mono. Qed.

(** ** The sizes announced at top level *)

Lemma top_sizes_app l l' : top_sizes (l ++ l') = top_sizes l ++ top_sizes l'.
Proof.
  induction l as [|ln l IH]; cbn [app top_sizes]; [reflexivity|].
  destruct (top_size ln); rewrite IH; reflexivity.
Qed.

Lemma top_sizes_deeper l : Forall (deeper 1) l -> top_sizes l = [].
Proof.
  induction 1 as [|ln l Hd _ IH]; [reflexivity|]. cbn [top_sizes].
  rewrite IH. destruct ln as [lvl fmt args|fmt args]; [|reflexivity].
  cbn in Hd. cbn [top_size].
  destruct args as [|[] [|[] [|]]]; try reflexivity.
  destruct (lvl =? 0) eqn:E; [lia|]. reflexivity.
Qed.

Lemma sum_app l l' : sum (l ++ l') = sum l + sum l'.
Proof.
  unfold sum. induction l as [|z l IH]; cbn [app fold_right]; lia.
Qed.

Example three_boxes_scanned :
  exists s', scan 4 (open_file three_boxes) = Ok tt s' /\
             top_sizes (out s') = [20; 8; 116] /\ pos s' = 144.
Proof.
  eexists. split; [vm_compute; reflexivity|]. split; reflexivity.
Qed.

(** * Further properties of the scanner *)

(** ** Reads that meet the end of the file *)

Lemma file_read_short s n :
  0 <= pos s -> 0 < n -> filesize s < pos s + n ->
  exists bs,
    file_read n s = Ok bs (set_pos s (Z.max (pos s) (filesize s))) /\
    (length bs < Z.to_nat n)%nat.
Proof.
  intros Hp Hn Hb. unfold file_read, filesize in *.
  destruct (n <? 0) eqn:E; [lia|].
  exists (firstn (Z.to_nat n) (skipn (Z.to_nat (pos s)) (data s))).
  rewrite length_firstn, length_skipn. split; [|lia].
  unfold set_pos. do 2 f_equal. lia.
Qed.

Lemma read_int_short sg (w : nat) s :
  (0 < w)%nat -> 0 <= pos s -> filesize s < pos s + Z.of_nat w ->
  (bs <- file_read (Z.of_nat w) ;; unpack_int sg w bs) s
  = Raise struct_error (set_pos s (Z.max (pos s) (filesize s))).
Proof.
  intros Hw Hp Hb. destruct w as [|w]; [lia|].
  destruct (file_read_short s (Z.of_nat (S w)) Hp ltac:(lia) Hb) as (bs & Hr & Hl).
  eapply bind_Ok; [exact Hr|]. unfold unpack_int.
  destruct (Nat.eqb (length bs) (S w)) eqn:E; [apply Nat.eqb_eq in E; lia|].
  reflexivity.
Qed.

Lemma scan_fourcc_short s :
  0 <= pos s -> filesize s < pos s + 4 ->
  scan_fourcc s = Raise struct_error (set_pos s (Z.max (pos s) (filesize s))).
Proof.
  intros Hp Hb.
  destruct (file_read_short s 4 Hp ltac:(lia) Hb) as (bs & Hr & Hl).
  eapply bind_Ok; [exact Hr|]. unfold unpack_4s.
  destruct (Nat.eqb (length bs) 4) eqn:E; [apply Nat.eqb_eq in E; lia|].
  reflexivity.
Qed.

Lemma scan_box_short s :
  0 <= pos s -> filesize s < pos s + 8 ->
  scan_box s = Raise struct_error (set_pos s (Z.max (pos s) (filesize s))).
Proof.
  intros Hp Hb. unfold scan_box.
  destruct (Z_lt_le_dec (filesize s) (pos s + 4)) as [H4|H4].
  - apply bind_Raise. apply (read_int_short false 4); simpl; lia.
  - eapply bind_Ok; [apply scan_uint32_ok; lia|].
    apply bind_Raise. rewrite scan_fourcc_short by (sst; lia).
    sst. do 2 f_equal. lia.
Qed.

(** X1: a header that is cut short always ends the scan with an error.
    Whenever fewer than 8 bytes are left where a header is read,
    [scan_box] raises [struct.error] with the cursor at the end of the
    file (or where it was, if it already stood beyond the end), and one
    turn of any walker, [scan] included, lets that error through: nothing
    is printed and nothing is dispatched. *)
Theorem cut_header_raises_struct_error (s : state) :
  0 <= pos s -> filesize s < pos s + 8 ->
  let s' := set_pos s (Z.max (pos s) (filesize s)) in
  scan_box s = Raise struct_error s' /\
  (forall dispatch, walk_iter dispatch tt s = Raise struct_error s') /\
  (forall fuel n, scan_iter fuel n s = Raise struct_error s').
Proof.
  intros Hp Hb s'. pose proof (scan_box_short s Hp Hb) as H.
  split; [exact H|]. split.
  - intros dispatch. unfold walk_iter. apply bind_Raise.
    unfold catch_EOFError. rewrite H. reflexivity.
  - intros fuel n. unfold scan_iter. apply bind_Raise.
    unfold catch_EOFError. rewrite H. reflexivity.
Qed.

Lemma cut_header_raises_struct_error_witness :
  let s := mkState ftyp_then_3 true 20 0 [] in
  0 <= pos s /\ filesize s < pos s + 8 /\
  scan_box s = Raise struct_error (mkState ftyp_then_3 true 23 0 []).
Proof.
  intros s. split; [vm_compute; discriminate|]. split; [reflexivity|].
  exact (proj1 (cut_header_raises_struct_error s
                  ltac:(vm_compute; discriminate) ltac:(reflexivity))).
Defined.

(** ** How the walkers leave their loops *)

Lemma bind_Ok_inv {A B} (m : M A) (f : A -> M B) s b s' :
  bind m f s = Ok b s' -> exists a s1, m s = Ok a s1 /\ f a s1 = Ok b s'.
Proof.
  unfold bind. destruct (m s) as [a s1|e s1|]; try discriminate.
  intros H. exists a, s1. auto.
Qed.

Lemma catch_scan_box_Some s r s' :
  catch_EOFError scan_box s = Ok r s' -> exists a, r = Some a /\ scan_box s = Ok a s'.
Proof.
  unfold catch_EOFError.
  destruct (scan_box s) as [a s1|e s1|] eqn:E; try discriminate.
  - intros H; inversion H; subst. eauto.
  - destruct e; try discriminate.
    exfalso. exact (scan_box_not_EOF s s1 E).
Qed.

Lemma walk_iter_continues dispatch s r s' :
  walk_iter dispatch tt s = Ok r s' -> r = Continue tt.
Proof.
  unfold walk_iter. intros H.
  apply bind_Ok_inv in H as (a & s1 & Hc & H).
  apply catch_scan_box_Some in Hc as ([[bs bt] sk] & -> & _).
  apply bind_Ok_inv in H as (? & ? & _ & H).
  apply bind_Ok_inv in H as (? & ? & _ & H).
  inversion H. reflexivity.
Qed.

Lemma scan_iter_continues fuel n s r s' :
  scan_iter fuel n s = Ok r s' -> r = Continue (n + 1).
Proof.
  unfold scan_iter. intros H.
  apply bind_Ok_inv in H as (a & s1 & Hc & H).
  apply catch_scan_box_Some in Hc as ([[bs bt] sk] & -> & _).
  apply bind_Ok_inv in H as (? & ? & _ & H).
  apply bind_Ok_inv in H as (? & ? & _ & H).
  apply bind_Ok_inv in H as (? & ? & _ & H).
  inversion H. reflexivity.
Qed.

(** A loop whose test only looks at the state and whose body never
    breaks is left only when the test fails. *)
Lemma while_exit {A} (P : state -> Prop) fuel
      (cond : A -> M bool) (body : A -> M (ctl A)) :
  (forall a s, exists b, cond a s = Ok b s /\ (b = false -> P s)) ->
  (forall a s r s', body a s = Ok r s' -> exists a', r = Continue a') ->
  forall a s a' s', while_ fuel cond body a s = Ok a' s' -> P s'.
Proof.
  intros Hc Hb. induction fuel as [|n IH]; intros a s a' s' H.
  - discriminate H.
  - cbn [while_] in H. apply bind_Ok_inv in H as (b & s1 & Hcond & H).
    destruct (Hc a s) as (b0 & Hc0 & HP). rewrite Hc0 in Hcond.
    inversion Hcond; subst b0 s1. destruct b.
    + apply bind_Ok_inv in H as (r & s2 & Hbody & H).
      destruct (Hb _ _ _ _ Hbody) as (a2 & ->). eapply IH; exact H.
    + inversion H; subst. apply HP. reflexivity.
Qed.

Lemma walk_exit fuel chunkend dispatch s s' :
  walk fuel chunkend dispatch s = Ok tt s' -> chunkend <= pos s'.
Proof.
  unfold walk.
  apply (while_exit (fun s => chunkend <= pos s)).
  - intros [] s0. exists (pos s0 <? chunkend). split; [reflexivity|].
    intros E. apply Z.ltb_ge in E. exact E.
  - intros [] s0 r s1 H. apply walk_iter_continues in H. eauto.
Qed.

Lemma ipush_inv s s' : ipush s = Ok tt s' -> pos s' = pos s.
Proof. intros H; inversion H; reflexivity. Qed.

Lemma ipop_inv s s' : ipop s = Ok tt s' -> pos s' = pos s.
Proof. intros H; inversion H; reflexivity. Qed.

(** What is left of a container method once [ipush] and [tell] are done. *)
Ltac open_container H :=
  apply bind_Ok_inv in H as ([] & ?s1 & ?Hpush & H);
  apply bind_Ok_inv in H as (?p & ?s2 & ?Htell & H);
  lazymatch goal with
  | Hp : ipush _ = Ok tt _, Ht : tell _ = Ok _ _ |- _ =>
      apply ipush_inv in Hp; inversion Ht; subst; clear Ht
  end.

Ltac close_container H :=
  apply bind_Ok_inv in H as ([] & ?s3 & ?Hwalk & H);
  apply ipop_inv in H;
  match goal with Hw : walk _ _ _ _ = Ok _ _ |- _ => apply walk_exit in Hw end;
  lia.

(** X2: a container method returns only once the cursor has reached the
    end of its range.  For [scan_moov], [scan_trak], [scan_mdia],
    [scan_minf], [scan_dinf], [scan_dref], [scan_stbl], [scan_edts] and
    [scan_udta] alike: if the call returns, the cursor is at or beyond
    the position at entry plus [remaining]; the [break] of the loop never
    ends a walk early. *)
Theorem container_returns_past_its_range
        (f : method) (fuel : nat) (remaining : Z) (s s' : state) :
  is_container f = true ->
  call f fuel remaining s = Ok tt s' ->
  pos s + remaining <= pos s'.
Proof.
  intros Hf H. destruct f; try discriminate Hf; cbn [call] in H;
    unfold scan_moov, scan_trak, scan_mdia, scan_minf, scan_dinf, scan_dref,
      scan_stbl, scan_edts, scan_udta in H;
    try (open_container H; close_container H).
  (* scan_dref reads its prefix and entry count before the loop *)
  open_container H.
  apply bind_Ok_inv in H as ([[v fl] sk] & s4 & _ & H).
  apply bind_Ok_inv in H as (? & s5 & _ & H).
  apply bind_Ok_inv in H as (? & s6 & _ & H).
  apply bind_Ok_inv in H as (? & s7 & _ & H).
  apply bind_Ok_inv in H as (? & s8 & _ & H).
  close_container H.
Qed.

Lemma container_returns_past_its_range_witness :
  exists s',
    scan_moov 3 8 (mkState moov_child_overflow true 8 0 []) = Ok tt s' /\
    8 + 8 <= pos s'.
Proof.
  destruct (scan_moov 3 8 (mkState moov_child_overflow true 8 0 []))
    as [[] s'|e s'|] eqn:E; [|vm_compute in E; discriminate..].
  exists s'. split; [reflexivity|].
  exact (container_returns_past_its_range m_scan_moov 3 8 _ s' eq_refl E).
Defined.

(** X3: [scan] returns only once the cursor has reached the end of the
    file: it never stops in the middle of a file without raising. *)
Theorem scan_returns_at_end_of_file (fuel : nat) (s s' : state) :
  scan fuel s = Ok tt s' -> filesize s' <= pos s'.
Proof.
  unfold scan. intros H.
  apply bind_Ok_inv in H as (o & s1 & _ & H).
  destruct (negb o); [discriminate H|].
  apply bind_Ok_inv in H as (? & s2 & _ & H).
  apply bind_Ok_inv in H as (n & s3 & Hloop & H).
  inversion H; subst. unfold emit, filesize. cbn [data pos].
  revert Hloop. apply (while_exit (fun s => filesize s <= pos s)).
  - intros a s0. exists (pos s0 <? filesize s0). split; [reflexivity|].
    intros E. apply Z.ltb_ge in E. exact E.
  - intros a s0 r s4 Hi. apply scan_iter_continues in Hi. eauto.
Qed.

Lemma scan_returns_at_end_of_file_witness :
  exists s', scan 4 (open_file three_boxes) = Ok tt s' /\ 144 <= pos s'.
Proof.
  destruct (scan 4 (open_file three_boxes)) as [[] s'|e s'|] eqn:E;
    [|vm_compute in E; discriminate..].
  exists s'. split; [reflexivity|].
  pose proof (scan_returns_at_end_of_file 4 _ s' E) as H.
  assert (Hf : filesize s' = 144)
    by (vm_compute in E; inversion E; reflexivity).
  rewrite Hf in H. exact H.
Defined.

(** ** Headers on an explicit state *)

Lemma scan_box_ext d o p i l :
  0 <= p -> p + 16 <= Z.of_nat (length d) ->
  be_uint (bytes_at d p 4) = 1 ->
  scan_box (mkState d o p i l)
  = Ok (be_uint (bytes_at d (p + 8) 8), bytes_at d (p + 4) 4,
        be_uint (bytes_at d (p + 8) 8) - 16)
       (mkState d o (p + 16) i l).
Proof.
  intros Hp Hb E. unfold scan_box. run1. run1. rewrite E. cbn [Z.eqb Pos.eqb].
  run1. unfold ret.
  replace (p + 4 + 4) with (p + 8) by lia.
  replace (p + 8 + 8) with (p + 16) by lia. reflexivity.
Qed.

Lemma scan_box_rest d o p i l :
  0 <= p -> p + 8 <= Z.of_nat (length d) ->
  be_uint (bytes_at d p 4) = 0 ->
  scan_box (mkState d o p i l)
  = Ok (Z.of_nat (length d) - p, bytes_at d (p + 4) 4,
        Z.of_nat (length d) - p - 8)
       (mkState d o (p + 8) i l).
Proof.
  intros Hp Hb E. unfold scan_box. run1. run1. rewrite E. cbn [Z.eqb].
  run1. eapply bind_Ok; [reflexivity|]. unfold ret. sst.
  replace (p + 4 + 4) with (p + 8) by lia.
  do 2 f_equal; f_equal; lia.
Qed.

Lemma scan_box_plain d o p i l :
  0 <= p -> p + 8 <= Z.of_nat (length d) ->
  be_uint (bytes_at d p 4) <> 1 -> be_uint (bytes_at d p 4) <> 0 ->
  scan_box (mkState d o p i l)
  = Ok (be_uint (bytes_at d p 4), bytes_at d (p + 4) 4,
        be_uint (bytes_at d p 4) - 8)
       (mkState d o (p + 8) i l).
Proof.
  intros Hp Hb N1 N0. unfold scan_box. run1. run1.
  destruct (be_uint (bytes_at d p 4) =? 1) eqn:E1; [lia|].
  destruct (be_uint (bytes_at d p 4) =? 0) eqn:E0; [lia|].
  unfold ret. replace (p + 4 + 4) with (p + 8) by lia. reflexivity.
Qed.

(** ** A box that sends the walker back to its own header *)

Lemma walk_on_zero_size64 d p chunkend dispatch :
  0 <= p < chunkend ->
  p + 16 <= Z.of_nat (length d) <= max_off ->
  be_uint (bytes_at d p 4) = 1 ->
  be_uint (bytes_at d (p + 8) 8) = 0 ->
  dispatch (bytes_at d (p + 4) 4) (-16) = seek_cur (-16) ->
  forall fuel o i l,
    walk fuel chunkend dispatch (mkState d o p i l) = Diverge.
Proof.
  intros Hp Hb E1 E0 Hd. unfold walk.
  induction fuel as [|n IH]; intros o i l; [reflexivity|].
  cbn [while_].
  eapply bind_Ok; [reflexivity|]. cbn [pos].
  replace (p <? chunkend) with true by (symmetry; apply Z.ltb_lt; lia).
  eapply bind_Ok.
  { unfold walk_iter. eapply bind_Ok.
    - unfold catch_EOFError. rewrite scan_box_ext by lia. reflexivity.
    - rewrite E0. cbn beta iota. run1. change (0 - 16) with (-16).
      rewrite Hd. run1. reflexivity. }
  cbn beta iota. replace (p + 16 + -16) with p by lia. apply IH.
Qed.

Lemma scan_loop_on_zero_size64 d p :
  0 <= p ->
  p + 16 <= Z.of_nat (length d) <= max_off ->
  be_uint (bytes_at d p 4) = 1 ->
  be_uint (bytes_at d (p + 8) 8) = 0 ->
  scan_registered (bytes_at d (p + 4) 4) = false ->
  forall k fuel n l,
    while_ k scan_cond (scan_iter fuel) n (mkState d true p 0 l) = Diverge.
Proof.
  intros Hp Hb E1 E0 Hu.
  induction k as [|k IH]; intros fuel n l; [reflexivity|].
  cbn [while_].
  eapply bind_Ok; [reflexivity|]. unfold filesize. cbn [pos data].
  replace (p <? Z.of_nat (length d)) with true
    by (symmetry; apply Z.ltb_lt; lia).
  eapply bind_Ok.
  { unfold scan_iter. eapply bind_Ok.
    - unfold catch_EOFError. rewrite scan_box_ext by lia. reflexivity.
    - rewrite E0. cbn beta iota. run1. change (0 - 16) with (-16).
      rewrite scan_dispatch_unregistered by exact Hu. run1.
      eapply bind_Ok; [reflexivity|]. reflexivity. }
  cbn beta iota. unfold emit. cbn [data opened pos indent out].
  replace (p + 16 + -16) with p by lia. apply IH.
Qed.

(** X4: an extended-size box whose 64-bit size is 0 makes a walker loop
    for ever.  [scan_box] gives it the payload length -16, so the skip
    seeks back to the start of the same box: when such a box with a tag
    that selects no decoder stands inside the range, the loop of every
    container runs out of any amount of fuel, and so does [scan] when the
    box is the first of the file. *)
Theorem zero_size64_box_never_ends (d : list byte) (p : Z) :
  0 <= p ->
  p + 16 <= Z.of_nat (length d) <= max_off ->
  be_uint (bytes_at d p 4) = 1 ->
  be_uint (bytes_at d (p + 8) 8) = 0 ->
  (forall chunkend dispatch fuel o i l,
     p < chunkend ->
     dispatch (bytes_at d (p + 4) 4) (-16) = seek_cur (-16) ->
     walk fuel chunkend dispatch (mkState d o p i l) = Diverge) /\
  (scan_registered (bytes_at d (p + 4) 4) = false -> p = 0 ->
   forall fuel, scan fuel (open_file d) = Diverge).
Proof.
  intros Hp Hb E1 E0. split.
  - intros chunkend dispatch fuel o i l Hc Hd.
    apply walk_on_zero_size64; auto; lia.
  - intros Hu -> fuel. unfold scan.
    eapply bind_Ok; [reflexivity|]. cbn [opened open_file negb].
    eapply bind_Ok; [reflexivity|].
    unfold bind. unfold set_pos. cbn [data opened pos indent out].
    rewrite (scan_loop_on_zero_size64 d 0) by (auto; lia). reflexivity.
Qed.

Lemma bind_Diverge {A B} (m : M A) (f : A -> M B) s :
  m s = Diverge -> bind m f s = Diverge.
Proof. intros H. unfold bind. rewrite H. reflexivity. Qed.

Lemma zero_size64_box_never_ends_witness :
  (forall fuel, scan_udta fuel 24 (open_file zero_size64_box) = Diverge) /\
  (forall fuel, scan fuel (open_file zero_size64_box) = Diverge).
Proof.
  pose proof (zero_size64_box_never_ends zero_size64_box 0
                ltac:(lia) ltac:(split; vm_compute; discriminate)
                ltac:(reflexivity) ltac:(reflexivity)) as [Hw Hs].
  split.
  - intros fuel. unfold scan_udta.
    eapply bind_Ok; [reflexivity|]. eapply bind_Ok; [reflexivity|].
    apply bind_Diverge.
    exact (Hw (0 + 24) udta_dispatch fuel true (0 + 1) [] ltac:(lia) eq_refl).
  - exact (Hs eq_refl eq_refl).
Defined.

(** ** The box that runs to the end of the file *)

(** X5: a top-level box whose size field is 0 is the last one [scan]
    visits.  When [scan] meets, at any offset [p], a header with size 0
    and a tag that selects no decoder, it announces the total size
    [filesize - p], moves the cursor to the end of the file and leaves
    its loop, the count raised by one; whatever bytes follow the header
    are never read as boxes. *)
Theorem size_zero_box_ends_scan (d : list byte) (p : Z) :
  0 <= p ->
  p + 8 <= Z.of_nat (length d) <= max_off ->
  be_uint (bytes_at d p 4) = 0 ->
  scan_registered (bytes_at d (p + 4) 4) = false ->
  forall k fuel n l,
    while_ (S (S k)) scan_cond (scan_iter fuel) n (mkState d true p 0 l)
    = Ok (n + 1)
         (mkState d true (Z.of_nat (length d)) 0
            (l ++ [ILine 0 "Box Found: '%s' of length %u"
                     [AStr (bytes_at d (p + 4) 4); AInt (Z.of_nat (length d) - p)];
                   PLine EmptyString []])).
Proof.
  intros Hp Hb E0 Hu k fuel n l.
  cbn [while_].
  eapply bind_Ok; [reflexivity|]. unfold filesize. cbn [pos data].
  replace (p <? Z.of_nat (length d)) with true
    by (symmetry; apply Z.ltb_lt; lia).
  eapply bind_Ok.
  { unfold scan_iter. eapply bind_Ok.
    - unfold catch_EOFError. rewrite scan_box_rest by lia. reflexivity.
    - cbn beta iota. run1.
      rewrite scan_dispatch_unregistered by exact Hu. run1.
      eapply bind_Ok; [reflexivity|]. reflexivity. }
  cbn beta iota. unfold emit. cbn [data opened pos indent out].
  eapply bind_Ok; [reflexivity|]. unfold filesize. cbn [pos data].
  replace (p + 8 + (Z.of_nat (length d) - p - 8)) with (Z.of_nat (length d))
    by lia.
  rewrite Z.ltb_irrefl. unfold ret. rewrite <- app_assoc. reflexivity.
Qed.

Lemma size_zero_box_ends_scan_witness :
  exists s',
    scan 3 (open_file free_then_open_mdat) = Ok tt s' /\
    pos s' = 21 /\
    out s' = [ILine 0 "Box Found: '%s' of length %u" [AStr (tag "free"); AInt 8];
              PLine EmptyString [];
              ILine 0 "Box Found: '%s' of length %u" [AStr (tag "mdat"); AInt 13];
              PLine EmptyString [];
              ILine 0 "%d boxes scanned" [AInt 2]].
Proof.
  pose proof (size_zero_box_ends_scan free_then_open_mdat 8
                ltac:(lia) ltac:(split; vm_compute; discriminate)
                ltac:(reflexivity) ltac:(reflexivity) 0 3 1
                [ILine 0 "Box Found: '%s' of length %u" [AStr (tag "free"); AInt 8];
                 PLine EmptyString []]) as H.
  eexists. split; [|split].
  - unfold scan. eapply bind_Ok; [reflexivity|]. cbn [opened open_file negb].
    eapply bind_Ok; [reflexivity|].
    eapply bind_Ok.
    { cbn [while_]. eapply bind_Ok; [reflexivity|].
      eapply bind_Ok; [vm_compute; reflexivity|]. exact H. }
    reflexivity.
  - reflexivity.
  - reflexivity.
Defined.

(** ** The count that [scan] reports *)

Lemma top_sizes_length_app l l' :
  length (top_sizes (l ++ l')) = (length (top_sizes l) + length (top_sizes l'))%nat.
Proof. rewrite top_sizes_app. apply length_app. Qed.

Lemma scan_loop_counts fuel k :
  forall n s n' s',
    indent s = 0 ->
    while_ k scan_cond (scan_iter fuel) n s = Ok n' s' ->
    indent s' = 0 /\
    exists l, out s' = out s ++ l /\ n' = n + Z.of_nat (length (top_sizes l)).
Proof.
  induction k as [|k IH]; intros n s n' s' Hi H; [discriminate H|].
  cbn [while_] in H.
  apply bind_Ok_inv in H as (b & s0 & Hc & H).
  unfold scan_cond, bind, tell, get_filesize, ret in Hc.
  inversion Hc; subst b s0; clear Hc.
  destruct (pos s <? filesize s).
  2:{ inversion H; subst. split; [exact Hi|].
      exists []. rewrite app_nil_r. cbn. split; [reflexivity|lia]. }
  apply bind_Ok_inv in H as (r & s4 & Hbody & H).
  unfold scan_iter in Hbody.
  apply bind_Ok_inv in Hbody as (a & s1 & Hcatch & Hbody).
  apply catch_scan_box_Some in Hcatch as ([[bs bt] sk] & -> & Hbox).
  pose proof (quiet_scan_box s) as Hq. rewrite Hbox in Hq.
  destruct Hq as (_ & _ & Hi1 & Ho1).
  apply bind_Ok_inv in Hbody as ([] & s2 & Hprint & Hbody).
  inversion Hprint; subst s2; clear Hprint.
  apply bind_Ok_inv in Hbody as ([] & s3 & Hdis & Hbody).
  pose proof (scan_dispatch_levels fuel bt sk 0 ltac:(lia)
                (emit s1 (ILine (indent s1) "Box Found: '%s' of length %u"
                            [AStr bt; AInt bs]))
                ltac:(cbn; lia)) as Hlv.
  rewrite Hdis in Hlv. destruct Hlv as (Hi3 & _ & _ & _ & l2 & Ho3 & Hdeep).
  apply bind_Ok_inv in Hbody as ([] & s5 & Hpl & Hbody).
  inversion Hpl; subst s5; clear Hpl.
  inversion Hbody; subst r s4; clear Hbody.
  destruct (IH (n + 1) (emit s3 (PLine EmptyString [])) n' s' Hi3 H)
    as (Hi' & l' & Ho' & Hn').
  split; [exact Hi'|].
  exists (([ILine 0 "Box Found: '%s' of length %u" [AStr bt; AInt bs]] ++ l2)
          ++ PLine EmptyString [] :: l').
  split.
  - rewrite Ho'. cbn [out emit]. rewrite Ho3. cbn [out emit].
    rewrite Ho1, Hi1, Hi. rewrite <- !app_assoc. reflexivity.
  - rewrite Hn'. rewrite !top_sizes_length_app.
    rewrite (top_sizes_deeper l2 Hdeep). cbn. lia.
Qed.

(** X6: the number [scan] reports is the number of boxes it announced.
    When [scan], entered at level 0, returns, the last line it printed is
    the summary [%d boxes scanned], and its number is the number of
    [Box Found] lines printed at level 0 before it, whatever the file
    holds. *)
Theorem scan_reports_the_boxes_it_announced (fuel : nat) (s s' : state) :
  indent s = 0 ->
  scan fuel s = Ok tt s' ->
  exists l n,
    out s' = out s ++ l ++ [ILine 0 "%d boxes scanned" [AInt n]] /\
    n = Z.of_nat (length (top_sizes l)).
Proof.
  intros Hi H. unfold scan in H.
  apply bind_Ok_inv in H as (o & s1 & Ho & H).
  inversion Ho; subst o s1; clear Ho.
  destruct (negb (opened s)); [discriminate H|].
  apply bind_Ok_inv in H as ([] & s2 & Hseek & H).
  pose proof (quiet_seek_set 0 s) as Hq. rewrite Hseek in Hq.
  destruct Hq as (_ & _ & Hi2 & Ho2).
  apply bind_Ok_inv in H as (n & s3 & Hloop & H).
  destruct (scan_loop_counts fuel fuel 0 s2 n s3 ltac:(lia) Hloop)
    as (Hi3 & l & Hl & Hn).
  inversion H; subst s'. exists l, n. split; [|lia].
  cbn [out emit]. rewrite Hl, Ho2, Hi3, <- app_assoc. reflexivity.
Qed.

Lemma scan_reports_the_boxes_it_announced_witness :
  exists s' l,
    scan 4 (open_file three_boxes) = Ok tt s' /\
    out s' = l ++ [ILine 0 "%d boxes scanned" [AInt 3]] /\
    length (top_sizes l) = 3%nat.
Proof.
  destruct (scan 4 (open_file three_boxes)) as [[] s'|e s'|] eqn:E;
    [|vm_compute in E; discriminate..].
  destruct (scan_reports_the_boxes_it_announced 4 (open_file three_boxes) s'
              eq_refl E) as (l & n & Hout & Hn).
  cbn [out open_file app] in Hout.
  assert (Hlast : last (out s') (PLine EmptyString [])
                  = ILine 0 "%d boxes scanned" [AInt n])
    by (rewrite Hout; apply last_last).
  assert (Hn3 : n = 3)
    by (vm_compute in E; inversion E; subst s'; vm_compute in Hlast;
        inversion Hlast; reflexivity).
  exists s', l. split; [reflexivity|]. split; [rewrite Hout, Hn3; reflexivity|].
  lia.
Defined.

(** ** Values of the fixed-width readers *)

Lemma byte_val_range b : 0 <= byte_val b < 256.
Proof.
  unfold byte_val. pose proof (Byte.to_N_bounded b). lia.
Qed.

Lemma fold_be_range bs : forall acc,
  0 <= acc ->
  0 <= fold_left (fun a b => a * 256 + byte_val b) bs acc
  < (acc + 1) * 256 ^ Z.of_nat (length bs).
Proof.
  induction bs as [|b bs IH]; intros acc Hacc.
  - cbn. lia.
  - cbn [fold_left length]. pose proof (byte_val_range b) as Hb.
    specialize (IH (acc * 256 + byte_val b) ltac:(lia)).
    rewrite Nat2Z.inj_succ, Z.pow_succ_r by lia.
    assert (0 < 256 ^ Z.of_nat (length bs)) by (apply Z.pow_pos_nonneg; lia).
    nia.
Qed.

Lemma be_uint_range bs : 0 <= be_uint bs < 256 ^ Z.of_nat (length bs).
Proof.
  unfold be_uint. pose proof (fold_be_range bs 0 ltac:(lia)). lia.
Qed.

Lemma to_signed_range (w : nat) u :
  (0 < w)%nat -> 0 <= u < 256 ^ Z.of_nat w ->
  - 2 ^ (8 * Z.of_nat w - 1) <= to_signed w u < 2 ^ (8 * Z.of_nat w - 1).
Proof.
  intros Hw Hu. unfold to_signed.
  assert (E : 256 ^ Z.of_nat w = 2 ^ (8 * Z.of_nat w))
    by (change 256 with (2 ^ 8); rewrite <- Z.pow_mul_r by lia; reflexivity).
  assert (E2 : 2 ^ (8 * Z.of_nat w) = 2 * 2 ^ (8 * Z.of_nat w - 1)).
  { rewrite <- Z.pow_succ_r by lia. f_equal. lia. }
  destruct (u <? 2 ^ (8 * Z.of_nat w - 1)) eqn:C;
    [apply Z.ltb_lt in C|apply Z.ltb_ge in C]; lia.
Qed.

Lemma read_int_value sg (w : nat) s v s' :
  (bs <- file_read (Z.of_nat w) ;; unpack_int sg w bs) s = Ok v s' ->
  exists bs, length bs = w /\
             v = (if sg then to_signed w (be_uint bs) else be_uint bs) /\
             bs = bytes_at (data s) (pos s) (Z.of_nat w) /\
             pos s' = pos s + Z.of_nat w.
Proof.
  unfold bind, file_read, unpack_int, raise, ret.
  destruct (Z.of_nat w <? 0) eqn:Ew; [apply Z.ltb_lt in Ew; lia|].
  match goal with |- context [Nat.eqb ?a ?b] => destruct (Nat.eqb a b) eqn:E end;
    [|discriminate].
  apply Nat.eqb_eq in E. intros H; inversion H; subst. clear H.
  eexists. split; [exact E|]. split; [reflexivity|]. split; [reflexivity|].
  cbn [pos set_pos]. rewrite E. reflexivity.
Qed.

Ltac reader_range H :=
  match type of H with
  | ?m _ = Ok _ _ => unfold m in H
  end;
  apply read_int_value in H as (bs & Hl & -> & _ & Hp);
  pose proof (be_uint_range bs) as Hr; rewrite Hl in Hr;
  split; [|exact Hp].

(** X7: what the fixed-width readers return.  Whenever one of them
    returns, the cursor has moved by exactly the width of the field, the
    unsigned readers give a value from 0 up to 2^16, 2^32 or 2^64
    exclusive, and the signed readers a value from -2^15 or -2^31 or -2^63
    up to 2^15, 2^31 or 2^63 exclusive. *)
Theorem fixed_width_values_in_range (s s' : state) (v : Z) :
  (scan_uint16 s = Ok v s' -> 0 <= v < 2 ^ 16 /\ pos s' = pos s + 2) /\
  (scan_int16 s = Ok v s' -> - 2 ^ 15 <= v < 2 ^ 15 /\ pos s' = pos s + 2) /\
  (scan_uint32 s = Ok v s' -> 0 <= v < 2 ^ 32 /\ pos s' = pos s + 4) /\
  (scan_int32 s = Ok v s' -> - 2 ^ 31 <= v < 2 ^ 31 /\ pos s' = pos s + 4) /\
  (scan_uint64 s = Ok v s' -> 0 <= v < 2 ^ 64 /\ pos s' = pos s + 8) /\
  (scan_int64 s = Ok v s' -> - 2 ^ 63 <= v < 2 ^ 63 /\ pos s' = pos s + 8).
Proof.
  repeat match goal with |- _ /\ _ => split end; intros H.
  all: try (reader_range H; exact Hr).
  all: try (reader_range H;
            match goal with
            | |- _ <= to_signed ?w _ < _ =>
                exact (to_signed_range w (be_uint bs) ltac:(lia) Hr)
            end).
Qed.

Lemma fixed_width_values_in_range_witness :
  exists v s',
    scan_int16 (mkState (be_bytes 2 65535) true 0 0 []) = Ok v s' /\
    v = -1 /\ - 2 ^ 15 <= v < 2 ^ 15.
Proof.
  destruct (scan_int16 (mkState (be_bytes 2 65535) true 0 0 []))
    as [v s'|e s'|] eqn:E; [|vm_compute in E; discriminate..].
  exists v, s'. split; [reflexivity|].
  split; [vm_compute in E; inversion E; reflexivity|].
  exact (proj1 (proj1 (proj2 (fixed_width_values_in_range _ s' v)) E)).
Defined.

(** ** The full-box prefix *)

Lemma split_verflags x :
  0 <= x < 2 ^ 32 ->
  let version := Z.land (Z.shiftr x 24) 255 in
  let flags := Z.land x 16777215 in
  0 <= version < 256 /\ 0 <= flags < 2 ^ 24 /\ x = version * 2 ^ 24 + flags.
Proof.
  intros Hx version flags. subst version flags.
  change 255 with (Z.ones 8). change 16777215 with (Z.ones 24).
  rewrite !Z.land_ones by lia. rewrite Z.shiftr_div_pow2 by lia.
  assert (Hq : 0 <= x / 2 ^ 24 < 2 ^ 8).
  { split; [apply Z.div_pos; lia|].
    apply Z.div_lt_upper_bound; [lia|]. change (2 ^ 24 * 2 ^ 8) with (2 ^ 32). lia. }
  rewrite (Z.mod_small (x / 2 ^ 24)) by exact Hq.
  pose proof (Z.mod_pos_bound x (2 ^ 24) ltac:(lia)).
  pose proof (Z.div_mod x (2 ^ 24) ltac:(lia)).
  change (2 ^ 8) with 256 in Hq. lia.
Qed.

Lemma Ok_inj {A} (a b : A) s s' : Ok a s = Ok b s' -> a = b /\ s = s'.
Proof. intros H. inversion H. auto. Qed.

(** X8: [scan_fullbox] splits the 32-bit prefix without loss.  Whenever
    it returns [(version, flags, rest)], the version is a byte, the flags
    are a 24-bit value, [version * 2^24 + flags] is the big-endian value
    of the four bytes read, [rest] is [remaining - 4] and the cursor has
    moved by 4. *)
Theorem scan_fullbox_splits_prefix (remaining : Z) (s s' : state)
        (version flags rest : Z) :
  scan_fullbox remaining s = Ok (version, flags, rest) s' ->
  0 <= version < 256 /\ 0 <= flags < 2 ^ 24 /\
  version * 2 ^ 24 + flags = be_uint (bytes_at (data s) (pos s) 4) /\
  rest = remaining - 4 /\ pos s' = pos s + 4.
Proof.
  unfold scan_fullbox. intros H.
  apply bind_Ok_inv in H as (x & s1 & Hx & H).
  unfold scan_uint32 in Hx.
  apply read_int_value in Hx as (bs & Hl & -> & Hbs & Hp).
  change (Z.of_nat 4) with 4 in Hbs, Hp.
  unfold ret in H. cbv zeta in H.
  apply Ok_inj in H as [Ep Es]. subst s1.
  apply pair_equal_spec in Ep as [Ep Er].
  apply pair_equal_spec in Ep as [Ev Ef].
  pose proof (be_uint_range bs) as Hr. rewrite Hl in Hr.
  destruct (split_verflags (be_uint bs) Hr) as (Hv & Hf & Hsum).
  rewrite <- Hbs, <- Ev, <- Ef, <- Er.
  split; [exact Hv|]. split; [exact Hf|]. split; [symmetry; exact Hsum|].
  split; [reflexivity|exact Hp].
Qed.

Lemma scan_fullbox_splits_prefix_witness :
  exists s',
    scan_fullbox 12 (open_file (be_bytes 4 16777217)) = Ok (1, 1, 8) s' /\
    1 * 2 ^ 24 + 1 = 16777217 /\ pos s' = 4.
Proof.
  destruct (scan_fullbox 12 (open_file (be_bytes 4 16777217)))
    as [[[v f] r] s'|e s'|] eqn:E; [|vm_compute in E; discriminate..].
  destruct (scan_fullbox_splits_prefix 12 _ s' v f r E) as (_ & _ & _ & _ & Hp).
  assert (Hv : (v, f, r) = (1, 1, 8))
    by (vm_compute in E; inversion E; reflexivity).
  inversion Hv; subst. exists s'. split; [reflexivity|]. split; [reflexivity|].
  exact Hp.
Defined.

(** ** The language code of [mdhd] *)

Lemma unpack_language c1 c2 c3 :
  96 <= c1 < 128 -> 96 <= c2 < 128 -> 96 <= c3 < 128 ->
  let language := pack_language c1 c2 c3 in
  Z.land (Z.shiftr language 10) 31 + 96 = c1 /\
  Z.land (Z.shiftr language 5) 31 + 96 = c2 /\
  Z.land language 31 + 96 = c3.
Proof.
  intros H1 H2 H3 language. subst language. unfold pack_language.
  change 31 with (Z.ones 5). rewrite !Z.land_ones by lia.
  rewrite !Z.shiftr_div_pow2 by lia.
  change (2 ^ 10) with 1024. change (2 ^ 5) with 32.
  assert (E1 : ((c1 - 96) * 1024 + (c2 - 96) * 32 + (c3 - 96)) / 1024 = c1 - 96).
  { symmetry. apply (Z.div_unique _ 1024 _ ((c2 - 96) * 32 + (c3 - 96))); lia. }
  assert (E2 : ((c1 - 96) * 1024 + (c2 - 96) * 32 + (c3 - 96)) / 32
               = (c1 - 96) * 32 + (c2 - 96)).
  { symmetry. apply (Z.div_unique _ 32 _ (c3 - 96)); lia. }
  rewrite E1, E2. repeat split.
  - rewrite Z.mod_small by lia. lia.
  - replace ((c1 - 96) * 32 + (c2 - 96)) with ((c2 - 96) + (c1 - 96) * 32) by lia.
    rewrite Z.mod_add by lia. rewrite Z.mod_small by lia. lia.
  - replace ((c1 - 96) * 1024 + (c2 - 96) * 32 + (c3 - 96))
      with ((c3 - 96) + ((c1 - 96) * 32 + (c2 - 96)) * 32) by lia.
    rewrite Z.mod_add by lia. rewrite Z.mod_small by lia. lia.
Qed.

(** X9: [scan_mdhd] undoes the packing of the language code.  When the
    16-bit language field of an [mdhd] box that lies in the file holds
    three 5-bit letters packed as (letter - 0x60), each between 0x60 and
    0x7f, the [language] line that [scan_mdhd] prints carries exactly
    those three letters; the field sits 20 bytes into the payload, or 32
    under version 1. *)
Theorem mdhd_language_unpacked (remaining : Z) (s : state) (c1 c2 c3 : Z) :
  0 <= pos s -> filesize s <= max_off ->
  let off := if version_at s =? 1 then 32 else 20 in
  pos s + off + 4 <= filesize s ->
  96 <= c1 < 128 -> 96 <= c2 < 128 -> 96 <= c3 < 128 ->
  be_uint (bytes_at (data s) (pos s + off) 2) = pack_language c1 c2 c3 ->
  exists s',
    scan_mdhd remaining s = Ok tt s' /\
    last (out s') (PLine EmptyString [])
    = ILine (indent s + 1) "language = %c%c%c" [AChr c1; AChr c2; AChr c3].
Proof.
  intros Hp Hm off Hb H1 H2 H3 Hl. subst off.
  destruct (unpack_language c1 c2 c3 H1 H2 H3) as (U1 & U2 & U3).
  unfold scan_mdhd. destruct s as [d o p i l].
  unfold version_at in *. sst. set (v := Z.land _ 255) in *.
  destruct (v =? 1) eqn:E.
  - eexists. split.
    + run1. run1. unfold version_at. sst. fold v. rewrite E. run1.
      repeat run1. reflexivity.
    + sst. rewrite last_last.
      replace (p + 4 + 8 + 8 + 4 + 8) with (p + 32) by lia.
      rewrite Hl, U1, U2, U3. reflexivity.
  - eexists. split.
    + run1. run1. unfold version_at. sst. fold v. rewrite E. run1.
      repeat run1. reflexivity.
    + sst. rewrite last_last.
      replace (p + 4 + 4 + 4 + 4 + 4) with (p + 20) by lia.
      rewrite Hl, U1, U2, U3. reflexivity.
Qed.

Lemma mdhd_language_unpacked_witness :
  exists s',
    scan_mdhd 24 (open_file mdhd_eng) = Ok tt s' /\
    last (out s') (PLine EmptyString [])
    = ILine 1 "language = %c%c%c" [AChr 101; AChr 110; AChr 103].
Proof.
  exact (mdhd_language_unpacked 24 (open_file mdhd_eng) 101 110 103
           ltac:(vm_compute; discriminate) ltac:(vm_compute; discriminate)
           ltac:(vm_compute; discriminate)
           ltac:(lia) ltac:(lia) ltac:(lia) ltac:(vm_compute; reflexivity)).
Defined.

(** ** Strings *)

Lemma skipn_next (d : list byte) p b r :
  0 <= p -> skipn (Z.to_nat p) d = b :: r -> skipn (Z.to_nat (p + 1)) d = r.
Proof.
  intros Hp H. replace (Z.to_nat (p + 1)) with (1 + Z.to_nat p)%nat by lia.
  rewrite <- skipn_skipn, H. reflexivity.
Qed.

Lemma read1_byte d o p i l b r :
  skipn (Z.to_nat p) d = b :: r ->
  read1 (mkState d o p i l) = Ok b (mkState d o (p + 1) i l).
Proof.
  intros H. unfold read1, bind, file_read. cbn [pos data Z.ltb Z.compare].
  rewrite H. reflexivity.
Qed.

Lemma read1_end d o p i l :
  skipn (Z.to_nat p) d = [] ->
  read1 (mkState d o p i l) = Raise IndexError (mkState d o p i l).
Proof.
  intros H. unfold read1, bind, file_read. cbn [pos data Z.ltb Z.compare].
  rewrite H. cbn. rewrite Z.add_0_r. reflexivity.
Qed.

Lemma scan_string_loop d o i l tail : forall name acc p fuel c,
  no_nul name -> 0 <= p -> c <> 0 ->
  skipn (Z.to_nat p) d = name ++ tail ->
  (length name < fuel)%nat ->
  let body := fun cs : Z * list byte =>
                b <- read1 ;;
                let c := byte_val b in
                if c =? 0 then ret (Break (c, snd cs))
                else ret (Continue (c, snd cs ++ [b])) in
  let cond := fun cs : Z * list byte => ret (negb (fst cs =? 0)) in
  (forall rest, tail = x00 :: rest ->
     while_ fuel cond body (c, acc) (mkState d o p i l)
     = Ok (0, acc ++ name) (mkState d o (p + Z.of_nat (length name) + 1) i l)) /\
  (tail = [] ->
     while_ fuel cond body (c, acc) (mkState d o p i l)
     = Raise IndexError (mkState d o (p + Z.of_nat (length name)) i l)).
Proof.
  induction name as [|b name IH]; intros acc p fuel c Hn Hp Hc Hs Hf body cond.
  - destruct fuel as [|n]; [cbn in Hf; lia|]. cbn [app] in Hs. split.
    + intros rest ->. cbn [while_]. eapply bind_Ok; [reflexivity|].
      cbn [fst]. destruct (c =? 0) eqn:E; [lia|]. cbn [negb].
      eapply bind_Ok.
      { unfold body. eapply bind_Ok; [apply (read1_byte _ _ _ _ _ _ _ Hs)|].
        reflexivity. }
      cbn. rewrite app_nil_r. rewrite Z.add_0_r. reflexivity.
    + intros ->. cbn [while_]. eapply bind_Ok; [reflexivity|].
      cbn [fst]. destruct (c =? 0) eqn:E; [lia|]. cbn [negb].
      apply bind_Raise. unfold body. apply bind_Raise.
      rewrite (read1_end _ _ _ _ _ Hs). cbn. rewrite Z.add_0_r. reflexivity.
  - destruct fuel as [|n]; [cbn in Hf; lia|]. cbn [app length] in Hs, Hf.
    inversion Hn as [|? ? Hb Hn']; subst.
    destruct (IH (acc ++ [b]) (p + 1) n (byte_val b) Hn' ltac:(lia) Hb
                (skipn_next _ _ _ _ Hp Hs) ltac:(lia)) as [IH1 IH2].
    assert (Hstep : forall r,
              while_ n cond body (byte_val b, acc ++ [b]) (mkState d o (p + 1) i l) = r ->
              while_ (S n) cond body (c, acc) (mkState d o p i l) = r).
    { intros r Hr. cbn [while_]. eapply bind_Ok; [reflexivity|].
      cbn [fst]. destruct (c =? 0) eqn:E; [lia|]. cbn [negb].
      eapply bind_Ok.
      { unfold body. eapply bind_Ok; [apply (read1_byte _ _ _ _ _ _ _ Hs)|].
        cbn beta zeta. destruct (byte_val b =? 0) eqn:E0; [lia|]. reflexivity. }
      exact Hr. }
    cbn [length]. rewrite Nat2Z.inj_succ. split.
    + intros rest Ht. apply Hstep.
      etransitivity; [exact (IH1 rest Ht)|].
      rewrite <- app_assoc. cbn [app]. do 2 f_equal. lia.
    + intros Ht. apply Hstep.
      etransitivity; [exact (IH2 Ht)|]. do 2 f_equal. lia.
Qed.

Lemma scan_string_found fuel d o p i l name rest :
  0 <= p ->
  skipn (Z.to_nat p) d = name ++ x00 :: rest ->
  no_nul name ->
  (length name < fuel)%nat ->
  scan_string fuel (mkState d o p i l)
  = Ok name (mkState d o (p + Z.of_nat (length name) + 1) i l).
Proof.
  intros Hp Hs Hn Hf.
  destruct (scan_string_loop d o i l (x00 :: rest) name [] p fuel 1 Hn Hp
              ltac:(lia) Hs Hf) as [H1 _].
  unfold scan_string. eapply bind_Ok; [apply (H1 rest eq_refl)|]. reflexivity.
Qed.

Lemma scan_string_unterminated fuel d o p i l name :
  0 <= p ->
  skipn (Z.to_nat p) d = name ->
  no_nul name ->
  (length name < fuel)%nat ->
  scan_string fuel (mkState d o p i l)
  = Raise IndexError (mkState d o (p + Z.of_nat (length name)) i l).
Proof.
  intros Hp Hs Hn Hf. rewrite <- (app_nil_r name) in Hs.
  destruct (scan_string_loop d o i l [] name [] p fuel 1 Hn Hp
              ltac:(lia) Hs Hf) as [_ H2].
  unfold scan_string. apply bind_Raise. apply (H2 eq_refl).
Qed.

(** X10: [scan_string] returns the bytes up to the first 0x00 and leaves
    the cursor just behind that terminator; when the file ends before any
    0x00, it raises [IndexError] with the cursor at the end of the file.
    [name] is the run of non-zero bytes at the cursor and [tail] what
    follows it. *)
Theorem scan_string_stops_at_nul_or_end
        (fuel : nat) d o (p : Z) i l (name tail : list byte) :
  0 <= p ->
  skipn (Z.to_nat p) d = name ++ tail ->
  no_nul name ->
  (length name < fuel)%nat ->
  (forall rest, tail = x00 :: rest ->
     scan_string fuel (mkState d o p i l)
     = Ok name (mkState d o (p + Z.of_nat (length name) + 1) i l)) /\
  (tail = [] ->
     scan_string fuel (mkState d o p i l)
     = Raise IndexError (mkState d o (p + Z.of_nat (length name)) i l)).
Proof.
  intros Hp Hs Hn Hf. split.
  - intros rest ->. eapply scan_string_found; eauto.
  - intros ->. rewrite app_nil_r in Hs. apply scan_string_unterminated; auto.
Qed.

Lemma scan_string_stops_at_nul_or_end_witness :
  scan_string 6 (mkState url_with_location true 4 1 [])
  = Ok (tag "a.mp4") (mkState url_with_location true 10 1 []) /\
  scan_string 6 (mkState (tag "a.mp4") true 0 1 [])
  = Raise IndexError (mkState (tag "a.mp4") true 5 1 []).
Proof.
  split.
  - exact (proj1 (scan_string_stops_at_nul_or_end 6 url_with_location true 4 1 []
                    (tag "a.mp4") (x00 :: tag "next")
                    ltac:(lia) eq_refl
                    ltac:(repeat constructor; vm_compute; discriminate)
                    ltac:(vm_compute; lia))
                 (tag "next") eq_refl).
  - exact (proj2 (scan_string_stops_at_nul_or_end 6 (tag "a.mp4") true 0 1 []
                    (tag "a.mp4") []
                    ltac:(lia) eq_refl
                    ltac:(repeat constructor; vm_compute; discriminate)
                    ltac:(vm_compute; lia))
                 eq_refl).
Defined.

(** ** Data references *)

(** X11: bit 0 of the flags decides whether [scan_url_] reads a location.
    With the bit set it prints that there is no location and consumes
    the four bytes of the prefix only; with the bit clear it reads the
    location up to its 0x00 and leaves the cursor behind the terminator. *)
Theorem url_location_follows_flag_bit
        (fuel : nat) (remaining : Z) d o (p : Z) i l :
  0 <= p -> p + 4 <= Z.of_nat (length d) ->
  let flags := Z.land (be_uint (bytes_at d p 4)) 16777215 in
  (Z.land flags 1 <> 0 ->
   exists s',
     scan_url_ fuel remaining (mkState d o p i l) = Ok tt s' /\
     pos s' = p + 4 /\
     last (out s') (PLine EmptyString [])
     = ILine (i + 1) "location = no location in URL" []) /\
  (Z.land flags 1 = 0 ->
   forall loc rest,
     skipn (Z.to_nat (p + 4)) d = loc ++ x00 :: rest ->
     no_nul loc -> (length loc < fuel)%nat ->
     exists s',
       scan_url_ fuel remaining (mkState d o p i l) = Ok tt s' /\
       pos s' = p + 4 + Z.of_nat (length loc) + 1 /\
       last (out s') (PLine EmptyString [])
       = ILine (i + 1) "location = '%s'" [AStr loc]).
Proof.
  intros Hp Hb flags. split.
  - intros Hbit. eexists. split; [|split].
    + unfold scan_url_. do 4 run1. fold flags.
      destruct (Z.land flags 1 =? 0) eqn:E; [apply Z.eqb_eq in E; lia|].
      cbn [negb]. run1. reflexivity.
    + reflexivity.
    + cbn [out set_indent]. apply last_last.
  - intros Hbit loc rest Hs Hn Hf. eexists. split; [|split].
    + unfold scan_url_. do 4 run1. fold flags.
      rewrite Hbit. cbn [Z.eqb negb]. rewrite bind_assoc.
      eapply bind_Ok; [apply (scan_string_found fuel _ _ _ _ _ loc rest); auto; lia|].
      run1. reflexivity.
    + reflexivity.
    + cbn [out set_indent]. apply last_last.
Qed.

Lemma url_location_follows_flag_bit_witness :
  (exists s',
     scan_url_ 6 4 (open_file url_self_contained) = Ok tt s' /\ pos s' = 0 + 4 /\
     last (out s') (PLine EmptyString [])
     = ILine (0 + 1) "location = no location in URL" []) /\
  (exists s',
     scan_url_ 6 10 (open_file url_with_location) = Ok tt s' /\
     pos s' = 0 + 4 + 5 + 1 /\
     last (out s') (PLine EmptyString [])
     = ILine (0 + 1) "location = '%s'" [AStr (tag "a.mp4")]).
Proof.
  split.
  - exact (proj1 (url_location_follows_flag_bit 6 4 url_self_contained true 0 0 []
                    ltac:(lia) ltac:(vm_compute; discriminate))
                 ltac:(vm_compute; discriminate)).
  - exact (proj2 (url_location_follows_flag_bit 6 10 url_with_location true 0 0 []
                    ltac:(lia) ltac:(vm_compute; discriminate))
                 ltac:(vm_compute; reflexivity)
                 (tag "a.mp4") (tag "next") eq_refl
                 ltac:(repeat constructor; vm_compute; discriminate)
                 ltac:(vm_compute; lia)).
Defined.

(** ** The brands of [ftyp] *)

Lemma brand_lines_succ d lvl p k :
  brand_lines d lvl p (S k)
  = ILine lvl "compat brand: '%s'" [AStr (bytes_at d p 4)]
    :: brand_lines d lvl (p + 4) k.
Proof.
  unfold brand_lines. cbn [seq map]. rewrite Z.mul_0_r, Z.add_0_r. f_equal.
  rewrite <- seq_shift, map_map. apply map_ext. intros j.
  replace (p + 4 * Z.of_nat (S j)) with (p + 4 + 4 * Z.of_nat j) by lia.
  reflexivity.
Qed.

Lemma ftyp_brands_run d o i : forall k rem p l fuel,
  k = Z.to_nat ((rem + 3) / 4) ->
  0 <= p -> p + 4 * Z.of_nat k <= Z.of_nat (length d) ->
  (k < fuel)%nat ->
  scan_ftyp_brands fuel rem (mkState d o p i l)
  = Ok (rem - 4 * Z.of_nat k)
       (mkState d o (p + 4 * Z.of_nat k) i (l ++ brand_lines d i p k)).
Proof.
  induction k as [|k IH]; intros rem p l fuel Hk Hp Hb Hf;
    (destruct fuel as [|n]; [lia|]); unfold scan_ftyp_brands; cbn [while_];
    pose proof (Z.div_mod (rem + 3) 4 ltac:(lia));
    pose proof (Z.mod_pos_bound (rem + 3) 4 ltac:(lia));
    pose proof (Z.div_mod (rem - 4 + 3) 4 ltac:(lia));
    pose proof (Z.mod_pos_bound (rem - 4 + 3) 4 ltac:(lia)).
  - eapply bind_Ok; [reflexivity|].
    assert (rem <= 0) by lia.
    destruct (0 <? rem) eqn:E; [apply Z.ltb_lt in E; lia|].
    unfold ret, brand_lines. cbn [seq map Z.of_nat].
    rewrite app_nil_r, Z.mul_0_r, Z.sub_0_r, Z.add_0_r. reflexivity.
  - eapply bind_Ok; [reflexivity|].
    assert (0 < rem) by lia.
    destruct (0 <? rem) eqn:E; [|apply Z.ltb_ge in E; lia].
    eapply bind_Ok.
    { run1. run1. reflexivity. }
    cbn beta iota.
    fold (scan_ftyp_brands n (rem - 4)
            (mkState d o (p + 4) i
               (l ++ [ILine i "compat brand: '%s'" [AStr (bytes_at d p 4)]]))).
    rewrite (IH (rem - 4) (p + 4)) by lia.
    rewrite brand_lines_succ, <- app_assoc. cbn [app].
    replace (rem - 4 * Z.of_nat (S k)) with (rem - 4 - 4 * Z.of_nat k) by lia.
    replace (p + 4 * Z.of_nat (S k)) with (p + 4 + 4 * Z.of_nat k) by lia.
    reflexivity.
Qed.

(** X12: [scan_ftyp] reads whole brands, whatever length it is given.  It
    always reads the 8 bytes of major brand and minor version, then one
    4-byte brand for every four bytes, or part of four bytes, of
    [remaining] beyond 8: with the bytes present in the file it returns
    with the cursor [8 + 4 * k] bytes further, [k] being that count,
    having printed the major brand, the minor version and [k] brands, so
    a payload length that is not 8 plus a multiple of 4, or is below 8,
    is overrun. *)
Theorem ftyp_reads_whole_brands (fuel : nat) (remaining : Z) d o (p : Z) i l :
  0 <= p -> 0 <= i ->
  let k := ftyp_brand_count remaining in
  p + 8 + 4 * Z.of_nat k <= Z.of_nat (length d) ->
  (k < fuel)%nat ->
  scan_ftyp fuel remaining (mkState d o p i l)
  = Ok tt (mkState d o (p + 8 + 4 * Z.of_nat k) i
             (l ++ ILine (i + 1) "major brand: '%s'" [AStr (bytes_at d p 4)]
                :: ILine (i + 1) "minor version: %u"
                     [AInt (be_uint (bytes_at d (p + 4) 4))]
                :: brand_lines d (i + 1) (p + 8) k)).
Proof.
  intros Hp Hi k Hb Hf. unfold scan_ftyp. do 5 run1.
  eapply bind_Ok.
  { apply (ftyp_brands_run d o (i + 1) k); try lia.
    unfold k, ftyp_brand_count. reflexivity. }
  unfold ipop. sst.
  destruct (0 <? i + 1) eqn:E; [|apply Z.ltb_ge in E; lia].
  replace (p + 4 + 4) with (p + 8) by lia.
  replace (i + 1 - 1) with i by lia.
  rewrite <- !app_assoc. reflexivity.
Qed.

Lemma ftyp_reads_whole_brands_witness :
  ftyp_brand_count 10 = 1%nat /\
  scan_ftyp 2 10 (mkState ftyp_declares_18 true 8 0 [])
  = Ok tt (mkState ftyp_declares_18 true (8 + 8 + 4 * 1) 0
             [ILine 1 "major brand: '%s'" [AStr (tag "isom")];
              ILine 1 "minor version: %u" [AInt 512];
              ILine 1 "compat brand: '%s'" [AStr (tag "mp41")]]).
Proof.
  split; [reflexivity|].
  exact (ftyp_reads_whole_brands 2 10 ftyp_declares_18 true 8 0 []
           ltac:(lia) ltac:(lia) ltac:(vm_compute; discriminate)
           ltac:(vm_compute; lia)).
Defined.

(** ** Edit lists *)

Lemma scan_int64_ok s :
  0 <= pos s -> pos s + 8 <= filesize s ->
  scan_int64 s = Ok (to_signed 8 (be_uint (bytes_at (data s) (pos s) 8)))
                    (set_pos s (pos s + 8)).
Proof. intros. apply (read_int_ok true 8); simpl; lia. Qed.

Ltac run2 :=
  first [ run1
        | lazymatch goal with
          | |- bind scan_int64 _ _ = _ => run_using scan_int64_ok
          end ].

Lemma elst_entry v j s :
  0 <= pos s ->
  pos s + (if v =? 1 then 20 else 12) <= filesize s ->
  exists s',
    (ipush ;;
     ' (segmentDuration, mediaTime) <-
         (if v =? 1 then
            d <- scan_uint64 ;; t <- scan_int64 ;; ret (d, t)
          else
            d <- scan_uint32 ;; t <- scan_int32 ;; ret (d, t)) ;;
     mediaRateInt <- scan_int16 ;;
     mediaRateFraction <- scan_int16 ;;
     iprint "entry: %d" [AInt j] ;;
     iprint "segmentDuration = %u" [AInt segmentDuration] ;;
     iprint "mediaTime = %d" [AInt mediaTime] ;;
     iprint "mediaRateInt = %d" [AInt mediaRateInt] ;;
     iprint "mediaRateFrac = %d" [AInt mediaRateFraction] ;;
     ipop) s = Ok tt s' /\
    pos s' = pos s + (if v =? 1 then 20 else 12) /\ data s' = data s.
Proof.
  intros Hp Hb. destruct s as [d o p i l]. sst.
  destruct (v =? 1);
    (eexists; split;
     [repeat run2; reflexivity | sst; split; [lia|reflexivity]]).
Qed.

Lemma elst_entries v : forall n j s,
  0 <= pos s ->
  pos s + Z.of_nat n * (if v =? 1 then 20 else 12) <= filesize s ->
  exists s',
    for_range n j (fun i =>
      ipush ;;
      ' (segmentDuration, mediaTime) <-
          (if v =? 1 then
             d <- scan_uint64 ;; t <- scan_int64 ;; ret (d, t)
           else
             d <- scan_uint32 ;; t <- scan_int32 ;; ret (d, t)) ;;
      mediaRateInt <- scan_int16 ;;
      mediaRateFraction <- scan_int16 ;;
      iprint "entry: %d" [AInt i] ;;
      iprint "segmentDuration = %u" [AInt segmentDuration] ;;
      iprint "mediaTime = %d" [AInt mediaTime] ;;
      iprint "mediaRateInt = %d" [AInt mediaRateInt] ;;
      iprint "mediaRateFrac = %d" [AInt mediaRateFraction] ;;
      ipop) s = Ok tt s' /\
    pos s' = pos s + Z.of_nat n * (if v =? 1 then 20 else 12) /\
    data s' = data s.
Proof.
  induction n as [|n IH]; intros j s Hp Hb.
  - exists s. cbn [for_range]. split; [reflexivity|]. split; [lia|reflexivity].
  - assert (He : 12 <= (if v =? 1 then 20 else 12)) by (destruct (v =? 1); lia).
    destruct (elst_entry v j s Hp ltac:(lia)) as (s1 & H1 & P1 & D1).
    destruct (IH (j + 1) s1) as (s2 & H2 & P2 & D2);
      [lia|unfold filesize in *; rewrite D1; lia|].
    exists s2. cbn [for_range]. split; [|split].
    + eapply bind_Ok; [exact H1|]. exact H2.
    + lia.
    + congruence.
Qed.

(** X13: [scan_elst] consumes the prefix, the entry count and
    [entryCount] entries of 12 bytes each, or 20 under version 1.  On a
    file that holds them, it returns with the cursor
    [8 + entryCount * 12] (or [* 20]) bytes further. *)
Theorem elst_consumes_its_entries (remaining : Z) (s : state) :
  0 <= pos s ->
  let entryCount := be_uint (bytes_at (data s) (pos s + 4) 4) in
  let width := if version_at s =? 1 then 20 else 12 in
  pos s + 8 + entryCount * width <= filesize s ->
  consumed (scan_elst remaining) s = Some (8 + entryCount * width).
Proof.
  intros Hp entryCount width Hb.
  assert (Hc : 0 <= entryCount).
  { pose proof (be_uint_range (bytes_at (data s) (pos s + 4) 4)). lia. }
  assert (Hw : 12 <= width) by (subst width; destruct (_ =? 1); lia).
  assert (H8 : pos s + 8 <= filesize s) by nia.
  unfold consumed, scan_elst. destruct s as [d o p i l].
  unfold version_at in *. sst. set (v := Z.land _ 255) in *.
  destruct (elst_entries v (Z.to_nat entryCount) 0
              (mkState d o (p + 8) (i + 1)
                 (((l ++ [ILine (i + 1) "version = %s" [AInt v]]) ++
                   [ILine (i + 1) "flags = 0x%x"
                      [AInt (Z.land (be_uint (bytes_at d p 4)) 16777215)]]) ++
                  [ILine (i + 1) "entryCount = %d" [AInt entryCount]])))
    as (s1 & H1 & P1 & D1); [sst; lia|sst; rewrite Z2Nat.id by lia; lia|].
  erewrite bind_Ok; [|reflexivity|].
  2:{ run1. unfold version_at. sst. fold v. do 4 run1.
      replace (p + 4 + 4) with (p + 8) by lia. fold entryCount.
      eapply bind_Ok; [exact H1|]. reflexivity. }
  unfold ipop. cbn [pos set_indent]. rewrite P1. cbn [pos].
  rewrite Z2Nat.id by lia. f_equal. subst width. lia.
Qed.

Lemma elst_consumes_its_entries_witness :
  consumed (scan_elst 32) (open_file elst_two_entries) = Some (8 + 2 * 12).
Proof.
  exact (elst_consumes_its_entries 32 (open_file elst_two_entries)
           ltac:(vm_compute; discriminate) ltac:(vm_compute; discriminate)).
Defined.

(** ** The small media headers *)

Lemma read_int_ok_3 s :
  0 <= pos s -> pos s + 6 <= filesize s ->
  scan_uint16_3 s
  = Ok (map be_uint (chunks 2 3 (bytes_at (data s) (pos s) 6)))
       (set_pos s (pos s + 6)).
Proof.
  intros Hp Hb. eapply bind_Ok.
  - apply file_read_ok; lia.
  - unfold unpack_ints. unfold filesize in Hb.
    rewrite bytes_at_length by lia. reflexivity.
Qed.

(** X14: the media-header decoders consume exactly their fixed layout.
    On a file that holds the bytes, [scan_vmhd] moves the cursor by 12
    bytes, [scan_smhd] by 8, [scan_hmhd] by 20 and [scan_nmhd] by 4,
    whatever payload length they are given. *)
Theorem media_headers_consume_fixed_layout (remaining : Z) (s : state) :
  0 <= pos s ->
  (pos s + 12 <= filesize s -> consumed (scan_vmhd remaining) s = Some 12) /\
  (pos s + 8 <= filesize s -> consumed (scan_smhd remaining) s = Some 8) /\
  (pos s + 20 <= filesize s -> consumed (scan_hmhd remaining) s = Some 20) /\
  (pos s + 4 <= filesize s -> consumed (scan_nmhd remaining) s = Some 4).
Proof.
  intros Hp. destruct s as [d o p i l]. unfold consumed. sst.
  repeat match goal with |- _ /\ _ => split end; intros Hb.
  - unfold scan_vmhd. erewrite bind_Ok; [|reflexivity|].
    2:{ eapply bind_Ok; [apply scan_fullbox_ok; sst; lia|]. sst.
        do 4 run1. eapply bind_Ok; [apply read_int_ok_3; sst; lia|].
        sst. run1. reflexivity. }
    unfold ipop. sst. f_equal. lia.
  - unfold scan_smhd. erewrite bind_Ok; [|reflexivity|].
    2:{ eapply bind_Ok; [apply scan_fullbox_ok; sst; lia|]. sst.
        repeat run1. reflexivity. }
    unfold ipop. sst. f_equal. lia.
  - unfold scan_hmhd. erewrite bind_Ok; [|reflexivity|].
    2:{ eapply bind_Ok; [apply scan_fullbox_ok; sst; lia|]. sst.
        repeat run1. reflexivity. }
    unfold ipop. sst. f_equal. lia.
  - unfold scan_nmhd. erewrite bind_Ok; [|reflexivity|].
    2:{ eapply bind_Ok; [apply scan_fullbox_ok; sst; lia|]. sst.
        repeat run1. reflexivity. }
    unfold ipop. sst. f_equal. lia.
Qed.

Lemma media_headers_consume_fixed_layout_witness :
  consumed (scan_smhd 8) (open_file smhd_unit_balance) = Some 8 /\
  consumed (scan_nmhd 8) (open_file smhd_unit_balance) = Some 4.
Proof.
  pose proof (media_headers_consume_fixed_layout 8 (open_file smhd_unit_balance)
                ltac:(vm_compute; discriminate)) as (_ & H2 & _ & H4).
  split; [apply H2|apply H4]; vm_compute; discriminate.
Defined.

(** ** Decoders on a truncated box *)

Lemma scan_fullbox_short remaining s :
  0 <= pos s -> filesize s < pos s + 4 ->
  scan_fullbox remaining s
  = Raise struct_error (set_pos s (Z.max (pos s) (filesize s))).
Proof.
  intros Hp Hb. unfold scan_fullbox. apply bind_Raise.
  apply (read_int_short false 4); simpl; lia.
Qed.

(** X15: a full-box decoder that cannot read its prefix raises and leaves
    the indentation one level deeper.  When fewer than 4 bytes are left,
    each of [scan_mvhd], [scan_tkhd], [scan_mdhd], [scan_hdlr],
    [scan_vmhd], [scan_smhd], [scan_hmhd], [scan_nmhd], [scan_url_],
    [scan_urn_], [scan_dref] and [scan_elst] raises [struct.error] after
    its [ipush] and before any [ipop]: nothing has been printed, [indent]
    is one more than at entry, and the cursor is at the end of the file
    (or where it was, beyond the end). *)
Theorem truncated_full_box_leaves_indent_pushed
        (f : method) (fuel : nat) (remaining : Z) (s : state) :
  is_full_box f = true ->
  0 <= pos s -> filesize s < pos s + 4 ->
  call f fuel remaining s
  = Raise struct_error
      (mkState (data s) (opened s) (Z.max (pos s) (filesize s))
               (indent s + 1) (out s)).
Proof.
  intros Hf Hp Hb.
  assert (H : forall r,
             scan_fullbox r (set_indent s (indent s + 1))
             = Raise struct_error
                 (mkState (data s) (opened s) (Z.max (pos s) (filesize s))
                    (indent s + 1) (out s))).
  { intros r. rewrite scan_fullbox_short by (sst; lia). reflexivity. }
  destruct f; try discriminate Hf; cbn [call];
    unfold scan_mvhd, scan_tkhd, scan_mdhd, scan_hdlr, scan_vmhd, scan_smhd,
      scan_hmhd, scan_nmhd, scan_url_, scan_urn_, scan_dref, scan_elst;
    (eapply bind_Ok; [reflexivity|]);
    first [ apply bind_Raise; apply H
          | eapply bind_Ok; [reflexivity|]; apply bind_Raise; apply H ].
Qed.

Lemma truncated_full_box_leaves_indent_pushed_witness :
  scan_mvhd 100 (mkState ftyp_then_3 true 20 0 [])
  = Raise struct_error (mkState ftyp_then_3 true 23 (0 + 1) []).
Proof.
  exact (truncated_full_box_leaves_indent_pushed m_scan_mvhd 0 100
           (mkState ftyp_then_3 true 20 0 []) eq_refl
           ltac:(vm_compute; discriminate) ltac:(reflexivity)).
Defined.

(** ** The byte dump *)

(** X16: [dumpBytes] rewinds.  From any valid file position it returns
    with the cursor, the file and [indent] as they were, having printed
    exactly three lines: the heading with the offset, the bytes in
    hexadecimal and the bytes as characters; the bytes shown are those
    [file.read] gives, so fewer than asked near the end of the file. *)
Theorem dumpBytes_restores_position (len : Z) (msg : list byte) (s : state) :
  0 <= pos s <= max_off ->
  exists bytes s1,
    file_read len s = Ok bytes s1 /\
    dumpBytes len msg s
    = Ok tt (mkState (data s) (opened s) (pos s) (indent s)
               (out s ++ dump_lines msg (pos s) bytes)).
Proof.
  intros Hp. destruct s as [d o p i l]. cbn [pos data opened indent out] in *.
  eexists _, _. split; [reflexivity|].
  unfold dumpBytes. eapply bind_Ok; [reflexivity|].
  eapply bind_Ok; [reflexivity|]. eapply bind_Ok; [reflexivity|].
  eapply bind_Ok; [reflexivity|]. eapply bind_Ok; [reflexivity|].
  unfold seek_set, emit, set_pos. cbn [pos data opened indent out].
  destruct (p <? - 2 ^ 63) eqn:E1; [apply Z.ltb_lt in E1; unfold max_off in *; lia|].
  destruct (max_off <? p) eqn:E2; [apply Z.ltb_lt in E2; lia|].
  destruct (p <? 0) eqn:E3; [apply Z.ltb_lt in E3; lia|].
  cbn [orb]. unfold dump_lines. rewrite <- !app_assoc. reflexivity.
Qed.

Lemma dumpBytes_restores_position_witness :
  dumpBytes 4 (tag "peek") (mkState ftyp_isom true 18 2 [])
  = Ok tt (mkState ftyp_isom true 18 2
             [PLine "*** %s, offset: 0x%x=%u" [AStr (tag "peek"); AInt 18; AInt 18];
              PLine "dump:  %02x %02x " [AInt 52; AInt 49];
              PLine "ascii: %c  %c  " [AChr 52; AChr 49]]).
Proof.
  destruct (dumpBytes_restores_position 4 (tag "peek")
              (mkState ftyp_isom true 18 2 [])
              ltac:(split; vm_compute; discriminate))
    as (bytes & s1 & Hr & H).
  rewrite H. vm_compute in Hr. inversion Hr; subst. vm_compute. reflexivity.
Defined.

(** ** Pascal strings *)

(** X17: [scan_string_len] reads back a Pascal string.  When the bytes at
    the cursor are a length byte with value [n] followed by at least [n]
    bytes, it returns exactly those [n] bytes and leaves the cursor
    behind them; at the end of the file it raises [IndexError]; and when
    fewer than [n] bytes follow, it returns the ones there are without
    raising. *)
Theorem scan_string_len_reads_counted_bytes d o (p : Z) i l :
  0 <= p ->
  (forall b str rest,
     skipn (Z.to_nat p) d = b :: str ++ rest ->
     Z.of_nat (length str) = byte_val b ->
     scan_string_len (mkState d o p i l)
     = Ok str (mkState d o (p + 1 + Z.of_nat (length str)) i l)) /\
  (forall b str,
     skipn (Z.to_nat p) d = b :: str ->
     Z.of_nat (length str) <= byte_val b ->
     scan_string_len (mkState d o p i l)
     = Ok str (mkState d o (p + 1 + Z.of_nat (length str)) i l)) /\
  (skipn (Z.to_nat p) d = [] ->
   scan_string_len (mkState d o p i l)
   = Raise IndexError (mkState d o p i l)).
Proof.
  intros Hp.
  assert (G : forall b tail,
             skipn (Z.to_nat p) d = b :: tail ->
             scan_string_len (mkState d o p i l)
             = Ok (firstn (Z.to_nat (byte_val b)) tail)
                  (mkState d o
                     (p + 1 + Z.of_nat (length (firstn (Z.to_nat (byte_val b)) tail)))
                     i l)).
  { intros b tail Hs. unfold scan_string_len.
    eapply bind_Ok; [apply (read1_byte _ _ _ _ _ _ _ Hs)|].
    unfold file_read. cbn [pos data].
    pose proof (byte_val_range b) as Hr.
    destruct (byte_val b <? 0) eqn:E; [apply Z.ltb_lt in E; lia|].
    rewrite (skipn_next _ _ _ _ Hp Hs). reflexivity. }
  split; [|split].
  - intros b str rest Hs Hl. rewrite (G _ _ Hs).
    replace (Z.to_nat (byte_val b)) with (length str) by lia.
    rewrite firstn_app, Nat.sub_diag, firstn_all. cbn [firstn].
    rewrite app_nil_r. reflexivity.
  - intros b str Hs Hl. rewrite (G _ _ Hs).
    rewrite firstn_all2 by lia. reflexivity.
  - intros Hs. unfold scan_string_len. apply bind_Raise.
    apply read1_end. exact Hs.
Qed.

Lemma scan_string_len_reads_counted_bytes_witness :
  scan_string_len (open_file (pascal (tag "GoPro") ++ tag "rest"))
  = Ok (tag "GoPro")
       (mkState (pascal (tag "GoPro") ++ tag "rest") true (0 + 1 + 5) 0 []).
Proof.
  exact (proj1 (scan_string_len_reads_counted_bytes
                  (pascal (tag "GoPro") ++ tag "rest") true 0 0 [] ltac:(lia))
               (byte_of_Z 5) (tag "GoPro") (tag "rest") eq_refl eq_refl).
Defined.

(** ** Containers whose children are only skipped *)

Lemma tiles_le d e p n : tiles d e p n -> p <= e.
Proof. induction 1; lia. Qed.

Lemma walk_over_tiles d e dispatch :
  (forall boxtype skip, dispatch boxtype skip = seek_cur skip) ->
  e <= Z.of_nat (length d) -> Z.of_nat (length d) <= max_off ->
  forall p n, tiles d e p n -> 0 <= p ->
  forall fuel o i l, (n < fuel)%nat ->
  exists lines,
    walk fuel e dispatch (mkState d o p i l)
    = Ok tt (mkState d o e i (l ++ lines)) /\
    length lines = n /\
    Forall (fun ln => exists bt bs,
              ln = ILine i "Box Found: '%s' of length %u" [AStr bt; AInt bs])
           lines.
Proof.
  intros Hd He Hm p n Ht.
  induction Ht as [|p boxsize boxtype skip hdr n Hsz Hbox Ht IH];
    intros Hp fuel o i l Hf; (destruct fuel as [|k]; [lia|]).
  - exists []. split; [|split; [reflexivity|constructor]].
    unfold walk. cbn [while_]. eapply bind_Ok; [reflexivity|]. cbn [pos].
    rewrite Z.ltb_irrefl. rewrite app_nil_r. reflexivity.
  - pose proof (tiles_le _ _ _ _ Ht) as Hle.
    destruct (scan_box_inv _ _ _ _ _ (Hbox o i l)) as (h & Hh & Hs1 & Hbs).
    assert (Hhdr : hdr = h).
    { apply (f_equal pos) in Hs1. cbn [pos set_pos] in Hs1. lia. }
    subst h.
    destruct (IH ltac:(lia) k o i
                (l ++ [ILine i "Box Found: '%s' of length %u"
                         [AStr boxtype; AInt boxsize]]) ltac:(lia))
      as (lines & Hrun & Hlen & Hall).
    exists (ILine i "Box Found: '%s' of length %u" [AStr boxtype; AInt boxsize]
            :: lines).
    split; [|split].
    + unfold walk in *. cbn [while_]. eapply bind_Ok; [reflexivity|]. cbn [pos].
      replace (p <? e) with true by (symmetry; apply Z.ltb_lt; lia).
      eapply bind_Ok.
      { unfold walk_iter. eapply bind_Ok.
        - unfold catch_EOFError. rewrite Hbox. reflexivity.
        - cbn beta iota. run1. rewrite Hd. run1. reflexivity. }
      cbn beta iota. replace (p + hdr + skip) with (p + boxsize) by lia.
      rewrite Hrun. rewrite <- app_assoc. reflexivity.
    + cbn [length]. lia.
    + constructor; [eauto|exact Hall].
Qed.

(** X18: [scan_udta] and [scan_stbl] walk their children from the first
    to the last.  When the payload of [remaining] bytes lies within the
    file and is made of [n] boxes of positive size that follow one
    another and end exactly at its end, the method returns (given fuel
    above [n]) with the cursor at the end of the payload and [indent]
    restored, having printed exactly [n] [Box Found] lines, one level
    deeper, and nothing else. *)
Theorem skipping_containers_visit_each_child
        (fuel : nat) d o (p remaining : Z) i l (n : nat) :
  tiles d (p + remaining) p n ->
  0 <= p -> p + remaining <= Z.of_nat (length d) ->
  Z.of_nat (length d) <= max_off -> 0 <= i -> (n < fuel)%nat ->
  exists lines,
    length lines = n /\
    Forall (fun ln => exists bt bs,
              ln = ILine (i + 1) "Box Found: '%s' of length %u"
                     [AStr bt; AInt bs]) lines /\
    scan_udta fuel remaining (mkState d o p i l)
    = Ok tt (mkState d o (p + remaining) i (l ++ lines)) /\
    scan_stbl fuel remaining (mkState d o p i l)
    = Ok tt (mkState d o (p + remaining) i (l ++ lines)).
Proof.
  intros Ht Hp He Hm Hi Hf.
  destruct (walk_over_tiles d (p + remaining) udta_dispatch
              ltac:(reflexivity) He Hm p n Ht Hp fuel o (i + 1) l Hf)
    as (lines & Hrun & Hlen & Hall).
  exists lines. split; [exact Hlen|]. split; [exact Hall|].
  assert (Hpop : ipop (mkState d o (p + remaining) (i + 1) (l ++ lines))
                 = Ok tt (mkState d o (p + remaining) i (l ++ lines))).
  { unfold ipop, set_indent. cbn [data opened pos indent out].
    destruct (0 <? i + 1) eqn:E; [|apply Z.ltb_ge in E; lia].
    replace (i + 1 - 1) with i by lia. reflexivity. }
  split.
  - unfold scan_udta. run1. run1. eapply bind_Ok; [exact Hrun|]. exact Hpop.
  - unfold scan_stbl. run1. run1.
    eapply bind_Ok; [exact Hrun|]. exact Hpop.
Qed.

Lemma udta_two_children_tiles : tiles udta_two_children (0 + 20) 0 2.
Proof.
  apply (tiles_next _ _ 0 12 (tag "name") 4 8 1);
    [lia|intros; vm_compute; reflexivity|].
  apply (tiles_next _ _ (0 + 12) 8 (tag "free") 0 8 0);
    [lia|intros; vm_compute; reflexivity|].
  exact (tiles_done udta_two_children 20).
Defined.

Lemma skipping_containers_visit_each_child_witness :
  tiles udta_two_children (0 + 20) 0 2 /\
  exists lines,
    length lines = 2%nat /\
    scan_udta 3 20 (open_file udta_two_children)
    = Ok tt (mkState udta_two_children true (0 + 20) 0 ([] ++ lines)).
Proof.
  split; [exact udta_two_children_tiles|].
  destruct (skipping_containers_visit_each_child 3 udta_two_children true 0 20
              0 [] 2 udta_two_children_tiles
              ltac:(lia) ltac:(vm_compute; discriminate)
              ltac:(vm_compute; discriminate) ltac:(lia) ltac:(lia))
    as (lines & Hlen & _ & Hu & _).
  exists lines. split; [exact Hlen|exact Hu].
Defined.

(** ** An [hdlr] payload shorter than its fixed fields *)




(** * The scan of a valid file *)

(** ** The header as the format has it and as [scan_box] resolves it *)

Lemma box_header_inv d p size typ hdr :
  box_header d p = Some (size, typ, hdr) ->
  (hdr = 8 \/ hdr = 16) /\ p + hdr <= Z.of_nat (length d).
Proof.
  unfold box_header.
  destruct (Z.of_nat (length d) <? p + 8) eqn:E8; [discriminate|].
  apply Z.ltb_ge in E8.
  destruct (be_uint (bytes_at d p 4) =? 1).
  - destruct (Z.of_nat (length d) <? p + 16) eqn:E16; [discriminate|].
    apply Z.ltb_ge in E16. intros H; inversion H; subst. split; [now right|lia].
  - destruct (be_uint (bytes_at d p 4) =? 0);
      intros H; inversion H; subst; (split; [now left|lia]).
Qed.

Lemma scan_box_header s size typ hdr :
  box_header (data s) (pos s) = Some (size, typ, hdr) ->
  0 <= pos s ->
  scan_box s = Ok (size, typ, size - hdr) (set_pos s (pos s + hdr)).
Proof.
  destruct s as [d o p i l]. cbn [data pos]. unfold box_header, set_pos.
  cbn [data opened pos indent out].
  destruct (Z.of_nat (length d) <? p + 8) eqn:E8; [discriminate|].
  apply Z.ltb_ge in E8. intros H Hp.
  destruct (be_uint (bytes_at d p 4) =? 1) eqn:E1.
  - destruct (Z.of_nat (length d) <? p + 16) eqn:E16; [discriminate|].
    apply Z.ltb_ge in E16. apply Z.eqb_eq in E1.
    inversion H; subst. apply scan_box_ext; auto.
  - destruct (be_uint (bytes_at d p 4) =? 0) eqn:E0.
    + apply Z.eqb_eq in E0. inversion H; subst.
      rewrite scan_box_rest by auto. reflexivity.
    + apply Z.eqb_neq in E1. apply Z.eqb_neq in E0. inversion H; subst.
      apply scan_box_plain; auto.
Qed.

(** ** The full-box prefix as bytes and as the word [scan_fullbox] splits *)

Lemma be_uint_app x y :
  be_uint (x ++ y) = be_uint x * 256 ^ Z.of_nat (length y) + be_uint y.
Proof.
  unfold be_uint. rewrite fold_left_app.
  generalize (fold_left (fun acc b => acc * 256 + byte_val b) x 0).
  induction y as [|b y IH] using rev_ind; intros acc.
  - cbn. lia.
  - rewrite !fold_left_app. cbn [fold_left]. rewrite IH.
    rewrite length_app. cbn [length]. rewrite Nat2Z.inj_add.
    rewrite Z.pow_add_r by lia. change (256 ^ Z.of_nat 1) with 256. lia.
Qed.

Lemma firstn_plus {A} (n m : nat) : forall l : list A,
  firstn (n + m) l = firstn n l ++ firstn m (skipn n l).
Proof.
  induction n as [|n IH]; intros l; [reflexivity|].
  destruct l as [|x l]; cbn [Nat.add firstn skipn app].
  - rewrite firstn_nil. reflexivity.
  - rewrite IH. reflexivity.
Qed.

Lemma bytes_at_split d a n m :
  0 <= a -> 0 <= n -> 0 <= m ->
  bytes_at d a (n + m) = bytes_at d a n ++ bytes_at d (a + n) m.
Proof.
  intros Ha Hn Hm. unfold bytes_at.
  rewrite !Z2Nat.inj_add by lia.
  rewrite firstn_plus, skipn_skipn.
  rewrite (Nat.add_comm (Z.to_nat n)). reflexivity.
Qed.

Lemma prefix_fields d a :
  0 <= a -> a + 4 <= Z.of_nat (length d) ->
  let w := be_uint (bytes_at d a 4) in
  Z.land (Z.shiftr w 24) 255 = be_uint (bytes_at d a 1) /\
  Z.land w 16777215 = be_uint (bytes_at d (a + 1) 3).
Proof.
  intros Ha Hb w.
  assert (Hw : w = be_uint (bytes_at d a 1) * 2 ^ 24 + be_uint (bytes_at d (a + 1) 3)).
  { subst w. change 4 with (1 + 3). rewrite bytes_at_split by lia.
    rewrite be_uint_app, bytes_at_length by lia. reflexivity. }
  pose proof (be_uint_range (bytes_at d a 1)) as H1.
  pose proof (be_uint_range (bytes_at d (a + 1) 3)) as H3.
  rewrite bytes_at_length in H1 by lia. rewrite bytes_at_length in H3 by lia.
  change (256 ^ Z.of_nat (Z.to_nat 1)) with 256 in H1.
  change (256 ^ Z.of_nat (Z.to_nat 3)) with (2 ^ 24) in H3.
  assert (Hr : 0 <= w < 2 ^ 32) by lia.
  destruct (split_verflags w Hr) as (Hv & Hf & Hsum).
  cbv zeta in Hv, Hf, Hsum.
  set (v := Z.land (Z.shiftr w 24) 255) in *.
  set (f := Z.land w 16777215) in *.
  assert (v = be_uint (bytes_at d a 1)) by nia.
  split; [assumption|nia].
Qed.

Lemma version_at_byte s :
  0 <= pos s -> pos s + 4 <= filesize s ->
  version_at s = be_uint (bytes_at (data s) (pos s) 1).
Proof.
  intros Hp Hb. unfold version_at. apply prefix_fields; unfold filesize in *; lia.
Qed.

(** ** Strings that fill their bytes *)

Lemma byte_val_zero b : byte_val b = 0 -> b = x00.
Proof.
  unfold byte_val. intros H.
  assert (E : Byte.to_N b = 0%N) by lia.
  pose proof (Byte.of_to_N b) as Hb. rewrite E in Hb. cbn in Hb. congruence.
Qed.

Lemma nul_index_split bs n :
  nul_index bs = Some n ->
  exists name rest,
    bs = name ++ x00 :: rest /\ no_nul name /\ length name = n.
Proof.
  revert n. induction bs as [|b bs IH]; intros n H; [discriminate|].
  cbn [nul_index] in H. destruct (byte_val b =? 0) eqn:E.
  - apply Z.eqb_eq in E. apply byte_val_zero in E. subst b.
    inversion H; subst. exists [], bs. repeat split. constructor.
  - destruct (nul_index bs) as [m|]; [|discriminate].
    inversion H; subst. destruct (IH m eq_refl) as (name & rest & -> & Hn & Hl).
    exists (b :: name), rest. split; [reflexivity|]. split.
    + constructor; [apply Z.eqb_neq; exact E|exact Hn].
    + cbn [length]. lia.
Qed.

Lemma cstring_split bs :
  cstring bs = true ->
  exists name, bs = name ++ [x00] /\ no_nul name.
Proof.
  unfold cstring. destruct (nul_index bs) as [n|] eqn:E; [|discriminate].
  intros H. apply Nat.eqb_eq in H.
  destruct (nul_index_split bs n E) as (name & rest & -> & Hn & Hl).
  rewrite length_app in H. cbn [length] in H.
  destruct rest; [|cbn [length] in H; lia].
  exists name. auto.
Qed.

Lemma two_cstrings_split bs :
  two_cstrings bs = true ->
  exists name loc,
    bs = name ++ x00 :: loc ++ [x00] /\ no_nul name /\ no_nul loc.
Proof.
  unfold two_cstrings. destruct (nul_index bs) as [n|] eqn:E; [|discriminate].
  intros H.
  destruct (nul_index_split bs n E) as (name & rest & -> & Hn & Hl).
  replace (S n) with (length (name ++ [x00]))%nat in H
    by (rewrite length_app; cbn; lia).
  replace (name ++ x00 :: rest) with ((name ++ [x00]) ++ rest) in H
    by (rewrite <- app_assoc; reflexivity).
  rewrite skipn_app, Nat.sub_diag, skipn_all in H. cbn [app skipn] in H.
  destruct (cstring_split rest H) as (loc & -> & Hloc).
  exists name, loc. auto.
Qed.

(** The bytes of a payload, seen from the cursor. *)
Lemma skipn_bytes_at d a n :
  0 <= a -> 0 <= n ->
  skipn (Z.to_nat a) d
  = bytes_at d a n ++ skipn (Z.to_nat (a + n)) d.
Proof.
  intros Ha Hn. unfold bytes_at.
  rewrite Z2Nat.inj_add by lia. rewrite Nat.add_comm, <- skipn_skipn.
  symmetry. apply firstn_skipn.
Qed.

(** ** Each layout is what its decoder consumes *)

Ltac bool_hyps :=
  repeat match goal with
  | H : (_ && _)%bool = true |- _ => apply andb_prop in H; destruct H
  | H : (_ || _)%bool = true |- _ => apply orb_prop in H; destruct H
  | H : (_ =? _) = true |- _ => apply Z.eqb_eq in H
  | H : (_ <=? _) = true |- _ => apply Z.leb_le in H
  end.

Section Layouts.

Variable d : list byte.
Hypothesis d_fits : Z.of_nat (length d) <= max_off.

Variables (a len : Z) (s : state).
Hypothesis a_pos : 0 <= a.
Hypothesis in_file_bytes : a + len <= Z.of_nat (length d).
Hypothesis s_data : data s = d.
Hypothesis s_pos : pos s = a.
Hypothesis s_indent : 0 <= indent s.

Lemma opaque_consumed :
  0 <= len ->
  exists s', seek_cur len s = Ok tt s' /\ pos s' = a + len.
Proof.
  intros Hl. eexists. split.
  - apply seek_cur_ok; unfold max_off in *; lia.
  - cbn [pos set_pos]. lia.
Qed.

Lemma ftyp_consumed fuel :
  layout d c_ftyp a len = true -> (length d < fuel)%nat ->
  exists s', scan_ftyp fuel len s = Ok tt s' /\ pos s' = a + len.
Proof.
  cbn [layout]. intros H Hf. bool_hyps.
  pose proof (Z.div_mod (len - 8) 4 ltac:(lia)) as Hq.
  pose proof (Z.div_mod (len - 8 + 3) 4 ltac:(lia)) as Hq3.
  pose proof (Z.mod_pos_bound (len - 8 + 3) 4 ltac:(lia)) as Hr3.
  set (k := Z.to_nat ((len - 8 + 3) / 4)).
  assert (Hk : 4 * Z.of_nat k = len - 8) by (subst k; lia).
  destruct s as [d0 o p i l]. cbn [data pos indent] in *. subst d0 p.
  eexists. split.
  - unfold scan_ftyp. do 5 run1.
    eapply bind_Ok.
    { apply (ftyp_brands_run d o (i + 1) k); try lia; reflexivity. }
    reflexivity.
  - cbn [pos set_indent]. lia.
Qed.

Lemma versioned_extra base :
  versioned (be_uint (bytes_at d a 1)) len base = true -> 4 <= base ->
  len = base + (if version_at s =? 1 then 3 * 4 else 0).
Proof.
  unfold versioned. intros H Hb. bool_hyps.
  - rewrite version_at_byte by (unfold filesize; rewrite ?s_data, ?s_pos; lia).
    rewrite s_data, s_pos, H. cbn. lia.
  - rewrite version_at_byte by (unfold filesize; rewrite ?s_data, ?s_pos; lia).
    rewrite s_data, s_pos, H. cbn. lia.
Qed.

Lemma mvhd_consumed :
  layout d c_mvhd a len = true ->
  exists s', scan_mvhd len s = Ok tt s' /\ pos s' = a + len.
Proof.
  cbn [layout]. intros H. apply versioned_extra in H; [|lia].
  destruct (scan_mvhd_consumes len s) as (s' & E & P);
    try (unfold filesize; rewrite ?s_data, ?s_pos; lia).
  exists s'. split; [exact E|lia].
Qed.

Lemma tkhd_consumed :
  layout d c_tkhd a len = true ->
  exists s', scan_tkhd len s = Ok tt s' /\ pos s' = a + len.
Proof.
  cbn [layout]. intros H. apply versioned_extra in H; [|lia].
  destruct (scan_tkhd_consumes len s) as (s' & E & P);
    try (unfold filesize; rewrite ?s_data, ?s_pos; lia).
  exists s'. split; [exact E|lia].
Qed.

Lemma mdhd_consumed :
  layout d c_mdhd a len = true ->
  exists s', scan_mdhd len s = Ok tt s' /\ pos s' = a + len.
Proof.
  cbn [layout]. intros H. apply versioned_extra in H; [|lia].
  destruct (scan_mdhd_consumes len s) as (s' & E & P);
    try (unfold filesize; rewrite ?s_data, ?s_pos; lia).
  exists s'. split; [exact E|lia].
Qed.

Lemma hdlr_consumed :
  layout d c_hdlr a len = true ->
  exists s', scan_hdlr len s = Ok tt s' /\ pos s' = a + len.
Proof.
  cbn [layout]. intros H. bool_hyps.
  destruct (scan_hdlr_reads_to_endpos len s) as (s' & E & P & _);
    try (unfold filesize; rewrite ?s_data, ?s_pos; lia).
  exists s'. split; [exact E|lia].
Qed.

Ltac on_state :=
  destruct s as [d0 o p i l]; cbn [data pos indent] in *; subst d0 p.

Lemma vmhd_consumed :
  layout d c_vmhd a len = true ->
  exists s', scan_vmhd len s = Ok tt s' /\ pos s' = a + len.
Proof.
  cbn [layout]. intros H. bool_hyps. on_state.
  eexists. split.
  - unfold scan_vmhd. do 6 run1.
    eapply bind_Ok; [apply read_int_ok_3; sst; lia|]. sst. run1. reflexivity.
  - cbn [pos set_indent]. lia.
Qed.

Lemma smhd_consumed :
  layout d c_smhd a len = true ->
  exists s', scan_smhd len s = Ok tt s' /\ pos s' = a + len.
Proof.
  cbn [layout]. intros H. bool_hyps. on_state.
  eexists. split.
  - unfold scan_smhd. repeat run1. reflexivity.
  - cbn [pos set_indent]. lia.
Qed.

Lemma hmhd_consumed :
  layout d c_hmhd a len = true ->
  exists s', scan_hmhd len s = Ok tt s' /\ pos s' = a + len.
Proof.
  cbn [layout]. intros H. bool_hyps. on_state.
  eexists. split.
  - unfold scan_hmhd. repeat run1. reflexivity.
  - cbn [pos set_indent]. lia.
Qed.

Lemma nmhd_consumed :
  layout d c_nmhd a len = true ->
  exists s', scan_nmhd len s = Ok tt s' /\ pos s' = a + len.
Proof.
  cbn [layout]. intros H. bool_hyps. on_state.
  eexists. split.
  - unfold scan_nmhd. repeat run1. reflexivity.
  - cbn [pos set_indent]. lia.
Qed.

Lemma flag_bit_odd f : (Z.land f 1 =? 0) = negb (Z.odd f).
Proof.
  change 1 with (Z.ones 1). rewrite Z.land_ones by lia.
  change (2 ^ 1) with 2. rewrite Zmod_odd. destruct (Z.odd f); reflexivity.
Qed.

Lemma url_consumed fuel :
  layout d c_url a len = true -> (length d < fuel)%nat ->
  exists s', scan_url_ fuel len s = Ok tt s' /\ pos s' = a + len.
Proof.
  cbn [layout]. intros H Hf.
  destruct (Z.odd (be_uint (bytes_at d (a + 1) 3))) eqn:Eo.
  - bool_hyps. on_state.
    destruct (prefix_fields d a a_pos ltac:(lia)) as [_ Hfl]. cbv zeta in Hfl.
    eexists. split.
    + unfold scan_url_. do 4 run1. rewrite Hfl, flag_bit_odd, Eo. cbn [negb].
      run1. reflexivity.
    + cbn [pos set_indent]. lia.
  - bool_hyps. on_state.
    destruct (prefix_fields d a a_pos ltac:(lia)) as [_ Hfl]. cbv zeta in Hfl.
    match goal with H : cstring _ = true |- _ =>
      destruct (cstring_split _ H) as (loc & Hloc & Hn) end.
    pose proof (bytes_at_length d (a + 4) (len - 4) ltac:(lia) ltac:(lia) ltac:(lia))
      as Hlen.
    rewrite Hloc, length_app in Hlen. cbn [length] in Hlen.
    pose proof (skipn_bytes_at d (a + 4) (len - 4) ltac:(lia) ltac:(lia)) as Hs.
    rewrite Hloc, <- app_assoc in Hs. cbn [app] in Hs.
    eexists. split.
    + unfold scan_url_. do 4 run1. rewrite Hfl, flag_bit_odd, Eo. cbn [negb].
      rewrite bind_assoc.
      eapply bind_Ok;
        [apply (scan_string_found fuel d _ (a + 4) _ _ loc _ ltac:(lia) Hs Hn); lia|].
      run1. reflexivity.
    + cbn [pos set_indent]. lia.
Qed.

Lemma urn_consumed fuel :
  layout d c_urn a len = true -> (length d < fuel)%nat ->
  exists s', scan_urn_ fuel len s = Ok tt s' /\ pos s' = a + len.
Proof.
  cbn [layout]. intros H Hf. bool_hyps. on_state.
  match goal with H : two_cstrings _ = true |- _ =>
    destruct (two_cstrings_split _ H) as (name & loc & Hb & Hn & Hl) end.
  pose proof (bytes_at_length d (a + 4) (len - 4) ltac:(lia) ltac:(lia) ltac:(lia))
    as Hlen.
  rewrite Hb, length_app in Hlen. cbn [length] in Hlen.
  rewrite length_app in Hlen. cbn [length] in Hlen.
  pose proof (skipn_bytes_at d (a + 4) (len - 4) ltac:(lia) ltac:(lia)) as Hs.
  rewrite Hb, <- app_assoc in Hs. cbn [app] in Hs.
  assert (Hs2 : skipn (Z.to_nat (a + 4 + Z.of_nat (length name) + 1)) d
                = loc ++ x00 :: skipn (Z.to_nat (a + 4 + (len - 4))) d).
  { replace (Z.to_nat (a + 4 + Z.of_nat (length name) + 1))
      with (length (name ++ [x00]) + Z.to_nat (a + 4))%nat
      by (rewrite length_app; cbn [length]; lia).
    rewrite <- skipn_skipn, Hs.
    replace (name ++ x00 :: (loc ++ [x00]) ++ skipn (Z.to_nat (a + 4 + (len - 4))) d)
      with ((name ++ [x00]) ++ (loc ++ [x00]) ++ skipn (Z.to_nat (a + 4 + (len - 4))) d)
      by (rewrite <- app_assoc; reflexivity).
    rewrite skipn_app, Nat.sub_diag, skipn_all. cbn [app skipn].
    rewrite <- app_assoc. reflexivity. }
  eexists. split.
  - unfold scan_urn_. do 4 run1.
    eapply bind_Ok;
      [apply (scan_string_found fuel d _ (a + 4) _ _ name _ ltac:(lia) Hs Hn); lia|].
    run1.
    eapply bind_Ok;
      [apply (scan_string_found fuel d _ (a + 4 + Z.of_nat (length name) + 1) _ _
                 loc _ ltac:(lia) Hs2 Hl); lia|].
    run1. reflexivity.
  - cbn [pos set_indent]. lia.
Qed.

Lemma elst_consumed :
  layout d c_elst a len = true ->
  exists s', scan_elst len s = Ok tt s' /\ pos s' = a + len.
Proof.
  cbn [layout]. intros H.
  apply andb_prop in H as [H8 H]. apply Z.leb_le in H8.
  set (count := be_uint (bytes_at d (a + 4) 4)) in *.
  assert (Hc : 0 <= count)
    by (pose proof (be_uint_range (bytes_at d (a + 4) 4)); subst count; lia).
  destruct (prefix_fields d a a_pos ltac:(lia)) as [Hver _]. cbv zeta in Hver.
  on_state.
  set (v := Z.land (Z.shiftr (be_uint (bytes_at d a 4)) 24) 255) in *.
  assert (Hw : len = 8 + Z.of_nat (Z.to_nat count) * (if v =? 1 then 20 else 12)).
  { rewrite Z2Nat.id by lia. rewrite Hver. bool_hyps;
      match goal with E : be_uint _ = _ |- _ => rewrite E end;
      cbn [Z.eqb Pos.eqb]; lia. }
  destruct (elst_entries v (Z.to_nat count) 0
              (mkState d o (a + 8) (i + 1)
                 (((l ++ [ILine (i + 1) "version = %s" [AInt v]]) ++
                   [ILine (i + 1) "flags = 0x%x"
                      [AInt (Z.land (be_uint (bytes_at d a 4)) 16777215)]]) ++
                  [ILine (i + 1) "entryCount = %d" [AInt count]])))
    as (s1 & H1 & P1 & D1); [sst; lia|sst; lia|].
  eexists. split.
  - unfold scan_elst. run1. run1. unfold version_at. sst. fold v. do 4 run1.
    replace (a + 4 + 4) with (a + 8) by lia. fold count.
    eapply bind_Ok; [exact H1|]. reflexivity.
  - unfold ipop. cbn [pos set_indent]. rewrite P1. cbn [pos]. lia.
Qed.

End Layouts.

(** ** The call chosen for a box *)

Lemma levels_Ok {A} b i (m : M A) s a s' :
  levels b i i m -> 0 <= i -> indent s = i -> m s = Ok a s' ->
  data s' = data s /\ opened s' = opened s /\ indent s' = indent s /\
  exists l, out s' = out s ++ l /\ Forall (deeper b) l.
Proof.
  intros Hl Hi Hs E. specialize (Hl Hi s Hs). rewrite E in Hl.
  destruct Hl as (Hj & _ & Hd & Ho & l & Hout & Hdeep).
  repeat split; try congruence. exists l. auto.
Qed.

Lemma dispatch_of_levels k fuel typ skip i :
  levels (i + 1) i i (dispatch_of k fuel typ skip).
Proof.
  apply levels_intro; intros Hi.
  destruct k; cbn [dispatch_of];
    unfold scan_dispatch, moov_dispatch, trak_dispatch, mdia_dispatch,
      minf_dispatch, dinf_dispatch, dref_dispatch, stbl_dispatch,
      edts_dispatch, udta_dispatch; lv.
Qed.

(** Case analysis on the tag, in the order of the chain. *)
Ltac tag_case :=
  match goal with
  | |- context [bytes_eqb ?t (tag ?n)] =>
      destruct (bytes_eqb t (tag n)); cbv iota
  end.

Ltac unfold_dispatch :=
  cbn [content_of dispatch_of];
  unfold scan_dispatch, moov_dispatch, trak_dispatch, mdia_dispatch,
    minf_dispatch, dinf_dispatch, dref_dispatch, stbl_dispatch,
    edts_dispatch, udta_dispatch.

Lemma leaf_dispatched d k typ a len :
  layout d (content_of k typ) a len = true ->
  0 <= a -> 0 <= len -> a + len <= Z.of_nat (length d) ->
  Z.of_nat (length d) <= max_off ->
  dispatched d k typ len a.
Proof.
  intros H Ha Hl Hb Hm. exists (S (length d)).
  intros fuel Hf s Hd Hp Hi. revert H.
  destruct k; unfold_dispatch; repeat tag_case; intros H;
    try discriminate H;
    first
      [ eapply opaque_consumed; eassumption
      | eapply ftyp_consumed; solve [eassumption | lia]
      | eapply mvhd_consumed; eassumption
      | eapply tkhd_consumed; eassumption
      | eapply mdhd_consumed; eassumption
      | eapply hdlr_consumed; eassumption
      | eapply vmhd_consumed; eassumption
      | eapply smhd_consumed; eassumption
      | eapply hmhd_consumed; eassumption
      | eapply nmhd_consumed; eassumption
      | eapply url_consumed; solve [eassumption | lia]
      | eapply urn_consumed; solve [eassumption | lia]
      | eapply elst_consumed; eassumption ].
Qed.

Lemma content_of_pre k typ k' pre :
  content_of k typ = c_boxes k' pre -> pre = 0 \/ pre = 8.
Proof.
  destruct k; cbn [content_of]; repeat tag_case; intros H;
    try discriminate H; inversion H; auto.
Qed.

(** A container method: [ipush], the loop over the payload, [ipop]. *)
Lemma container_run fuel (dispatch : list byte -> Z -> M unit) len s e :
  e = pos s + len ->
  (exists s', walk fuel e dispatch (set_indent s (indent s + 1)) = Ok tt s'
              /\ pos s' = e) ->
  exists s',
    (ipush ;;
     p <- tell ;;
     let chunkend := p + len in
     walk fuel chunkend dispatch ;;
     ipop) s = Ok tt s' /\ pos s' = e.
Proof.
  intros He (s1 & Hw & Hp). subst e. eexists. split.
  - eapply bind_Ok; [reflexivity|]. eapply bind_Ok; [reflexivity|].
    cbv zeta. cbn [pos set_indent]. eapply bind_Ok; [exact Hw|]. reflexivity.
  - cbn [pos set_indent]. exact Hp.
Qed.

Lemma node_dispatched d k typ k' pre a len :
  content_of k typ = c_boxes k' pre ->
  0 <= a -> pre <= len -> a + len <= Z.of_nat (length d) ->
  walked d k' (a + pre) (a + len) ->
  dispatched d k typ len a.
Proof.
  intros H Ha Hl Hb (n0 & Hw). exists n0.
  intros fuel Hf s Hd Hp Hi. revert H.
  destruct k; unfold_dispatch; repeat tag_case; intros H;
    try discriminate H; inversion H; subst k' pre; clear H.
  all: try (rewrite Z.add_0_r in Hw;
            unfold scan_moov, scan_trak, scan_udta, scan_mdia, scan_edts,
              scan_minf, scan_dinf, scan_stbl;
            apply container_run; [lia|];
            apply (Hw fuel fuel Hf Hf); cbn [data pos indent set_indent]; auto; lia).
  (* dref: the prefix and the entry count come before the children *)
  destruct s as [d0 o p i l]. cbn [data pos indent] in *. subst d0 p.
  destruct (Hw fuel fuel Hf Hf
              (mkState d o (a + 8) (i + 1)
                 (((l ++ [ILine (i + 1) "version = %s"
                            [AInt (version_at (mkState d o a (i + 1) l))]]) ++
                   [ILine (i + 1) "flags = 0x%x"
                      [AInt (Z.land (be_uint (bytes_at d a 4)) 16777215)]]) ++
                  [ILine (i + 1) "entryCount = %d"
                     [AInt (be_uint (bytes_at d (a + 4) 4))]]))
              eq_refl eq_refl ltac:(cbn [indent]; lia))
    as (s1 & Hs1 & Hp1).
  eexists. split.
  - unfold scan_dref. do 7 run1.
    replace (a + 4 + 4) with (a + 8) by lia.
    eapply bind_Ok; [exact Hs1|]. reflexivity.
  - cbn [pos set_indent]. exact Hp1.
Qed.

(** ** The loops *)

Lemma walked_end d k e : walked d k e e.
Proof.
  exists 1%nat. intros turns fuel Ht _ s Hd Hp Hi.
  destruct turns as [|t]; [lia|]. exists s. split; [|exact Hp].
  unfold walk. cbn [while_]. eapply bind_Ok; [reflexivity|].
  rewrite Hp, Z.ltb_irrefl. reflexivity.
Qed.

Lemma walked_step d k p e size typ hdr :
  box_header d p = Some (size, typ, hdr) ->
  0 <= p -> hdr <= size -> p + size <= e ->
  dispatched d k typ (size - hdr) (p + hdr) ->
  walked d k (p + size) e ->
  walked d k p e.
Proof.
  intros Hh Hp Hsz He (n1 & Hdis) (n2 & Hrest).
  destruct (box_header_inv _ _ _ _ _ Hh) as (Hhdr & _).
  exists (S (Nat.max n1 n2)). intros turns fuel Ht Hf s Hd Hps Hi.
  destruct turns as [|t]; [lia|].
  assert (Hbox : scan_box s = Ok (size, typ, size - hdr) (set_pos s (p + hdr))).
  { rewrite <- Hps. apply scan_box_header; [rewrite Hd, Hps; exact Hh|lia]. }
  set (s2 := after_box_found (set_pos s (p + hdr)) typ size).
  destruct (Hdis fuel ltac:(lia) s2) as (s3 & Hs3 & Hp3);
    [exact Hd|reflexivity|exact Hi|].
  destruct (levels_Ok _ _ _ s2 tt s3
              (dispatch_of_levels k fuel typ (size - hdr) (indent s))
              Hi eq_refl Hs3) as (Hd3 & _ & Hi3 & _).
  destruct (Hrest t fuel ltac:(lia) ltac:(lia) s3) as (s' & Hs' & Hp');
    [rewrite Hd3; exact Hd|lia|rewrite Hi3; exact Hi|].
  exists s'. split; [|exact Hp'].
  unfold walk in *. cbn [while_]. eapply bind_Ok; [reflexivity|].
  replace (pos s <? e) with true by (symmetry; apply Z.ltb_lt; lia).
  eapply bind_Ok.
  { unfold walk_iter. eapply bind_Ok.
    - unfold catch_EOFError. rewrite Hbox. reflexivity.
    - cbn beta iota. eapply bind_Ok; [reflexivity|].
      fold s2. eapply bind_Ok; [exact Hs3|]. reflexivity. }
  exact Hs'.
Qed.

Lemma scanned_end d : scanned d (Z.of_nat (length d)).
Proof.
  exists 1%nat. intros turns fuel Ht _ n l.
  destruct turns as [|t]; [lia|]. exists n. eexists. split; [|split].
  - cbn [while_]. unfold scan_cond.
    eapply bind_Ok.
    { eapply bind_Ok; [reflexivity|]. eapply bind_Ok; [reflexivity|].
      reflexivity. }
    unfold filesize. cbn [data pos]. rewrite Z.ltb_irrefl. reflexivity.
  - reflexivity.
  - cbn [out]. lia.
Qed.

Lemma scanned_step d p size typ hdr :
  box_header d p = Some (size, typ, hdr) ->
  0 <= p -> hdr <= size -> p + size <= Z.of_nat (length d) ->
  dispatched d in_file typ (size - hdr) (p + hdr) ->
  scanned d (p + size) ->
  scanned d p.
Proof.
  intros Hh Hp Hsz He (n1 & Hdis) (n2 & Hrest).
  destruct (box_header_inv _ _ _ _ _ Hh) as (Hhdr & _).
  exists (S (Nat.max n1 n2)). intros turns fuel Ht Hf n l.
  destruct turns as [|t]; [lia|].
  set (s := mkState d true p 0 l).
  assert (Hbox : scan_box s = Ok (size, typ, size - hdr) (set_pos s (p + hdr))).
  { apply (scan_box_header s); [exact Hh|exact Hp]. }
  set (s2 := after_box_found (set_pos s (p + hdr)) typ size).
  destruct (Hdis fuel ltac:(lia) s2) as (s3 & Hs3 & Hp3);
    [reflexivity|reflexivity|cbn; lia|].
  cbn [dispatch_of] in Hs3.
  destruct (levels_Ok _ _ _ s2 tt s3 (scan_dispatch_levels fuel typ (size - hdr) 0)
              ltac:(lia) eq_refl Hs3)
    as (Hd3 & Ho3 & Hi3 & l2 & Hout3 & Hdeep).
  destruct s3 as [d3 o3 p3 i3 out3]. cbn [data opened pos indent out] in *.
  subst d3 o3 p3 i3 out3.
  destruct (Hrest t fuel ltac:(lia) ltac:(lia) (n + 1)
              ((out s2 ++ l2) ++ [PLine EmptyString []]))
    as (n' & s' & Hrun & Hind & Hsum).
  exists n', s'. split; [|split; [exact Hind|]].
  - cbn [while_]. unfold scan_cond at 1.
    eapply bind_Ok.
    { eapply bind_Ok; [reflexivity|]. eapply bind_Ok; [reflexivity|].
      reflexivity. }
    unfold filesize. cbn [data pos s].
    replace (p <? Z.of_nat (length d)) with true
      by (symmetry; apply Z.ltb_lt; lia).
    eapply bind_Ok.
    { unfold scan_iter. eapply bind_Ok.
      - unfold catch_EOFError. fold s. rewrite Hbox. reflexivity.
      - cbn beta iota. eapply bind_Ok; [reflexivity|].
        fold s2. eapply bind_Ok; [exact Hs3|].
        eapply bind_Ok; [reflexivity|]. reflexivity. }
    unfold emit. cbn [data opened pos indent out].
    replace (p + hdr + (size - hdr)) with (p + size) by lia. exact Hrun.
  - rewrite Hsum. rewrite !top_sizes_app, !sum_app.
    rewrite (top_sizes_deeper l2 Hdeep).
    unfold s2, after_box_found, emit, s. cbn [data opened pos indent out set_pos].
    rewrite top_sizes_app, sum_app. cbn. lia.
Qed.

(** ** From the bytes to the scan *)

Lemma valid_walked d :
  Z.of_nat (length d) <= max_off ->
  forall k p e, valid d k p e -> 0 <= p -> e <= Z.of_nat (length d) ->
  walked d k p e.
Proof.
  intros Hm k p e Hv.
  induction Hv as [k e
                  |k p e size typ hdr Hh Hsz He Hlay _ IH
                  |k p e size typ hdr k' pre Hh Hc Hsz He _ IHin _ IH];
    intros Hp Hb.
  - apply walked_end.
  - destruct (box_header_inv _ _ _ _ _ Hh) as (Hhdr & _).
    apply (walked_step d k p e size typ hdr Hh Hp Hsz He).
    + apply leaf_dispatched; auto; lia.
    + apply IH; lia.
  - destruct (box_header_inv _ _ _ _ _ Hh) as (Hhdr & _).
    pose proof (content_of_pre _ _ _ _ Hc) as Hpre.
    apply (walked_step d k p e size typ hdr Hh Hp ltac:(lia) He).
    + apply (node_dispatched d k typ k' pre); auto; try lia.
      replace (p + hdr + (size - hdr)) with (p + size) by lia.
      apply IHin; lia.
    + apply IH; lia.
Qed.

Lemma valid_scanned d :
  Z.of_nat (length d) <= max_off ->
  forall k p e, valid d k p e ->
  k = in_file -> e = Z.of_nat (length d) -> 0 <= p ->
  scanned d p.
Proof.
  intros Hm k p e Hv.
  induction Hv as [k e
                  |k p e size typ hdr Hh Hsz He Hlay _ IH
                  |k p e size typ hdr k' pre Hh Hc Hsz He Hin _ _ IH];
    intros Hk Hend Hp; subst k e.
  - apply scanned_end.
  - destruct (box_header_inv _ _ _ _ _ Hh) as (Hhdr & _).
    apply (scanned_step d p size typ hdr Hh Hp Hsz He).
    + apply leaf_dispatched; auto; lia.
    + apply IH; auto; lia.
  - destruct (box_header_inv _ _ _ _ _ Hh) as (Hhdr & _).
    pose proof (content_of_pre _ _ _ _ Hc) as Hpre.
    apply (scanned_step d p size typ hdr Hh Hp ltac:(lia) He).
    + apply (node_dispatched d in_file typ k' pre); auto; try lia.
      replace (p + hdr + (size - hdr)) with (p + size) by lia.
      apply (valid_walked d Hm k' _ _ Hin); lia.
    + apply IH; auto; lia.
Qed.

(** C7: on a valid file, one whose bytes are well-formed boxes from the
    first to the last, each box with a declared size that the layout of
    its type fills exactly and each container filled exactly by its
    children, [scan] returns (with any fuel above some bound) and the
    total sizes it announces for the top-level boxes add up to the file
    size exactly. *)
Theorem top_level_sizes_sum_to_filesize (d : list byte) :
  valid_file d ->
  filesize (open_file d) <= max_off ->
  exists fuel0, forall fuel, (fuel0 <= fuel)%nat ->
    exists s', scan fuel (open_file d) = Ok tt s' /\
               sum (top_sizes (out s')) = filesize (open_file d).
Proof.
  intros Hv Hm. unfold filesize, open_file in Hm. cbn [data] in Hm.
  destruct (valid_scanned d Hm in_file 0 _ Hv eq_refl eq_refl ltac:(lia))
    as (n0 & Hloop).
  exists n0. intros fuel Hf.
  destruct (Hloop fuel fuel Hf Hf 0 []) as (n' & s' & Hrun & Hind & Hsum).
  eexists. split.
  - unfold scan. eapply bind_Ok; [reflexivity|]. cbn [opened open_file negb].
    eapply bind_Ok; [reflexivity|].
    eapply bind_Ok; [exact Hrun|]. reflexivity.
  - unfold emit. cbn [out]. rewrite top_sizes_app, sum_app, Hsum.
    unfold filesize. cbn. lia.
Qed.


(** Building the derivation of [valid] for a given file. *)
Ltac valid_boxes :=
  lazymatch goal with
  | |- valid ?d ?k ?p ?e =>
      let same := eval vm_compute in (p =? e) in
      lazymatch same with
      | true => exact (valid_end d k e)
      | false =>
          let h := eval vm_compute in (box_header d p) in
          lazymatch h with
          | Some (?size, ?typ, ?hdr) =>
              let c := eval vm_compute in (content_of k typ) in
              lazymatch c with
              | c_boxes ?k' ?pre =>
                  apply (valid_node d k p e size typ hdr k' pre);
                  [ vm_compute; reflexivity | vm_compute; reflexivity
                  | vm_compute; discriminate | vm_compute; discriminate
                  | valid_boxes | valid_boxes ]
              | _ =>
                  apply (valid_leaf d k p e size typ hdr);
                  [ vm_compute; reflexivity | vm_compute; discriminate
                  | vm_compute; discriminate | vm_compute; reflexivity
                  | valid_boxes ]
              end
          end
      end
  end.

Lemma small_movie_valid : valid_file small_movie.
Proof. unfold valid_file. valid_boxes. Defined.

Lemma top_level_sizes_sum_to_filesize_witness :
  valid_file small_movie /\
  filesize (open_file small_movie) <= max_off /\
  exists fuel0, forall fuel, (fuel0 <= fuel)%nat ->
    exists s', scan fuel (open_file small_movie) = Ok tt s' /\
               sum (top_sizes (out s')) = 540.
Proof.
  split; [exact small_movie_valid|].
  split; [vm_compute; discriminate|].
  exact (top_level_sizes_sum_to_filesize small_movie small_movie_valid
           ltac:(vm_compute; discriminate)).
Defined.

Example small_movie_scanned :
  exists s', scan 9 (open_file small_movie) = Ok tt s' /\
             top_sizes (out s') = [20; 488; 20; 12] /\ pos s' = 540.
Proof.
  eexists. split; [vm_compute; reflexivity|]. split; reflexivity.
Qed.

(** What a derivation of [valid] says about the first box. *)
Lemma valid_inv d k p e :
  valid d k p e ->
  p = e \/
  exists size typ hdr,
    box_header d p = Some (size, typ, hdr) /\
    (layout d (content_of k typ) (p + hdr) (size - hdr) = true \/
     exists k' pre,
       content_of k typ = c_boxes k' pre /\
       valid d k' (p + hdr + pre) (p + size)).
Proof.
  destruct 1 as [|k p e size typ hdr Hh _ _ Hlay _
                 |k p e size typ hdr k' pre Hh Hc _ _ Hin _];
    [left; reflexivity|right..]; exists size, typ, hdr; (split; [exact Hh|]).
  - left. exact Hlay.
  - right. exists k', pre. auto.
Qed.

(** The three boxes of [three_boxes] form a valid file; the file whose
    [mvhd] declares four bytes more than its layout holds does not. *)
Example three_boxes_valid : valid_file three_boxes.
Proof. unfold valid_file. valid_boxes. Qed.

Example long_mvhd_not_valid : ~ valid_file moov_long_mvhd.
Proof.
  unfold valid_file. intros H.
  apply valid_inv in H as [E|(size & typ & hdr & Hh & [Hlay|(k' & pre & Hc & Hin)])];
    [vm_compute in E; discriminate| |];
    vm_compute in Hh; inversion Hh; subst; clear Hh.
  - vm_compute in Hlay. discriminate.
  - vm_compute in Hc. inversion Hc; subst; clear Hc.
    apply valid_inv in Hin
      as [E|(size & typ & hdr & Hh & [Hlay|(k' & pre & Hc & _)])];
      [vm_compute in E; discriminate| |];
      vm_compute in Hh; inversion Hh; subst; clear Hh.
    + vm_compute in Hlay. discriminate.
    + vm_compute in Hc. discriminate.
Qed.
